(** * Turtle behaviour analyzer: movement-pattern analysis and synthetic data

    A shallow embedding of [analyze_behavior.py]: the class
    [TurtleBehaviorAnalyzer] with [load_data], [_generate_synthetic_data]
    and [analyze_movement_patterns], over IEEE 754 binary64 numbers (the
    kernel's primitive floats), with the NumPy and pandas primitives the
    code calls written out next to it. *)

From Stdlib Require Import Floats ZArith Lia.
From Stdlib Require Uint63.
From stdpp Require Import gmap strings list fin_maps.

Local Open Scope Z_scope.

(** ** The NumPy primitives used by the analyzer *)

Module Numpy.

(** [np.sqrt] on a float64 scalar. *)
Definition np_sqrt (x : float) : float := PrimFloat.sqrt x.

(** The sign bit is clear (plus zero, a positive number, plus infinity)
    or the number is NaN: what a square, a sum of squares and its root
    are. *)
Definition nonneg (x : spec_float) : Prop :=
  match x with
  | S754_zero s | S754_infinity s | S754_finite s _ _ => s = false
  | S754_nan => True
  end.

(** A mantissa without its trailing zero bits, and their number. *)
Fixpoint odd_part (m : positive) : positive :=
  match m with
  | xO p => odd_part p
  | _ => m
  end.

Fixpoint trailing_zeros (m : positive) : Z :=
  match m with
  | xO p => 1 + trailing_zeros p
  | _ => 0
  end.

(** Numbers whose square is a binary64 number again: NaN, the infinities,
    the zeros, and [n * 2^j] with [n] odd, [|n| < 2^26] and
    [-500 <= j <= 500]. *)
Definition square_is_exact (x : float) : bool :=
  match Prim2SF x with
  | S754_finite _ m e =>
      (Zpos (odd_part m) <? 2 ^ 26) &&
      (-500 <=? e + trailing_zeros m) && (e + trailing_zeros m <=? 500)
  | _ => true
  end.

(** The C library behind NumPy.  [x ** 2] on a float64 scalar is the
    library's [pow(x, 2.0)], which need not be the correctly rounded
    square: it may be the binary64 number next to it.  What is used of it:
    a square that is a binary64 number is returned as it is, the result
    does not depend on the sign of [x], and its sign bit is clear (or it
    is NaN). *)
Class Libm := {
  pow2 : float → float;
  pow2_exact : ∀ x, square_is_exact x = true → pow2 x = (x * x)%float;
  pow2_even : ∀ x y, PrimFloat.abs x = PrimFloat.abs y → pow2 x = pow2 y;
  pow2_sign : ∀ x, nonneg (Prim2SF (pow2 x))
}.

(** [x ** 2] on a float64 scalar. *)
Definition square `{Libm} (x : float) : float := pow2 x.

(** A Python [int] count turned into a float64 (the divisor of [np.mean]). *)
Definition float_of_nat (n : nat) : float :=
  PrimFloat.of_uint63 (Uint63.of_Z (Z.of_nat n)).

Definition isnan (x : float) : bool := negb (x =? x)%float.

(** [res += a[i]] over a run of elements. *)
Definition sum_seq (res : float) (a : list float) : float :=
  fold_left PrimFloat.add a res.

(** The eight accumulators of the unrolled block loop. *)
Record acc8 := Acc8 { r0 : float; r1 : float; r2 : float; r3 : float;
                      r4 : float; r5 : float; r6 : float; r7 : float }.

(** [for (i = 8; i < n - n % 8; i += 8) r[j] += a[i + j]], and the
    elements left over when fewer than eight remain. *)
Fixpoint unrolled8 (r : acc8) (a : list float) : acc8 * list float :=
  match a with
  | a0 :: a1 :: a2 :: a3 :: a4 :: a5 :: a6 :: a7 :: rest =>
      unrolled8 (Acc8 (r0 r + a0) (r1 r + a1) (r2 r + a2) (r3 r + a3)
                      (r4 r + a4) (r5 r + a5) (r6 r + a6) (r7 r + a7))%float rest
  | _ => (r, a)
  end.

(** One block of at least 8 elements summed with 8 accumulators. *)
Definition block_sum (a : list float) : float :=
  match a with
  | a0 :: a1 :: a2 :: a3 :: a4 :: a5 :: a6 :: a7 :: rest =>
      let '(r, tail) := unrolled8 (Acc8 a0 a1 a2 a3 a4 a5 a6 a7) rest in
      sum_seq (((r0 r + r1 r) + (r2 r + r3 r)) +
               ((r4 r + r5 r) + (r6 r + r7 r)))%float tail
  | _ => sum_seq (-0)%float a
  end.

Definition PW_BLOCKSIZE : nat := 128.

(** NumPy's pairwise summation of a contiguous float64 buffer: a plain
    loop under 8 elements, an unrolled block up to [PW_BLOCKSIZE], and two
    halves (the first a multiple of 8) above.  The recursion halves the
    buffer, so [fuel = length a] is never used up. *)
Fixpoint pairwise_sum (fuel : nat) (a : list float) : float :=
  let n := length a in
  if (n <? 8)%nat then sum_seq (-0)%float a
  else if (n <=? PW_BLOCKSIZE)%nat then block_sum a
  else match fuel with
       | O => block_sum a
       | S fuel' =>
           let n2 := (n / 2)%nat in
           let n2 := (n2 - n2 mod 8)%nat in
           (pairwise_sum fuel' (take n2 a) + pairwise_sum fuel' (drop n2 a))%float
       end.

(** [np.add.reduce]: the additive identity plus the pairwise sum. *)
Definition np_sum (a : list float) : float :=
  (0 + pairwise_sum (length a) a)%float.

(** [np.mean] of a list of float64: sum divided by the count (an empty
    list gives [nan], with a warning and no exception). *)
Definition np_mean (a : list float) : float :=
  (np_sum a / float_of_nat (length a))%float.

(** One step of [np.minimum]: NaN propagates. *)
Definition minimum (x y : float) : float :=
  if (x <? y)%float || isnan x then x else y.

(** [np.min]: [ValueError] on an empty list, otherwise [np.minimum]
    reduced from the first element. *)
Definition np_min (a : list float) : option float :=
  match a with
  | [] => None
  | x :: rest => Some (fold_left minimum rest x)
  end.

(** [np.cumsum]: running sums, left to right. *)
Fixpoint cumsum_from (acc : float) (a : list float) : list float :=
  match a with
  | [] => []
  | x :: rest => let acc' := (acc + x)%float in acc' :: cumsum_from acc' rest
  end.

Definition np_cumsum (a : list float) : list float :=
  match a with
  | [] => []
  | x :: rest => x :: cumsum_from x rest
  end.

End Numpy.

Export Numpy.

(** ** Data model *)

(** One row of the tracking table, for a table whose two position
    columns and velocity column are float64 columns and whose id and
    interaction columns hold a string in every row: what the generator
    builds, and what [pd.read_csv] gives for a file whose numbers are
    written with a decimal point and whose text cells are all filled.
    (A position column of integers only is an int64 column, a text cell
    in a number column makes it an object column, an empty id cell is a
    NaN among strings: such tables are outside this development.)
    [timestamp] is a pandas timestamp, nanoseconds since the Unix
    epoch. *)
Record Sample := mkSample {
  timestamp : Z;
  turtle_id : string;
  x_position : float;
  y_position : float;
  velocity : float;
  interaction_type : string
}.

(** The tracking [DataFrame], row by row. *)
Abbreviation DataFrame := (list Sample).

(** Values stored in the [analysis_results] dict. *)
Inductive value :=
| VFloat (f : float)
| VInt (n : Z).

(** The exceptions that can end a call on such a table:
    [AttributeError] for the attribute [tracking_data] read before it is
    set, [IndexError] from [iloc], [ValueError] from [np.min] of an empty
    list, and [ReadCsvError] for whatever [pd.read_csv] raises other than
    [FileNotFoundError]. *)
Inductive exn := AttributeError | IndexError | ValueError | ReadCsvError.

(** The analyzer instance.  [tracking_data] is an attribute that
    [__init__] does not set: [None] until data is loaded or generated. *)
Record TurtleBehaviorAnalyzer := mkAnalyzer {
  species : string;
  duration : string;
  data_points : list Sample;
  tracking_data : option DataFrame;
  analysis_results : gmap string value
}.

Definition with_tracking_data (self : TurtleBehaviorAnalyzer) (df : DataFrame)
  : TurtleBehaviorAnalyzer :=
  mkAnalyzer (species self) (duration self) (data_points self)
             (Some df) (analysis_results self).

Definition with_result (self : TurtleBehaviorAnalyzer) (key : string) (v : value)
  : TurtleBehaviorAnalyzer :=
  mkAnalyzer (species self) (duration self) (data_points self)
             (tracking_data self) (<[key := v]> (analysis_results self)).

(** [TurtleBehaviorAnalyzer(species, duration)]. *)
Definition __init__ (species duration : string) : TurtleBehaviorAnalyzer :=
  mkAnalyzer species duration [] None ∅.

(** ** Movement analysis *)

(** [df[df['turtle_id'] == id]]: the rows of one turtle, in table order. *)
Definition select_turtle (id : string) (df : DataFrame) : DataFrame :=
  filter (λ r, turtle_id r = id) df.

(** [df.iloc[i]] for [i >= 0]. *)
Definition iloc (df : DataFrame) (i : nat) : exn + Sample :=
  match df !! i with
  | Some r => inr r
  | None => inl IndexError
  end.

(** The distance computed in the loop body. *)
Definition row_distance `{Libm} (ra rb : Sample) : float :=
  np_sqrt (square (x_position ra - x_position rb) +
           square (y_position ra - y_position rb))%float.

(** The loop [for i in range(...)]: [distances.append(dist)] for each
    index, stopping at the first exception. *)
Fixpoint distance_loop `{Libm} (turtle_a turtle_b : DataFrame) (range : list nat)
    (distances : list float) : exn + list float :=
  match range with
  | [] => inr distances
  | i :: range' =>
      match iloc turtle_a i with
      | inl e => inl e
      | inr ra =>
          match iloc turtle_b i with
          | inl e => inl e
          | inr rb =>
              distance_loop turtle_a turtle_b range'
                            (distances ++ [row_distance ra rb])
          end
      end
  end.

(** [d < 10] on a float64 distance. *)
Definition proximity_event (d : float) : bool := (d <? 10)%float.

(** [len([d for d in distances if d < 10])]. *)
Definition interaction_count (distances : list float) : nat :=
  length (List.filter proximity_event distances).

(** [analyze_movement_patterns]: the state of [self] when the call ends,
    and the exception that ended it, if any. *)
Definition analyze_movement_patterns `{Libm} (self : TurtleBehaviorAnalyzer)
  : TurtleBehaviorAnalyzer * option exn :=
  match tracking_data self with
  | None => (self, Some AttributeError)
  | Some df =>
      let turtle_a := select_turtle "turtle_a" df in
      let turtle_b := select_turtle "turtle_b" df in
      if (0 <? length turtle_a)%nat && (0 <? length turtle_b)%nat then
        match distance_loop turtle_a turtle_b
                (seq 0 (min (length turtle_a) (length turtle_b))) [] with
        | inl e => (self, Some e)
        | inr distances =>
            let self := with_result self "avg_distance" (VFloat (np_mean distances)) in
            match np_min distances with
            | None => (self, Some ValueError)
            | Some m =>
                let self := with_result self "min_distance" (VFloat m) in
                let self := with_result self "interaction_frequency"
                              (VInt (Z.of_nat (interaction_count distances))) in
                (self, None)
            end
        end
      else (self, None)
  end.

(** [load_data] when [pd.read_csv] returns a table. *)
Definition load (df : DataFrame) (self : TurtleBehaviorAnalyzer)
  : TurtleBehaviorAnalyzer :=
  with_tracking_data self df.

(** What [pd.read_csv(data_path)] does: it returns a table, raises
    [FileNotFoundError], or raises another exception (an empty or
    malformed file, a directory, a file that may not be read). *)
Inductive read_csv_result :=
| CsvTable (df : DataFrame)
| CsvFileNotFound
| CsvError.

(** ** Synthetic data *)

(** The global NumPy random state ([np.random]), as the generator uses it:
    seeding replaces the state, every draw returns a value and the next
    state. *)
Class RandomState (G : Type) := {
  (** [np.random.seed(s)] *)
  rk_seed : Z → G;
  (** one standard normal deviate *)
  rk_gauss : G → float * G;
  (** one integer, uniform below [n] *)
  rk_below : nat → G → nat * G;
  (** one deviate of Gamma(shape, scale) *)
  rk_gamma : float → float → G → float * G
}.

Section Generator.
Context {G : Type} `{RandomState G}.

(** [size] successive draws, threading the state. *)
Fixpoint draws {A : Type} (draw : G → A * G) (size : nat) (g : G) : list A * G :=
  match size with
  | O => ([], g)
  | S size' =>
      let '(v, g) := draw g in
      let '(vs, g) := draws draw size' g in
      (v :: vs, g)
  end.

(** [np.random.randn(n)] *)
Definition randn (n : nat) : G → list float * G := draws rk_gauss n.

(** [np.random.gamma(shape, scale, n)] *)
Definition gamma (shape scale : float) (n : nat) : G → list float * G :=
  draws (rk_gamma shape scale) n.

(** [np.random.choice(a, n)]: a uniform index into [a] per draw. *)
Definition choice (a : list string) (n : nat) : G → list string * G :=
  draws (λ g, let '(i, g) := rk_below (length a) g in (nth i a "", g)) n.

(** Nanoseconds from the Unix epoch to 2024-01-01 00:00:00. *)
Definition START_2024_01_01 : Z := 1704067200 * 1000000000.

(** One minute, in nanoseconds. *)
Definition FREQ_1MIN : Z := 60 * 1000000000.

(** [pd.date_range(start, periods, freq)] *)
Definition date_range (start : Z) (periods : nat) (freq : Z) : list Z :=
  map (λ i, start + Z.of_nat i * freq) (seq 0 periods).

(** [pd.DataFrame({...})] from six columns of one length. *)
Fixpoint DataFrame_of_columns (ts : list Z) (ids : list string)
    (xs ys vs : list float) (its : list string) : DataFrame :=
  match ts, ids, xs, ys, vs, its with
  | t :: ts, i :: ids, x :: xs, y :: ys, v :: vs, it :: its =>
      mkSample t i x y v it :: DataFrame_of_columns ts ids xs ys vs its
  | _, _, _, _, _, _ => []
  end.

Definition n_points : nat := 1000.

(** [np.cumsum(np.random.randn(n_points) * 0.5) + 100] on given deviates. *)
Definition walk (z : list float) : list float :=
  map (λ c, c + 100)%float (np_cumsum (map (λ v, v * 0.5)%float z)).

(** [_generate_synthetic_data]: the global random state goes in and out
    next to [self]. *)
Definition _generate_synthetic_data (self : TurtleBehaviorAnalyzer) (g : G)
  : TurtleBehaviorAnalyzer * G :=
  let g := rk_seed 42 in
  let '(zx, g) := randn n_points g in
  let x_positions := walk zx in
  let '(zy, g) := randn n_points g in
  let y_positions := walk zy in
  let timestamps := date_range START_2024_01_01 n_points FREQ_1MIN in
  let '(ids, g) := choice ["turtle_a"; "turtle_b"] n_points g in
  let '(vel, g) := gamma 2 0.5 n_points g in
  let '(its, g) := choice ["approach"; "avoid"; "neutral"] n_points g in
  (with_tracking_data self
     (DataFrame_of_columns timestamps ids x_positions y_positions vel its), g).

(** The table built by the generator, whatever the analyzer and the
    random state it starts from. *)
Definition synthetic_table : DataFrame :=
  default [] (tracking_data (fst (_generate_synthetic_data (__init__ "" "") (rk_seed 0)))).

(** [load_data]: [csv] is what [pd.read_csv(data_path)] does.  Only
    [FileNotFoundError] is caught; any other exception leaves the method
    before [tracking_data] is assigned. *)
Definition load_data (csv : read_csv_result) (self : TurtleBehaviorAnalyzer)
    (g : G) : TurtleBehaviorAnalyzer * G * option exn :=
  match csv with
  | CsvTable df => (load df self, g, None)
  | CsvFileNotFound => (_generate_synthetic_data self g, None)
  | CsvError => (self, g, Some ReadCsvError)
  end.

End Generator.

(** [drawn draw n g vs g']: [vs] are the values returned by [n] calls of
    the sampler [draw] one after the other, the first on the random state
    [g], each later one on the state left by the call before it; [g'] is
    the state left by the last call. *)
Inductive drawn {G A : Type} (draw : G → A * G) : nat → G → list A → G → Prop :=
| drawn_none (g : G) : drawn draw 0 g [] g
| drawn_next (n : nat) (g g1 g' : G) (v : A) (vs : list A) :
    draw g = (v, g1) → drawn draw n g1 vs g' → drawn draw (S n) g (v :: vs) g'.

(** ** Sequences of operations on one analyzer *)

Inductive op :=
| OpLoad (df : DataFrame)
| OpAnalyze.

(** One call; an exception raised by the analysis is caught by the
    caller, the instance stays as the call left it. *)
Definition step `{Libm} (self : TurtleBehaviorAnalyzer) (o : op) : TurtleBehaviorAnalyzer :=
  match o with
  | OpLoad df => load df self
  | OpAnalyze => fst (analyze_movement_patterns self)
  end.

Definition run `{Libm} (ops : list op) (self : TurtleBehaviorAnalyzer)
  : TurtleBehaviorAnalyzer :=
  fold_left step ops self.

(** The fields of the summary. *)
Definition summary_keys : gset string :=
  {["avg_distance"; "min_distance"; "interaction_frequency"]}.

(** A turtle has at least one sample in the table. *)
Definition has_turtle (id : string) (df : DataFrame) : Prop :=
  ∃ r, r ∈ df ∧ turtle_id r = id.

(** At least two distinct subject ids occur in the table. *)
Definition two_subjects (df : DataFrame) : Prop :=
  ∃ r1 r2, r1 ∈ df ∧ r2 ∈ df ∧ turtle_id r1 ≠ turtle_id r2.

(** What holds of an analyzer after the calls [ops]: the summary is whole
    or empty, a filled summary comes from a loaded table with both
    turtles, and the stored table is one that was loaded. *)
Definition invariant (ops : list op) (self : TurtleBehaviorAnalyzer) : Prop :=
  (analysis_results self = ∅ ∨ dom (analysis_results self) = summary_keys) ∧
  (analysis_results self ≠ ∅ →
   ∃ df, OpLoad df ∈ ops ∧ has_turtle "turtle_a" df ∧ has_turtle "turtle_b" df) ∧
  (∀ df, tracking_data self = Some df → OpLoad df ∈ ops).

(** ** A small deterministic random state for running the generator *)

Module Lcg.

Definition next (s : Z) : Z := (s * 1103515245 + 12345) mod 2147483648.

Definition gauss_table : list float :=
  [0.5; -1.25; 0.125; 2; -0.75; 0; 1.5; -0.375]%float.

Definition gamma_table : list float :=
  [0.25; 1; 0.5; 3; 1.75; 0.0625; 2.5; 0.875]%float.

Definition pick (table : list float) (s : Z) : float :=
  nth (Z.to_nat ((s / 65536) mod 8)) table 0%float.

#[global] Instance lcg_random_state : RandomState Z := {
  rk_seed s := next s;
  rk_gauss s := (pick gauss_table s, next s);
  rk_below n s := (Z.to_nat ((s / 65536) mod Z.of_nat n), next s);
  rk_gamma shape scale s := ((pick gamma_table s * scale)%float, next s)
}.

End Lcg.

(** ** Sample tables used below *)

Definition pt (id : string) (x y : float) : Sample :=
  mkSample 0 id x y 0%float "neutral".

Definition fresh : TurtleBehaviorAnalyzer := __init__ "chelonia" "24h".

(** Turtle A at (0,0), turtle B at (3,4), one sample each. *)
Definition scenario_3_4 : DataFrame :=
  [pt "turtle_a" 0 0; pt "turtle_b" 3 4]%float.

(** Samples of one turtle only. *)
Definition only_a : DataFrame := [pt "turtle_a" 0 0]%float.

(** Two aligned pairs, each exactly 10.0 apart. *)
Definition ten_apart : DataFrame :=
  [pt "turtle_a" 0 0; pt "turtle_b" 10 0; pt "turtle_b" 7 9; pt "turtle_a" 1 1]%float.

(** Two subjects under other ids. *)
Definition other_ids : DataFrame :=
  [pt "turtle_c" 0 0; pt "turtle_d" 3 4]%float.

(** Three aligned pairs, each 1.5 + 6 * 2^-52 apart. *)
Definition d_equal : float := 0x1.8000000000006p+0%float.

Definition three_equal : DataFrame :=
  [pt "turtle_a" 0 0; pt "turtle_a" 0 0; pt "turtle_a" 0 0;
   pt "turtle_b" d_equal 0; pt "turtle_b" d_equal 0; pt "turtle_b" d_equal 0]%float.

(** A missing coordinate, read as NaN. *)
Definition with_nan : DataFrame :=
  [pt "turtle_a" nan 0; pt "turtle_b" 0 0]%float.

(** A row of one of the two turtles the analysis reads. *)
Definition tracked (r : Sample) : Prop :=
  turtle_id r = "turtle_a" ∨ turtle_id r = "turtle_b".

(** The aligned pairs and what the analysis stores for them. *)
Definition aligned_distances `{Libm} (df : DataFrame) : list float :=
  zip_with row_distance (select_turtle "turtle_a" df) (select_turtle "turtle_b" df).

Definition store_summary (self : TurtleBehaviorAnalyzer) (distances : list float)
    (m : float) : TurtleBehaviorAnalyzer :=
  with_result
    (with_result
       (with_result self "avg_distance" (VFloat (np_mean distances)))
       "min_distance" (VFloat m))
    "interaction_frequency" (VInt (Z.of_nat (interaction_count distances))).

(** [w] holds the running sums of [steps]: it starts at the first step
    and each entry adds the next step to the entry before. *)
Definition running_sum (steps w : list float) : Prop :=
  length w = length steps ∧
  w !! 0%nat = steps !! 0%nat ∧
  ∀ i c s, w !! i = Some c → steps !! S i = Some s → w !! S i = Some (c + s)%float.

(** ** Sums of binary64 numbers *)

(** [float_sum l s]: [s] is a binary64 sum of the numbers of [l], each
    added once with [+], in some order and some bracketing, starting from
    them or from a zero. *)
Inductive float_sum : list float → float → Prop :=
| float_sum_zero : float_sum [] 0%float
| float_sum_neg_zero : float_sum [] (-0)%float
| float_sum_one (x : float) : float_sum [x] x
| float_sum_add (l1 l2 : list float) (s1 s2 : float) :
    float_sum l1 s1 → float_sum l2 s2 → float_sum (l1 ++ l2) (s1 + s2)%float
| float_sum_perm (l l' : list float) (s : float) :
    l ≡ₚ l' → float_sum l s → float_sum l' s.

(** The eight accumulators hold sums of eight lists that make up [L]. *)
Definition acc8_sums (r : acc8) (L : list float) : Prop :=
  ∃ l0 l1 l2 l3 l4 l5 l6 l7,
    float_sum l0 (r0 r) ∧ float_sum l1 (r1 r) ∧ float_sum l2 (r2 r) ∧
    float_sum l3 (r3 r) ∧ float_sum l4 (r4 r) ∧ float_sum l5 (r5 r) ∧
    float_sum l6 (r6 r) ∧ float_sum l7 (r7 r) ∧
    L ≡ₚ l0 ++ l1 ++ l2 ++ l3 ++ l4 ++ l5 ++ l6 ++ l7.

(** ** Values of binary64 numbers *)

(** The value of a number that is not negative in units of 2^-1074, the
    smallest positive binary64 number; plus infinity counts as 2^2098,
    which is above every finite number. *)
Definition scaled (x : spec_float) : Z :=
  match x with
  | S754_finite false m e => Zpos m * 2 ^ (e + 1074)
  | S754_infinity false => 2 ^ 2098
  | _ => 0
  end.

(** [x] is plus infinity, or a zero or a positive number whose value is
    at least [V] units. *)
Definition at_least (x : spec_float) (V : Z) : Prop :=
  match x with
  | S754_infinity false => True
  | S754_finite false m e => V ≤ Zpos m * 2 ^ (e + 1074)
  | S754_zero _ => V ≤ 0
  | _ => False
  end.

(** A zero, a positive number or plus infinity. *)
Definition not_below_zero (x : spec_float) : Prop :=
  match x with
  | S754_zero _ | S754_finite false _ _ | S754_infinity false => True
  | _ => False
  end.

(** The sum of the values of a list of numbers. *)
Definition sum_scaled (l : list float) : Z :=
  foldr (λ x acc, scaled (Prim2SF x) + acc) 0 l.

(** What a binary64 sum [s] of the numbers [l], none negative or NaN,
    keeps of the exact sum: it is not negative, it is a zero when there is
    nothing to add, and it is plus infinity or at least the exact sum
    times [(1 - 2^-52)] to the power of the number of terms. *)
Definition sum_bound (l : list float) (s : float) : Prop :=
  not_below_zero (Prim2SF s) ∧
  (l = [] → ∃ b, Prim2SF s = S754_zero b) ∧
  (Prim2SF s = S754_infinity false ∨
   sum_scaled l * (2 ^ 52 - 1) ^ Z.of_nat (length l) ≤
     scaled (Prim2SF s) * (2 ^ 52) ^ Z.of_nat (length l)).

(** ** Order of binary64 numbers *)

(** Position of a number on the extended real line, as a key ordered
    lexicographically: class, then exponent, then mantissa. *)
Definition key (x : spec_float) : Z * Z * Z :=
  match x with
  | S754_infinity true => (-2, 0, 0)
  | S754_finite true m e => (-1, - e, - Zpos m)
  | S754_zero _ | S754_nan => (0, 0, 0)
  | S754_finite false m e => (1, e, Zpos m)
  | S754_infinity false => (2, 0, 0)
  end.

Definition key_compare (k1 k2 : Z * Z * Z) : comparison :=
  let '(a1, b1, c1) := k1 in
  let '(a2, b2, c2) := k2 in
  match a1 ?= a2 with
  | Eq => match b1 ?= b2 with Eq => c1 ?= c2 | c => c end
  | c => c
  end.

Definition two52 : positive := 4503599627370496.

(** ** Further tables, transformations and entry points *)

(** Two tables that agree, row by row, on the turtle id and the
    position. *)
Definition same_positions (df df' : DataFrame) : Prop :=
  Forall2 (λ r r', turtle_id r = turtle_id r' ∧
                   x_position r = x_position r' ∧
                   y_position r = y_position r') df df'.

(** Turtle A has two samples more than turtle B. *)
Definition longer_a : DataFrame :=
  [pt "turtle_a" 0 0; pt "turtle_b" 3 4; pt "turtle_a" 9 9; pt "turtle_a" 1 2]%float.

(** The scenario with other timestamps, velocities and interaction types. *)
Definition relabelled : DataFrame :=
  [mkSample 77 "turtle_a" 0 0 2.5 "avoid"; mkSample 5 "turtle_b" 3 4 0.125 "approach"]%float.

(** A property of all, or of one, of the eight accumulators. *)
Definition acc8_all (P : float → Prop) (r : acc8) : Prop :=
  P (r0 r) ∧ P (r1 r) ∧ P (r2 r) ∧ P (r3 r) ∧ P (r4 r) ∧ P (r5 r) ∧ P (r6 r) ∧ P (r7 r).

Definition acc8_any (Q : float → Prop) (r : acc8) : Prop :=
  Q (r0 r) ∨ Q (r1 r) ∨ Q (r2 r) ∨ Q (r3 r) ∨ Q (r4 r) ∨ Q (r5 r) ∨ Q (r6 r) ∨ Q (r7 r).

(** The row with the two analysed labels exchanged. *)
Definition swap_label (r : Sample) : Sample :=
  mkSample (timestamp r)
    (if decide (turtle_id r = "turtle_a") then "turtle_b"
     else if decide (turtle_id r = "turtle_b") then "turtle_a"
     else turtle_id r)
    (x_position r) (y_position r) (velocity r) (interaction_type r).

(** The second aligned pair has a NaN coordinate. *)
Definition nan_pair : DataFrame :=
  [pt "turtle_a" 0 0; pt "turtle_b" 3 4; pt "turtle_a" 1 nan; pt "turtle_b" 2 2]%float.

(** ** Trajectories drawn by [generate_visualizations] *)











(** ** The command line *)

(** The parsed arguments; [data_path] is [None] when the option is not
    given. *)
Record Args := mkArgs {
  arg_species : string;
  arg_duration : string;
  arg_data_path : option string
}.

Section Main.
Context `{Libm} {G : Type} `{RandomState G}.

(** [main] up to the analysis: [read_csv] stands for the files on disk.
    An empty path is false in [if args.data_path]; an exception that
    [load_data] lets through ends [main] before the analysis. *)
Definition main_analysis (args : Args) (read_csv : string → read_csv_result) (g : G)
  : TurtleBehaviorAnalyzer * option exn :=
  let analyzer := __init__ (arg_species args) (arg_duration args) in
  let '(analyzer, g, raised) :=
    match arg_data_path args with
    | Some data_path =>
        if decide (data_path = "") then (_generate_synthetic_data analyzer g, None)
        else load_data (read_csv data_path) analyzer g
    | None => (_generate_synthetic_data analyzer g, None)
    end in
  match raised with
  | Some e => (analyzer, Some e)
  | None => analyze_movement_patterns analyzer
  end.

End Main.

(** * Summation *)

Module Summation.

Lemma pairwise_sum_S (fuel : nat) (a : list float) :
  pairwise_sum (S fuel) a =
    if (length a <? 8)%nat then sum_seq (-0)%float a
    else if (length a <=? PW_BLOCKSIZE)%nat then block_sum a
    else (pairwise_sum fuel (take (length a / 2 - (length a / 2) mod 8) a) +
          pairwise_sum fuel (drop (length a / 2 - (length a / 2) mod 8) a))%float.
Proof. reflexivity. Qed.

(** The fuel of [pairwise_sum] is never used up: any amount from the
    length of the buffer on gives the same sum. *)
Lemma pairwise_sum_fuel (fuel1 fuel2 : nat) (a : list float) :
  (length a ≤ fuel1)%nat → (length a ≤ fuel2)%nat →
  pairwise_sum fuel1 a = pairwise_sum fuel2 a.
Proof.
  revert fuel2 a. induction fuel1 as [|fuel1 IH]; intros fuel2 a H1 H2.
  - destruct a; [|simpl in H1; lia]. by destruct fuel2.
  - destruct fuel2 as [|fuel2].
    { destruct a; [done | simpl in H2; lia]. }
    rewrite !pairwise_sum_S.
    destruct (Nat.ltb_spec (length a) 8) as [|H8]; [done|].
    destruct (Nat.leb_spec (length a) PW_BLOCKSIZE) as [|Hbig]; [done|].
    unfold PW_BLOCKSIZE in Hbig.
    set (n2 := (length a / 2 - (length a / 2) mod 8)%nat).
    assert (Hn2 : (0 < n2 < length a)%nat).
    { subst n2.
      pose proof (Nat.div_mod_eq (length a) 2).
      pose proof (Nat.mod_upper_bound (length a) 2 ltac:(lia)).
      pose proof (Nat.mod_upper_bound (length a / 2) 8 ltac:(lia)).
      lia. }
    f_equal; apply IH; rewrite ?length_take, ?length_drop; lia.
Qed.

(** A buffer of fewer than 8 elements is summed left to right. *)
Lemma np_sum_short (a : list float) :
  (length a < 8)%nat → np_sum a = (0 + fold_left PrimFloat.add a (-0))%float.
Proof.
  intros Hlen. unfold np_sum.
  destruct a as [|x a]; [done|].
  cbn [length pairwise_sum].
  destruct (Nat.ltb_spec (S (length a)) 8); [done | simpl in Hlen; lia].
Qed.

End Summation.

(** * Facts about binary64 arithmetic *)

Module FloatFacts.

Lemma Prim2SF_one : Prim2SF 1%float = S754_finite false two52 (-52).
Proof. reflexivity. Qed.

(** *** Signs *)

Lemma binary_round_aux_sign s m e l :
  s = false → nonneg (binary_round_aux prec emax s m e l).
Proof.
  intros ->. unfold binary_round_aux.
  destruct (shr_fexp prec emax m e l) as [mrs' e'].
  destruct (shr_fexp prec emax _ e' loc_Exact) as [mrs'' e''].
  destruct (shr_m mrs''); simpl; try done.
  destruct (e'' <=? emax - prec); done.
Qed.

Lemma mul_self_nonneg (x : float) : nonneg (Prim2SF (x * x)).
Proof.
  rewrite FloatAxioms.mul_spec. unfold SF64mul.
  destruct (Prim2SF x) as [s|s| |s m e]; simpl; try done; try (by destruct s).
  apply binary_round_aux_sign. by destruct s.
Qed.

Lemma SFmul_self_abs (a b : spec_float) :
  SFabs a = SFabs b → SFmul prec emax a a = SFmul prec emax b b.
Proof.
  destruct a as [s|s| |s m e], b as [s'|s'| |s' m' e']; simpl; try done.
  - intros _. by destruct s, s'.
  - intros _. by destruct s, s'.
  - intros [= -> ->]. by destruct s, s'.
Qed.

Lemma mul_self_even (x y : float) :
  PrimFloat.abs x = PrimFloat.abs y → (x * x)%float = (y * y)%float.
Proof.
  intros Habs. apply Prim2SF_inj. rewrite !FloatAxioms.mul_spec.
  apply SFmul_self_abs. by rewrite <- !FloatAxioms.abs_spec, Habs.
Qed.

(** A library whose [pow(x, 2.0)] is the correctly rounded square. *)
#[global] Instance correctly_rounded : Libm := {|
  pow2 x := (x * x)%float;
  pow2_exact x _ := eq_refl;
  pow2_even := mul_self_even;
  pow2_sign := mul_self_nonneg
|}.

Section WithLibm.
Context `{Libm}.

Lemma square_nonneg (x : float) : nonneg (Prim2SF (square x)).
Proof. apply pow2_sign. Qed.

Lemma add_nonneg (x y : float) :
  nonneg (Prim2SF x) → nonneg (Prim2SF y) → nonneg (Prim2SF (x + y)).
Proof.
  rewrite FloatAxioms.add_spec. unfold SF64add.
  destruct (Prim2SF x) as [s|s| |s m e], (Prim2SF y) as [s'|s'| |s' m' e'];
    simpl; intros H1 H2; subst; try done.
  unfold binary_normalize, cond_Zopp.
  destruct (shl_align m e _) as [a ?], (shl_align m' e' _) as [b ?]. simpl.
  unfold binary_round.
  destruct (shl_align _ _ _). by apply binary_round_aux_sign.
Qed.

Lemma sqrt_nonneg (x : float) :
  nonneg (Prim2SF x) → nonneg (Prim2SF (np_sqrt x)).
Proof.
  unfold np_sqrt. rewrite FloatAxioms.sqrt_spec. unfold SF64sqrt, SFsqrt.
  destruct (Prim2SF x) as [s|s| |s m e]; simpl; intros; subst; try done.
  destruct (SFsqrt_core_binary _ _ _ _) as [[mz ez] lz].
  by apply binary_round_aux_sign.
Qed.

(** *** Adding a zero, dividing by one *)

Lemma neg_zero_add (d : float) : (-0 + d)%float = d.
Proof.
  apply Prim2SF_inj. rewrite FloatAxioms.add_spec.
  change (Prim2SF (-0)%float) with (S754_zero true).
  unfold SF64add. destruct (Prim2SF d) as [[]|[]| |s m e]; done.
Qed.

Lemma zero_add (d : float) : nonneg (Prim2SF d) → (0 + d)%float = d.
Proof.
  intros Hd. apply Prim2SF_inj. rewrite FloatAxioms.add_spec.
  change (Prim2SF 0%float) with (S754_zero false).
  unfold SF64add. destruct (Prim2SF d) as [[]|[]| |s m e]; done.
Qed.

Lemma div_eucl_exact (q b : Z) : 0 < b → Z.div_eucl (q * b) b = (q, 0).
Proof.
  intros Hb. pose proof (Z_div_mod (q * b) b ltac:(lia)) as Hs.
  destruct (Z.div_eucl (q * b) b) as [q' r]. destruct Hs as [Heq Hr].
  assert (q' = q) by nia. subst q'. f_equal. lia.
Qed.

(** Quotient of a valid mantissa by the mantissa of 1.0: exact, with one
    extra bit except in the lowest binade. *)
Lemma div_core_one (m : positive) (e : Z) :
  bounded prec emax m e = true →
  SFdiv_core_binary prec emax (Zpos m) e (Zpos two52) (-52) =
    if e =? -1074 then (Zpos m, e, loc_Exact) else (Zpos m~0, e - 1, loc_Exact).
Proof.
  unfold bounded, canonical_mantissa. intros Hb.
  apply andb_prop in Hb as [Hc He]. apply Z.eqb_eq in Hc. apply Z.leb_le in He.
  unfold SFdiv_core_binary.
  change (Zdigits2 (Zpos two52)) with 53.
  change (Zdigits2 (Zpos m)) with (Zpos (digits2_pos m)).
  set (D := Zpos (digits2_pos m)) in *.
  assert (HD : 0 < D) by (unfold D; lia).
  unfold fexp, emin, prec, emax in *.
  destruct (Z.eqb_spec e (-1074)) as [->|Hne].
  - replace (Z.min _ _) with (-1074) by lia.
    replace (-1074 - -52 - -1074) with 52 by lia.
    rewrite Z.shiftl_mul_pow2 by lia.
    change (2 ^ 52) with (Zpos two52).
    rewrite div_eucl_exact by lia. reflexivity.
  - replace (Z.min _ _) with (e - 1) by lia.
    replace (e - -52 - (e - 1)) with 53 by lia.
    rewrite Z.shiftl_mul_pow2 by lia.
    replace (Zpos m * 2 ^ 53) with (Zpos m~0 * Zpos two52) by (unfold two52; lia).
    rewrite div_eucl_exact by lia. reflexivity.
Qed.

(** Rounding that quotient gives the dividend back. *)
Lemma round_one (s : bool) (m : positive) (e : Z) :
  bounded prec emax m e = true →
  (let '(mz, ez, lz) :=
     (if e =? -1074 then (Zpos m, e, loc_Exact) else (Zpos m~0, e - 1, loc_Exact))
   in binary_round_aux prec emax s mz ez lz) = S754_finite s m e.
Proof.
  unfold bounded, canonical_mantissa. intros Hb.
  apply andb_prop in Hb as [Hc He]. apply Z.eqb_eq in Hc.
  assert (Hshift : shr_fexp prec emax (Zpos m) e loc_Exact =
                   (Build_shr_record (Zpos m) false false, e)).
  { unfold shr_fexp. change (Zdigits2 (Zpos m)) with (Zpos (digits2_pos m)).
    rewrite Hc, Z.sub_diag. reflexivity. }
  destruct (Z.eqb_spec e (-1074)) as [->|Hne].
  - unfold binary_round_aux. rewrite Hshift. simpl shr_m. simpl loc_of_shr_record.
    unfold round_nearest_even. rewrite Hshift. simpl shr_m. by rewrite He.
  - unfold binary_round_aux.
    assert (Hs1 : shr_fexp prec emax (Zpos m~0) (e - 1) loc_Exact =
                  (Build_shr_record (Zpos m) false false, e)).
    { unfold shr_fexp.
      change (Zdigits2 (Zpos m~0)) with (Zpos (Pos.succ (digits2_pos m))).
      replace (Zpos (Pos.succ (digits2_pos m)) + (e - 1))
        with (Zpos (digits2_pos m) + e) by lia.
      rewrite Hc. replace (e - (e - 1)) with 1 by lia. simpl.
      f_equal. lia. }
    rewrite Hs1. simpl shr_m. simpl loc_of_shr_record.
    unfold round_nearest_even. rewrite Hshift. simpl shr_m. by rewrite He.
Qed.

Lemma div_one (d : float) : (d / 1)%float = d.
Proof.
  apply Prim2SF_inj. rewrite FloatAxioms.div_spec, Prim2SF_one.
  pose proof (Prim2SF_valid d) as Hv.
  unfold SF64div, SFdiv.
  destruct (Prim2SF d) as [[]|[]| |s m e]; try reflexivity.
  simpl in Hv. rewrite div_core_one by done.
  rewrite xorb_false_r. by apply round_one.
Qed.

(** *** Comparisons *)

Lemma nan_dec (x : spec_float) : {x = S754_nan} + {x ≠ S754_nan}.
Proof. destruct x; (by left) || (by right). Qed.

Lemma SFcompare_key (x y : spec_float) :
  x ≠ S754_nan → y ≠ S754_nan → SFcompare x y = Some (key_compare (key x) (key y)).
Proof.
  intros Hx Hy.
  destruct x as [s|s| |s m e], y as [s'|s'| |s' m' e']; try done;
    try (by destruct s); try (by destruct s'); try (by destruct s, s').
  unfold SFcompare.
  change (Pos.compare_cont Eq m m') with (Pos.compare m m').
  destruct s, s'; simpl; try done.
  rewrite Z.compare_opp, (Z.compare_antisym e e').
  by destruct (e ?= e').
Qed.

Lemma key_compare_refl k : key_compare k k = Eq.
Proof. destruct k as [[a b] c]. simpl. by rewrite !Z.compare_refl. Qed.

Lemma key_compare_le_trans k1 k2 k3 :
  key_compare k1 k2 ≠ Gt → key_compare k2 k3 ≠ Gt → key_compare k1 k3 ≠ Gt.
Proof.
  destruct k1 as [[a1 b1] c1], k2 as [[a2 b2] c2], k3 as [[a3 b3] c3]. simpl.
  destruct (Z.compare_spec a1 a2), (Z.compare_spec a2 a3), (Z.compare_spec a1 a3);
    try done; try lia;
  destruct (Z.compare_spec b1 b2), (Z.compare_spec b2 b3), (Z.compare_spec b1 b3);
    try done; try lia;
  destruct (Z.compare_spec c1 c2), (Z.compare_spec c2 c3), (Z.compare_spec c1 c3);
    try done; lia.
Qed.

Lemma key_compare_antisym k1 k2 : key_compare k2 k1 = CompOpp (key_compare k1 k2).
Proof.
  destruct k1 as [[a1 b1] c1], k2 as [[a2 b2] c2]. simpl.
  rewrite (Z.compare_antisym a1 a2), (Z.compare_antisym b1 b2), (Z.compare_antisym c1 c2).
  destruct (a1 ?= a2), (b1 ?= b2), (c1 ?= c2); done.
Qed.

Lemma isnan_false (x : float) : isnan x = false ↔ Prim2SF x ≠ S754_nan.
Proof.
  unfold isnan. rewrite FloatAxioms.eqb_spec. unfold SFeqb.
  destruct (nan_dec (Prim2SF x)) as [->|Hx]; [done|].
  rewrite SFcompare_key, key_compare_refl by done. done.
Qed.

Lemma leb_key (x y : float) :
  (x <=? y)%float = true ↔
  Prim2SF x ≠ S754_nan ∧ Prim2SF y ≠ S754_nan ∧
  key_compare (key (Prim2SF x)) (key (Prim2SF y)) ≠ Gt.
Proof.
  rewrite FloatAxioms.leb_spec. unfold SFleb.
  destruct (nan_dec (Prim2SF x)) as [->|Hx].
  { simpl. split; [done | by intros [? _]]. }
  destruct (nan_dec (Prim2SF y)) as [->|Hy].
  { destruct (Prim2SF x); simpl; (split; [done | by intros (_ & ? & _)]). }
  rewrite SFcompare_key by done.
  destruct (key_compare _ _); (split; [done | by intros (_ & _ & ?)]).
Qed.

Lemma ltb_key (x y : float) :
  (x <? y)%float = true ↔
  Prim2SF x ≠ S754_nan ∧ Prim2SF y ≠ S754_nan ∧
  key_compare (key (Prim2SF x)) (key (Prim2SF y)) = Lt.
Proof.
  rewrite FloatAxioms.ltb_spec. unfold SFltb.
  destruct (nan_dec (Prim2SF x)) as [->|Hx].
  { simpl. split; [done | by intros [? _]]. }
  destruct (nan_dec (Prim2SF y)) as [->|Hy].
  { destruct (Prim2SF x); simpl; (split; [done | by intros (_ & ? & _)]). }
  rewrite SFcompare_key by done.
  destruct (key_compare _ _); (split; [done | by intros (_ & _ & ?)]).
Qed.

Lemma leb_refl (x : float) : isnan x = false → (x <=? x)%float = true.
Proof.
  rewrite isnan_false, leb_key, key_compare_refl. intros Hx. by repeat split.
Qed.

Lemma leb_trans (x y z : float) :
  (x <=? y)%float = true → (y <=? z)%float = true → (x <=? z)%float = true.
Proof.
  rewrite !leb_key. intros (? & ? & ?) (? & ? & ?).
  eauto using key_compare_le_trans.
Qed.

Lemma ltb_leb (x y : float) : (x <? y)%float = true → (x <=? y)%float = true.
Proof. rewrite ltb_key, leb_key. intros (? & ? & ->). done. Qed.

Lemma not_ltb_leb (x y : float) :
  isnan x = false → isnan y = false →
  (x <? y)%float = false → (y <=? x)%float = true.
Proof.
  rewrite !isnan_false. intros Hx Hy Hlt. apply leb_key.
  split; [done|]. split; [done|].
  rewrite key_compare_antisym.
  destruct (key_compare (key (Prim2SF x)) (key (Prim2SF y))) eqn:E; try done.
  assert ((x <? y)%float = true) by (apply ltb_key; done). congruence.
Qed.

Lemma eqb_not_ltb (x y : float) : (x =? y)%float = true → (x <? y)%float = false.
Proof.
  rewrite FloatAxioms.eqb_spec, FloatAxioms.ltb_spec. unfold SFeqb, SFltb.
  by destruct (SFcompare _ _) as [[]|].
Qed.

(** *** The minimum *)

Lemma minimum_cases (x y : float) : minimum x y = x ∨ minimum x y = y.
Proof. unfold minimum. destruct (_ || _); auto. Qed.

Lemma minimum_le (x y : float) :
  isnan x = false → isnan y = false →
  (minimum x y <=? x)%float = true ∧ (minimum x y <=? y)%float = true ∧
  isnan (minimum x y) = false.
Proof.
  intros Hx Hy. unfold minimum. rewrite Hx, orb_false_r.
  destruct (x <? y)%float eqn:E.
  - auto using leb_refl, ltb_leb.
  - auto using leb_refl, not_ltb_leb.
Qed.

Lemma fold_minimum_spec (rest : list float) (x : float) :
  isnan x = false → Forall (λ d, isnan d = false) rest →
  let m := fold_left minimum rest x in
  (m = x ∨ m ∈ rest) ∧ (m <=? x)%float = true ∧
  Forall (λ d, (m <=? d)%float = true) rest ∧ isnan m = false.
Proof.
  revert x. induction rest as [|y rest IH]; intros x Hx Hrest; simpl.
  - auto using leb_refl.
  - apply Forall_cons in Hrest as [Hy Hrest].
    destruct (minimum_le x y Hx Hy) as (Hmx & Hmy & Hm).
    destruct (IH (minimum x y) Hm Hrest) as (Hin & Hle & Hall & Hnan).
    repeat split; [| by eauto using leb_trans | | done].
    + destruct Hin as [-> | Hin]; [|right; by right].
      destruct (minimum_cases x y) as [-> | ->]; [by left | right; left].
    + apply Forall_cons. eauto using leb_trans.
Qed.

(** On a list without NaN, [np.min] is an element below all elements. *)
Lemma np_min_spec (a : list float) (m : float) :
  Forall (λ d, isnan d = false) a → np_min a = Some m →
  m ∈ a ∧ Forall (λ d, (m <=? d)%float = true) a.
Proof.
  destruct a as [|x rest]; [done|]. simpl. intros Ha [= <-].
  apply Forall_cons in Ha as [Hx Hrest].
  destruct (fold_minimum_spec rest x Hx Hrest) as (Hin & Hle & Hall & _).
  split.
  - destruct Hin as [-> | Hin]; [left | by right].
  - by apply Forall_cons.
Qed.

(** *** Distances *)

Lemma row_distance_nonneg (ra rb : Sample) : nonneg (Prim2SF (row_distance ra rb)).
Proof.
  unfold row_distance. apply sqrt_nonneg, add_nonneg; apply square_nonneg.
Qed.

(** Where both squares are binary64 numbers the distance does not depend
    on the library. *)
Lemma row_distance_exact (ra rb : Sample) :
  square_is_exact (x_position ra - x_position rb) = true →
  square_is_exact (y_position ra - y_position rb) = true →
  row_distance ra rb =
    (PrimFloat.sqrt
       ((x_position ra - x_position rb) * (x_position ra - x_position rb) +
        (y_position ra - y_position rb) * (y_position ra - y_position rb)))%float.
Proof.
  intros Hx Hy. unfold row_distance, square, np_sqrt.
  by rewrite (pow2_exact _ Hx), (pow2_exact _ Hy).
Qed.

(** The mean of one distance is that distance. *)
Lemma np_mean_singleton (ra rb : Sample) :
  np_mean [row_distance ra rb] = row_distance ra rb.
Proof.
  unfold np_mean, np_sum. simpl.
  change (float_of_nat 1) with 1%float.
  rewrite neg_zero_add, zero_add by apply row_distance_nonneg.
  apply div_one.
Qed.

(** A distance equal to 10.0 is not below the threshold. *)
Lemma filter_proximity_not_ten (ds : list float) :
  List.filter proximity_event (List.filter (λ d, negb (d =? 10)%float) ds) =
    List.filter proximity_event ds.
Proof.
  induction ds as [|d ds IH]; [done|]. simpl.
  destruct (d =? 10)%float eqn:E; simpl.
  - unfold proximity_event at 2. by rewrite (eqb_not_ltb d 10 E).
  - by rewrite IH.
Qed.

End WithLibm.

End FloatFacts.

(** * The movement analysis *)

Module Analysis.

Section WithLibm.
Context `{Libm}.

Lemma distance_loop_seq (A B : DataFrame) (n j : nat) (acc : list float) :
  (j + n ≤ length A)%nat → (j + n ≤ length B)%nat →
  distance_loop A B (seq j n) acc =
    inr (acc ++ zip_with row_distance (take n (drop j A)) (take n (drop j B))).
Proof.
  revert j acc. induction n as [|n IH]; intros j acc HA HB; simpl.
  - by rewrite app_nil_r.
  - unfold iloc.
    destruct (lookup_lt_is_Some_2 A j) as [ra Hra]; [lia|].
    destruct (lookup_lt_is_Some_2 B j) as [rb Hrb]; [lia|].
    rewrite Hra, Hrb, IH by lia.
    rewrite (drop_S A ra j Hra), (drop_S B rb j Hrb). simpl.
    by rewrite <- app_assoc.
Qed.

(** The index loop never leaves the tables and yields the distances of
    the aligned pairs, in order. *)
Lemma distance_loop_aligned (A B : DataFrame) :
  distance_loop A B (seq 0 (min (length A) (length B))) [] =
    inr (zip_with row_distance A B).
Proof.
  rewrite distance_loop_seq by lia. simpl. rewrite !drop_0.
  by rewrite zip_with_take_both' by lia.
Qed.

Lemma length_aligned_distances (df : DataFrame) :
  length (aligned_distances df) =
    min (length (select_turtle "turtle_a" df)) (length (select_turtle "turtle_b" df)).
Proof. apply length_zip_with. Qed.

Lemma np_min_is_Some (a : list float) : a ≠ [] → is_Some (np_min a).
Proof. destruct a; [done | by eexists]. Qed.

Lemma analyze_unloaded (self : TurtleBehaviorAnalyzer) :
  tracking_data self = None →
  analyze_movement_patterns self = (self, Some AttributeError).
Proof. unfold analyze_movement_patterns. by intros ->. Qed.

Lemma analyze_noop (self : TurtleBehaviorAnalyzer) (df : DataFrame) :
  tracking_data self = Some df →
  select_turtle "turtle_a" df = [] ∨ select_turtle "turtle_b" df = [] →
  analyze_movement_patterns self = (self, None).
Proof.
  unfold analyze_movement_patterns. intros -> [-> | ->]; simpl; [done|].
  by rewrite andb_false_r.
Qed.

Lemma analyze_populates (self : TurtleBehaviorAnalyzer) (df : DataFrame) :
  tracking_data self = Some df →
  select_turtle "turtle_a" df ≠ [] → select_turtle "turtle_b" df ≠ [] →
  ∃ m, np_min (aligned_distances df) = Some m ∧
       analyze_movement_patterns self =
         (store_summary self (aligned_distances df) m, None).
Proof.
  intros Hdf HA HB. unfold analyze_movement_patterns. rewrite Hdf.
  rewrite distance_loop_aligned. fold (aligned_distances df).
  assert (Hlen : (0 <? length (select_turtle "turtle_a" df))%nat &&
                 (0 <? length (select_turtle "turtle_b" df))%nat = true).
  { destruct (select_turtle "turtle_a" df), (select_turtle "turtle_b" df); done. }
  rewrite Hlen.
  destruct (np_min_is_Some (aligned_distances df)) as [m Hm].
  { unfold aligned_distances.
    destruct (select_turtle "turtle_a" df), (select_turtle "turtle_b" df); done. }
  exists m. by rewrite Hm.
Qed.

Lemma store_summary_avg self ds m :
  analysis_results (store_summary self ds m) !! "avg_distance" =
    Some (VFloat (np_mean ds)).
Proof.
  unfold store_summary, with_result. simpl.
  rewrite !lookup_insert_ne by done. apply lookup_insert_eq.
Qed.

Lemma store_summary_min self ds m :
  analysis_results (store_summary self ds m) !! "min_distance" = Some (VFloat m).
Proof.
  unfold store_summary, with_result. simpl.
  rewrite lookup_insert_ne by done. apply lookup_insert_eq.
Qed.

Lemma store_summary_freq self ds m :
  analysis_results (store_summary self ds m) !! "interaction_frequency" =
    Some (VInt (Z.of_nat (interaction_count ds))).
Proof. unfold store_summary, with_result. simpl. apply lookup_insert_eq. Qed.

Lemma store_summary_tracking_data self ds m :
  tracking_data (store_summary self ds m) = tracking_data self.
Proof. done. Qed.

Lemma store_summary_twice self ds m :
  store_summary (store_summary self ds m) ds m = store_summary self ds m.
Proof.
  unfold store_summary, with_result. simpl. f_equal.
  apply map_eq. intros key. rewrite !lookup_insert.
  repeat case_decide; done.
Qed.

Lemma lookup_aligned_distances (df : DataFrame) (i : nat) :
  (i < length (aligned_distances df))%nat →
  ∃ ra rb, select_turtle "turtle_a" df !! i = Some ra ∧
           select_turtle "turtle_b" df !! i = Some rb ∧
           aligned_distances df !! i = Some (row_distance ra rb).
Proof.
  rewrite length_aligned_distances. intros Hi.
  destruct (lookup_lt_is_Some_2 (select_turtle "turtle_a" df) i) as [ra Hra]; [lia|].
  destruct (lookup_lt_is_Some_2 (select_turtle "turtle_b" df) i) as [rb Hrb]; [lia|].
  exists ra, rb. repeat split; try done.
  unfold aligned_distances. rewrite lookup_zip_with, Hra, Hrb. done.
Qed.

(** Rows of other ids do not reach either series. *)
Lemma select_turtle_tracked (id : string) (df : DataFrame) :
  id = "turtle_a" ∨ id = "turtle_b" →
  select_turtle id (filter tracked df) = select_turtle id df.
Proof.
  intros Hid. unfold select_turtle. rewrite list_filter_filter.
  apply list_filter_iff. intros r. unfold tracked.
  destruct Hid; subst id; tauto.
Qed.

Lemma select_turtle_untracked (id : string) (df : DataFrame) :
  id = "turtle_a" ∨ id = "turtle_b" →
  Forall (λ r, ¬ tracked r) df → select_turtle id df = [].
Proof.
  intros Hid Hdf. unfold select_turtle.
  induction Hdf as [|r df Hr _ IH]; [done|].
  rewrite filter_cons_False; [done|].
  intros Heq. apply Hr. unfold tracked.
  destruct Hid; subst id; tauto.
Qed.

(** The analysis reads the table through the two series only. *)
Lemma analyze_by_series (self : TurtleBehaviorAnalyzer) (df df' : DataFrame) :
  select_turtle "turtle_a" df' = select_turtle "turtle_a" df →
  select_turtle "turtle_b" df' = select_turtle "turtle_b" df →
  analysis_results (fst (analyze_movement_patterns (load df' self))) =
    analysis_results (fst (analyze_movement_patterns (load df self))) ∧
  snd (analyze_movement_patterns (load df' self)) =
    snd (analyze_movement_patterns (load df self)).
Proof.
  intros Ha Hb. unfold analyze_movement_patterns, load. simpl.
  rewrite Ha, Hb.
  destruct (_ && _); [|done].
  destruct (distance_loop _ _ _ _) as [e|ds]; [done|].
  destruct (np_min ds); done.
Qed.

(** The outcome and the summary depend on the stored table and the
    summary held before, on nothing else. *)
Lemma analyze_congruence (self1 self2 : TurtleBehaviorAnalyzer) :
  tracking_data self1 = tracking_data self2 →
  analysis_results self1 = analysis_results self2 →
  analysis_results (fst (analyze_movement_patterns self1)) =
    analysis_results (fst (analyze_movement_patterns self2)) ∧
  snd (analyze_movement_patterns self1) = snd (analyze_movement_patterns self2).
Proof.
  intros Hd Hr. unfold analyze_movement_patterns. rewrite Hd.
  destruct (tracking_data self2) as [df|]; [|done].
  destruct (_ && _); [|done].
  destruct (distance_loop _ _ _ _) as [e|ds]; [done|].
  destruct (np_min ds); simpl; by rewrite Hr.
Qed.

Lemma has_turtle_select (id : string) (df : DataFrame) :
  select_turtle id df ≠ [] → has_turtle id df.
Proof.
  unfold select_turtle, has_turtle. intros Hne.
  destruct (filter _ df) as [|r l] eqn:E; [done|].
  assert (Hr : r ∈ filter (λ r, turtle_id r = id) df) by (rewrite E; left).
  apply list_elem_of_filter in Hr as [Hid Hin]. by exists r.
Qed.

Lemma aligned_distances_single (df : DataFrame) :
  min (length (select_turtle "turtle_a" df)) (length (select_turtle "turtle_b" df)) = 1%nat →
  ∃ ra rb, head (select_turtle "turtle_a" df) = Some ra ∧
           head (select_turtle "turtle_b" df) = Some rb ∧
           aligned_distances df = [row_distance ra rb].
Proof.
  unfold aligned_distances.
  destruct (select_turtle "turtle_a" df) as [|ra A], (select_turtle "turtle_b" df) as [|rb B];
    simpl; try lia.
  intros Hk. exists ra, rb. repeat split.
  destruct A, B; simpl in *; try done; lia.
Qed.

Lemma dom_store_summary self ds m :
  analysis_results self = ∅ ∨ dom (analysis_results self) = summary_keys →
  dom (analysis_results (store_summary self ds m)) = summary_keys.
Proof.
  unfold store_summary, with_result, summary_keys. simpl.
  rewrite !dom_insert_L. intros [-> | ->]; [rewrite dom_empty_L|]; set_solver.
Qed.

End WithLibm.

End Analysis.

(** * The synthetic table *)

Module Synthetic.

Lemma cumsum_from_length (acc : float) (a : list float) :
  length (cumsum_from acc a) = length a.
Proof. revert acc. induction a as [|x a IH]; intros acc; simpl; auto. Qed.

Lemma cumsum_from_step (acc : float) (a : list float) (i : nat) (c s : float) :
  (acc :: cumsum_from acc a) !! i = Some c → a !! i = Some s →
  cumsum_from acc a !! i = Some (c + s)%float.
Proof.
  revert acc i c. induction a as [|x a IH]; intros acc i c Hc Hs; [done|].
  destruct i as [|i]; simpl in *.
  - by injection Hc as <-; injection Hs as <-.
  - by apply IH.
Qed.

Lemma np_cumsum_running_sum (steps : list float) :
  running_sum steps (np_cumsum steps).
Proof.
  destruct steps as [|x steps]; [by repeat split|].
  repeat split; simpl.
  - f_equal. apply cumsum_from_length.
  - intros i c s Hc Hs. by apply cumsum_from_step.
Qed.

Lemma DataFrame_of_columns_spec (ts : list Z) (ids : list string)
    (xs ys vs : list float) (its : list string) :
  length ids = length ts → length xs = length ts → length ys = length ts →
  length vs = length ts → length its = length ts →
  let df := DataFrame_of_columns ts ids xs ys vs its in
  timestamp <$> df = ts ∧ turtle_id <$> df = ids ∧ x_position <$> df = xs ∧
  y_position <$> df = ys ∧ velocity <$> df = vs ∧ interaction_type <$> df = its.
Proof.
  revert ids xs ys vs its.
  induction ts as [|t ts IH]; intros [|i ids] [|x xs] [|y ys] [|v vs] [|it its];
    simpl; try done.
  intros [= H1] [= H2] [= H3] [= H4] [= H5].
  destruct (IH ids xs ys vs its H1 H2 H3 H4 H5) as (E1 & E2 & E3 & E4 & E5 & E6).
  repeat split; f_equal; assumption.
Qed.

Section WithRandomState.
Context {G : Type} `{RandomState G}.

Lemma draws_length {A : Type} (draw : G → A * G) (n : nat) (g : G) :
  length (fst (draws draw n g)) = n.
Proof.
  revert g. induction n as [|n IH]; intros g; simpl; [done|].
  destruct (draw g) as [v g']. specialize (IH g').
  destruct (draws draw n g') as [vs g'']. simpl in *. by rewrite IH.
Qed.

Lemma draws_Forall {A : Type} (P : A → Prop) (draw : G → A * G) (n : nat) (g : G) :
  (∀ g', P (fst (draw g'))) → Forall P (fst (draws draw n g)).
Proof.
  intros Hdraw. revert g. induction n as [|n IH]; intros g; simpl; [done|].
  pose proof (Hdraw g) as Hv. destruct (draw g) as [v g']. specialize (IH g').
  destruct (draws draw n g') as [vs g'']. simpl in *. by apply Forall_cons.
Qed.

Lemma draws_drawn {A : Type} (draw : G → A * G) (n : nat) (g g' : G) (vs : list A) :
  draws draw n g = (vs, g') → drawn draw n g vs g'.
Proof.
  revert g vs. induction n as [|n IH]; intros g vs; simpl.
  - intros [= <- <-]. constructor.
  - destruct (draw g) as [v g1] eqn:Ed.
    destruct (draws draw n g1) as [vs' g''] eqn:Es.
    intros [= <- <-]. econstructor; [exact Ed | by apply IH].
Qed.

Lemma generate_table (self : TurtleBehaviorAnalyzer) (g : G) :
  fst (_generate_synthetic_data self g) = with_tracking_data self synthetic_table.
Proof.
  unfold synthetic_table, _generate_synthetic_data.
  destruct (randn n_points (rk_seed 42)) as [zx gx].
  destruct (randn n_points gx) as [zy gy].
  destruct (choice _ n_points gy) as [ids gi].
  destruct (gamma 2 0.5 n_points gi) as [vel gv].
  destruct (choice _ n_points gv) as [its gt].
  reflexivity.
Qed.

(** The draws behind the table, in the order the generator makes them. *)
Lemma generate_columns (self : TurtleBehaviorAnalyzer) (g : G) :
  ∃ zx gx zy gy ids gi vel gv its gt,
    randn n_points (rk_seed 42) = (zx, gx) ∧
    randn n_points gx = (zy, gy) ∧
    choice ["turtle_a"; "turtle_b"] n_points gy = (ids, gi) ∧
    gamma 2 0.5 n_points gi = (vel, gv) ∧
    choice ["approach"; "avoid"; "neutral"] n_points gv = (its, gt) ∧
    _generate_synthetic_data self g =
      (with_tracking_data self
         (DataFrame_of_columns (date_range START_2024_01_01 n_points FREQ_1MIN)
            ids (walk zx) (walk zy) vel its), gt).
Proof.
  unfold _generate_synthetic_data.
  destruct (randn n_points (rk_seed 42)) as [zx gx] eqn:E1.
  destruct (randn n_points gx) as [zy gy] eqn:E2.
  destruct (choice _ n_points gy) as [ids gi] eqn:E3.
  destruct (gamma 2 0.5 n_points gi) as [vel gv] eqn:E4.
  destruct (choice _ n_points gv) as [its gt] eqn:E5.
  exists zx, gx, zy, gy, ids, gi, vel, gv, its, gt. repeat split; assumption.
Qed.

Lemma walk_length (z : list float) : length (walk z) = length z.
Proof.
  unfold walk. rewrite length_map.
  destruct (np_cumsum_running_sum (map (λ v, v * 0.5)%float z)) as [-> _].
  apply length_map.
Qed.

Lemma date_range_length (start : Z) (periods : nat) (freq : Z) :
  length (date_range start periods freq) = periods.
Proof. unfold date_range. by rewrite length_map, length_seq. Qed.

Lemma date_range_lookup (start : Z) (periods : nat) (freq : Z) (i : nat) :
  (i < periods)%nat →
  date_range start periods freq !! i = Some (start + Z.of_nat i * freq).
Proof.
  intros Hi. unfold date_range.
  change (map ?f ?l) with (f <$> l).
  by rewrite list_lookup_fmap, lookup_seq_lt.
Qed.

End WithRandomState.

End Synthetic.

(** * Sequences of calls *)

Module Reachability.

Section WithLibm.
Context `{Libm}.

Lemma invariant_init (sp du : string) : invariant [] (__init__ sp du).
Proof. repeat split; [by left | done | done]. Qed.

Lemma invariant_step (ops : list op) (self : TurtleBehaviorAnalyzer) (o : op) :
  invariant ops self → invariant (ops ++ [o]) (step self o).
Proof.
  intros (Hwhole & Hfrom & Hdata). destruct o as [df|]; unfold step.
  - repeat split; [done | |].
    + intros Hne. destruct (Hfrom Hne) as (df' & Hin & Ha & Hb).
      exists df'. rewrite elem_of_app. auto.
    + intros df' [= <-]. rewrite elem_of_app. right. left.
  - destruct (tracking_data self) as [df|] eqn:Hdf.
    2: { rewrite (Analysis.analyze_unloaded self Hdf). simpl.
         repeat split; [done | | by rewrite Hdf].
         intros Hne. destruct (Hfrom Hne) as (df' & Hin & Ha & Hb).
         exists df'. rewrite elem_of_app. auto. }
    destruct (select_turtle "turtle_a" df) as [|ra A] eqn:HA;
      [|destruct (select_turtle "turtle_b" df) as [|rb B] eqn:HB].
    1,2: rewrite (Analysis.analyze_noop self df) by auto; simpl;
         (repeat split; [done | | ]);
         [ intros Hne; destruct (Hfrom Hne) as (df' & Hin & Ha & Hb);
           exists df'; rewrite elem_of_app; auto
         | intros df' Hdf'; rewrite elem_of_app; left; apply Hdata; congruence ].
    destruct (Analysis.analyze_populates self df) as (m & Hm & ->);
      [by rewrite ?HA, ?HB..|]. simpl.
    repeat split.
    + right. by apply Analysis.dom_store_summary.
    + intros _. exists df. rewrite elem_of_app.
      split; [left; by apply Hdata|].
      split; apply Analysis.has_turtle_select; by rewrite ?HA, ?HB.
    + intros df' Hdf'. rewrite elem_of_app. left. apply Hdata.
      rewrite Analysis.store_summary_tracking_data in Hdf'. congruence.
Qed.

Lemma run_snoc (ops : list op) (o : op) (self : TurtleBehaviorAnalyzer) :
  run (ops ++ [o]) self = step (run ops self) o.
Proof. unfold run. by rewrite fold_left_app. Qed.

Lemma invariant_run (sp du : string) (ops : list op) :
  invariant ops (run ops (__init__ sp du)).
Proof.
  induction ops as [|o ops IH] using rev_ind.
  - apply invariant_init.
  - rewrite run_snoc. by apply invariant_step.
Qed.

Lemma two_subjects_of_both (df : DataFrame) :
  has_turtle "turtle_a" df → has_turtle "turtle_b" df → two_subjects df.
Proof.
  intros (ra & Hra & Ha) (rb & Hrb & Hb). exists ra, rb.
  split; [done|]. split; [done|]. by rewrite Ha, Hb.
Qed.

End WithLibm.

End Reachability.

(** * Sums, signs and NaN *)

Module SummationMore.

Lemma pairwise_sum_0 (a : list float) :
  pairwise_sum 0 a =
    if (length a <? 8)%nat then sum_seq (-0)%float a else block_sum a.
Proof.
  change (pairwise_sum 0 a) with
    (if (length a <? 8)%nat then sum_seq (-0)%float a
     else if (length a <=? PW_BLOCKSIZE)%nat then block_sum a else block_sum a).
  destruct (length a <? 8)%nat; [done|].
  by destruct (length a <=? PW_BLOCKSIZE)%nat.
Qed.

Lemma split_point_bounds (n : nat) :
  (PW_BLOCKSIZE < n)%nat → (0 < n / 2 - (n / 2) mod 8 < n)%nat.
Proof.
  unfold PW_BLOCKSIZE. intros Hn.
  pose proof (Nat.div_mod_eq n 2).
  pose proof (Nat.mod_upper_bound n 2 ltac:(lia)).
  pose proof (Nat.mod_upper_bound (n / 2) 8 ltac:(lia)).
  lia.
Qed.

Lemma sum_seq_neg_zero (x : float) (a : list float) :
  sum_seq (-0)%float (x :: a) = sum_seq x a.
Proof. unfold sum_seq. simpl. by rewrite FloatFacts.neg_zero_add. Qed.

(** A property kept by addition is kept by every sum. *)
Section Closed.
Variable P : float → Prop.
Hypothesis P_add : ∀ x y, P x → P y → P (x + y)%float.

Lemma sum_seq_closed (acc : float) (a : list float) :
  P acc → Forall P a → P (sum_seq acc a).
Proof.
  unfold sum_seq. revert acc.
  induction a as [|x a IH]; intros acc Hacc Ha; [done|].
  apply Forall_cons in Ha as [Hx Ha]. simpl. apply IH; auto.
Qed.

Lemma unrolled8_closed (n : nat) (a : list float) (r : acc8) :
  (length a ≤ n)%nat → acc8_all P r → Forall P a →
  acc8_all P (fst (unrolled8 r a)) ∧ Forall P (snd (unrolled8 r a)).
Proof.
  revert a r. induction n as [|n IH]; intros a r Hlen Hr Ha.
  { destruct a; [done | simpl in Hlen; lia]. }
  destruct a as [|a0 [|a1 [|a2 [|a3 [|a4 [|a5 [|a6 [|a7 rest]]]]]]]]; try done.
  repeat (apply Forall_cons in Ha as [? Ha]).
  destruct Hr as (? & ? & ? & ? & ? & ? & ? & ?).
  change (unrolled8 r (a0 :: a1 :: a2 :: a3 :: a4 :: a5 :: a6 :: a7 :: rest))
    with (unrolled8 (Acc8 (r0 r + a0) (r1 r + a1) (r2 r + a2) (r3 r + a3)
                          (r4 r + a4) (r5 r + a5) (r6 r + a6) (r7 r + a7))%float rest).
  apply IH; [simpl in Hlen; lia | | done].
  repeat split; simpl; auto.
Qed.

Lemma block_sum_closed (a : list float) : a ≠ [] → Forall P a → P (block_sum a).
Proof.
  intros Hne Ha. unfold block_sum.
  destruct a as [|a0 [|a1 [|a2 [|a3 [|a4 [|a5 [|a6 [|a7 rest]]]]]]]]; try done;
    try (rewrite sum_seq_neg_zero; apply Forall_cons in Ha as [? Ha];
         by apply sum_seq_closed).
  repeat (apply Forall_cons in Ha as [? Ha]).
  destruct (unrolled8_closed (length rest) rest (Acc8 a0 a1 a2 a3 a4 a5 a6 a7))
    as [(? & ? & ? & ? & ? & ? & ? & ?) Htail]; [lia | by repeat split | done |].
  destruct (unrolled8 _ rest) as [r tail]. simpl in *.
  apply sum_seq_closed; auto 10.
Qed.

Lemma pairwise_sum_closed (fuel : nat) (a : list float) :
  a ≠ [] → Forall P a → P (pairwise_sum fuel a).
Proof.
  revert a. induction fuel as [|fuel IH]; intros a Hne Ha.
  - rewrite pairwise_sum_0. destruct (_ <? _)%nat; [|by apply block_sum_closed].
    destruct a as [|x a]; [done|]. rewrite sum_seq_neg_zero.
    apply Forall_cons in Ha as [? Ha]. by apply sum_seq_closed.
  - rewrite Summation.pairwise_sum_S.
    destruct (Nat.ltb_spec (length a) 8).
    { destruct a as [|x a]; [done|]. rewrite sum_seq_neg_zero.
      apply Forall_cons in Ha as [? Ha]. by apply sum_seq_closed. }
    destruct (Nat.leb_spec (length a) PW_BLOCKSIZE); [by apply block_sum_closed|].
    pose proof (split_point_bounds (length a) ltac:(done)) as Hn2.
    apply P_add; apply IH; auto using Forall_take, Forall_drop.
    + intros E. apply (f_equal length) in E. rewrite length_take in E.
      change (length (@nil float)) with 0%nat in E. lia.
    + intros E. apply (f_equal length) in E. rewrite length_drop in E.
      change (length (@nil float)) with 0%nat in E. lia.
Qed.

End Closed.

(** A property that one term passes to a sum is passed to every sum
    with such a term. *)
Section Absorbing.
Variable Q : float → Prop.
Hypothesis Q_l : ∀ x y, Q x → Q (x + y)%float.
Hypothesis Q_r : ∀ x y, Q y → Q (x + y)%float.

Lemma sum_seq_absorbing (acc : float) (a : list float) :
  Q acc ∨ Exists Q a → Q (sum_seq acc a).
Proof.
  unfold sum_seq. revert acc.
  induction a as [|x a IH]; intros acc [Hacc | Ha]; simpl.
  - done.
  - by apply Exists_nil in Ha.
  - apply IH. left. by apply Q_l.
  - apply Exists_cons in Ha as [Hx | Ha]; apply IH; [left; by apply Q_r | by right].
Qed.

Lemma unrolled8_absorbing (n : nat) (a : list float) (r : acc8) :
  (length a ≤ n)%nat → acc8_any Q r ∨ Exists Q a →
  acc8_any Q (fst (unrolled8 r a)) ∨ Exists Q (snd (unrolled8 r a)).
Proof.
  revert a r. induction n as [|n IH]; intros a r Hlen H.
  { destruct a; [done | simpl in Hlen; lia]. }
  destruct a as [|a0 [|a1 [|a2 [|a3 [|a4 [|a5 [|a6 [|a7 rest]]]]]]]]; try done.
  change (unrolled8 r (a0 :: a1 :: a2 :: a3 :: a4 :: a5 :: a6 :: a7 :: rest))
    with (unrolled8 (Acc8 (r0 r + a0) (r1 r + a1) (r2 r + a2) (r3 r + a3)
                          (r4 r + a4) (r5 r + a5) (r6 r + a6) (r7 r + a7))%float rest).
  apply IH; [simpl in Hlen; lia|].
  rewrite !Exists_cons in H. unfold acc8_any in *. simpl.
  destruct H as [H | H].
  - left. decompose [or] H; auto 10.
  - decompose [or] H; auto 10.
Qed.

Lemma block_sum_absorbing (a : list float) : Exists Q a → Q (block_sum a).
Proof.
  intros Ha. unfold block_sum.
  destruct a as [|a0 [|a1 [|a2 [|a3 [|a4 [|a5 [|a6 [|a7 rest]]]]]]]];
    try (by apply Exists_nil in Ha);
    try (rewrite sum_seq_neg_zero; apply sum_seq_absorbing;
         by apply Exists_cons in Ha).
  pose proof (unrolled8_absorbing (length rest) rest (Acc8 a0 a1 a2 a3 a4 a5 a6 a7)
                ltac:(lia)) as Hr.
  destruct (unrolled8 _ rest) as [r tail]. simpl in Hr.
  apply sum_seq_absorbing.
  rewrite !Exists_cons in Ha. unfold acc8_any in Hr. simpl in Hr.
  destruct Hr as [Hr | Hr]; [decompose [or] Ha; auto 10 | | by right].
  left. decompose [or] Hr; auto 10.
Qed.

Lemma pairwise_sum_absorbing (fuel : nat) (a : list float) :
  Exists Q a → Q (pairwise_sum fuel a).
Proof.
  revert a. induction fuel as [|fuel IH]; intros a Ha.
  - rewrite pairwise_sum_0. destruct (_ <? _)%nat; [|by apply block_sum_absorbing].
    by apply sum_seq_absorbing; right.
  - rewrite Summation.pairwise_sum_S.
    destruct (_ <? _)%nat; [by apply sum_seq_absorbing; right|].
    destruct (_ <=? _)%nat; [by apply block_sum_absorbing|].
    rewrite <- (take_drop (length a / 2 - (length a / 2) mod 8) a) in Ha at 1.
    apply Exists_app in Ha as [Ha | Ha]; [apply Q_l | apply Q_r]; by apply IH.
Qed.

End Absorbing.

(** *** Every sum adds each number once *)

Lemma float_sum_snoc (l : list float) (s x : float) :
  float_sum l s → float_sum (l ++ [x]) (s + x)%float.
Proof. intros Hs. apply float_sum_add; [done | constructor]. Qed.

Lemma sum_seq_float_sum (l a : list float) (acc : float) :
  float_sum l acc → float_sum (l ++ a) (sum_seq acc a).
Proof.
  unfold sum_seq. revert l acc.
  induction a as [|x a IH]; intros l acc Hl; simpl.
  - by rewrite app_nil_r.
  - rewrite cons_middle, app_assoc. by apply IH, float_sum_snoc.
Qed.

Lemma unrolled8_float_sum (n : nat) (a : list float) (r : acc8) (L : list float) :
  (length a ≤ n)%nat → acc8_sums r L →
  ∃ L', acc8_sums (fst (unrolled8 r a)) L' ∧ L ++ a ≡ₚ L' ++ snd (unrolled8 r a).
Proof.
  revert a r L. induction n as [|n IH]; intros a r L Hlen Hr.
  { destruct a; [|simpl in Hlen; lia]. exists L. by rewrite !app_nil_r. }
  destruct a as [|a0 [|a1 [|a2 [|a3 [|a4 [|a5 [|a6 [|a7 rest]]]]]]]];
    try (by exists L).
  change (unrolled8 r (a0 :: a1 :: a2 :: a3 :: a4 :: a5 :: a6 :: a7 :: rest))
    with (unrolled8 (Acc8 (r0 r + a0) (r1 r + a1) (r2 r + a2) (r3 r + a3)
                          (r4 r + a4) (r5 r + a5) (r6 r + a6) (r7 r + a7))%float rest).
  destruct Hr as (l0 & l1 & l2 & l3 & l4 & l5 & l6 & l7 &
                  H0 & H1 & H2 & H3 & H4 & H5 & H6 & H7 & HL).
  destruct (IH rest (Acc8 (r0 r + a0) (r1 r + a1) (r2 r + a2) (r3 r + a3)
                          (r4 r + a4) (r5 r + a5) (r6 r + a6) (r7 r + a7))%float
               (L ++ [a0; a1; a2; a3; a4; a5; a6; a7]))
    as (L' & HL' & Hperm); [simpl in Hlen; lia | |].
  { exists (l0 ++ [a0]), (l1 ++ [a1]), (l2 ++ [a2]), (l3 ++ [a3]),
           (l4 ++ [a4]), (l5 ++ [a5]), (l6 ++ [a6]), (l7 ++ [a7]). simpl.
    repeat (split; [by apply float_sum_snoc|]).
    rewrite HL. solve_Permutation. }
  exists L'. split; [done|]. rewrite <- Hperm. by rewrite <- app_assoc.
Qed.

Lemma sum_seq_neg_zero_float_sum (a : list float) :
  float_sum a (sum_seq (-0)%float a).
Proof. apply (sum_seq_float_sum [] a), float_sum_neg_zero. Qed.

Lemma block_sum_float_sum (a : list float) : float_sum a (block_sum a).
Proof.
  unfold block_sum.
  destruct a as [|a0 [|a1 [|a2 [|a3 [|a4 [|a5 [|a6 [|a7 rest]]]]]]]];
    try apply sum_seq_neg_zero_float_sum.
  destruct (unrolled8_float_sum (length rest) rest (Acc8 a0 a1 a2 a3 a4 a5 a6 a7)
              [a0; a1; a2; a3; a4; a5; a6; a7])
    as (L' & HL' & Hperm); [lia | |].
  { exists [a0], [a1], [a2], [a3], [a4], [a5], [a6], [a7]. simpl.
    repeat (split; [constructor|]). done. }
  destruct (unrolled8 _ rest) as [r tail]. simpl in *.
  destruct HL' as (l0 & l1 & l2 & l3 & l4 & l5 & l6 & l7 &
                   H0 & H1 & H2 & H3 & H4 & H5 & H6 & H7 & HL).
  apply (float_sum_perm (L' ++ tail)); [by symmetry|].
  apply sum_seq_float_sum.
  apply (float_sum_perm ((((l0 ++ l1) ++ (l2 ++ l3)) ++ ((l4 ++ l5) ++ (l6 ++ l7)))));
    [rewrite HL; solve_Permutation|].
  repeat apply float_sum_add; done.
Qed.

Lemma pairwise_sum_float_sum (fuel : nat) (a : list float) :
  float_sum a (pairwise_sum fuel a).
Proof.
  revert a. induction fuel as [|fuel IH]; intros a.
  - rewrite pairwise_sum_0.
    destruct (_ <? _)%nat; [apply sum_seq_neg_zero_float_sum | apply block_sum_float_sum].
  - rewrite Summation.pairwise_sum_S.
    destruct (_ <? _)%nat; [apply sum_seq_neg_zero_float_sum|].
    destruct (_ <=? _)%nat; [apply block_sum_float_sum|].
    rewrite <- (take_drop (length a / 2 - (length a / 2) mod 8) a) at 1.
    by apply float_sum_add.
Qed.

Lemma np_sum_float_sum (a : list float) : float_sum a (np_sum a).
Proof.
  unfold np_sum. apply (float_sum_add [] a); [constructor | apply pairwise_sum_float_sum].
Qed.

End SummationMore.

Module FloatMore.

Section WithLibm.
Context `{Libm}.

Lemma nan_Prim2SF (x : float) : x = nan ↔ Prim2SF x = S754_nan.
Proof.
  split; [by intros -> |]. intros Hx. apply Prim2SF_inj. by rewrite Hx.
Qed.

Lemma isnan_true (x : float) : isnan x = true ↔ x = nan.
Proof.
  rewrite nan_Prim2SF. split.
  - intros Hx. destruct (FloatFacts.nan_dec (Prim2SF x)) as [|Hne]; [done|].
    apply FloatFacts.isnan_false in Hne. congruence.
  - intros Hx. destruct (isnan x) eqn:E; [done|].
    by apply FloatFacts.isnan_false in E.
Qed.

Lemma nan_or_not (x : float) : x = nan ∨ isnan x = false.
Proof. destruct (isnan x) eqn:E; [left; by apply isnan_true | by right]. Qed.

(** *** Signs, continued *)

Lemma nonneg_leb (x : float) :
  nonneg (Prim2SF x) → isnan x = false → (0 <=? x)%float = true.
Proof.
  intros Hs Hn. apply FloatFacts.isnan_false in Hn. apply FloatFacts.leb_key.
  split; [done|]. split; [done|].
  change (Prim2SF 0%float) with (S754_zero false).
  destruct (Prim2SF x) as [s|s| |s m e]; simpl in Hs; subst; done.
Qed.

Lemma div_nonneg (x y : float) :
  nonneg (Prim2SF x) → nonneg (Prim2SF y) → nonneg (Prim2SF (x / y)).
Proof.
  rewrite FloatAxioms.div_spec. unfold SF64div, SFdiv.
  destruct (Prim2SF x) as [s|s| |s m e], (Prim2SF y) as [s'|s'| |s' m' e'];
    simpl; intros H1 H2; subst; try done.
  destruct (SFdiv_core_binary _ _ _ _ _ _) as [[mz ez] lz].
  by apply FloatFacts.binary_round_aux_sign.
Qed.

Lemma float_of_nat_nonneg (n : nat) : nonneg (Prim2SF (float_of_nat n)).
Proof.
  unfold float_of_nat. rewrite FloatAxioms.of_uint63_spec.
  pose proof (Uint63.to_Z_bounded (Uint63.of_Z (Z.of_nat n))) as [Hlo _].
  destruct (Uint63.to_Z _) as [|p|p]; [done | | lia].
  unfold binary_normalize, binary_round.
  destruct (shl_align _ _ _). by apply FloatFacts.binary_round_aux_sign.
Qed.

Lemma np_sum_nonneg (a : list float) :
  Forall (λ d, nonneg (Prim2SF d)) a → nonneg (Prim2SF (np_sum a)).
Proof.
  intros Ha. unfold np_sum. destruct a as [|x a]; [done|].
  apply FloatFacts.add_nonneg; [done|].
  apply (SummationMore.pairwise_sum_closed (λ d, nonneg (Prim2SF d)));
    [apply FloatFacts.add_nonneg | done | done].
Qed.

Lemma np_mean_nonneg (a : list float) :
  Forall (λ d, nonneg (Prim2SF d)) a → nonneg (Prim2SF (np_mean a)).
Proof.
  intros Ha. unfold np_mean.
  apply div_nonneg; [by apply np_sum_nonneg | apply float_of_nat_nonneg].
Qed.

Lemma fold_minimum_elem (rest : list float) (x : float) :
  fold_left minimum rest x ∈ x :: rest.
Proof.
  revert x. induction rest as [|y rest IH]; intros x; simpl; [left|].
  specialize (IH (minimum x y)).
  apply elem_of_cons in IH as [-> | IH]; [|right; by right].
  destruct (FloatFacts.minimum_cases x y) as [-> | ->]; [left | right; left].
Qed.

(** [np.min] returns one of the elements. *)
Lemma np_min_elem (a : list float) (m : float) : np_min a = Some m → m ∈ a.
Proof.
  destruct a as [|x rest]; [done|]. intros [= <-]. apply fold_minimum_elem.
Qed.

Lemma aligned_distances_nonneg (df : DataFrame) :
  Forall (λ d, nonneg (Prim2SF d)) (aligned_distances df).
Proof.
  unfold aligned_distances.
  generalize (select_turtle "turtle_b" df).
  induction (select_turtle "turtle_a" df) as [|ra A IH]; intros [|rb B]; simpl;
    try constructor; [apply FloatFacts.row_distance_nonneg | apply IH].
Qed.

(** *** NaN *)

Lemma add_nan_l (y : float) : (nan + y)%float = nan.
Proof. apply Prim2SF_inj. rewrite FloatAxioms.add_spec. reflexivity. Qed.

Lemma add_nan_r (x : float) : (x + nan)%float = nan.
Proof.
  apply Prim2SF_inj. rewrite FloatAxioms.add_spec.
  change (Prim2SF nan) with S754_nan. by destruct (Prim2SF x).
Qed.

Lemma sub_nan_l (y : float) : (nan - y)%float = nan.
Proof. apply Prim2SF_inj. rewrite FloatAxioms.sub_spec. reflexivity. Qed.

Lemma sub_nan_r (x : float) : (x - nan)%float = nan.
Proof.
  apply Prim2SF_inj. rewrite FloatAxioms.sub_spec.
  change (Prim2SF nan) with S754_nan. by destruct (Prim2SF x).
Qed.

Lemma div_nan_l (y : float) : (nan / y)%float = nan.
Proof. apply Prim2SF_inj. rewrite FloatAxioms.div_spec. reflexivity. Qed.

Lemma np_sum_nan (a : list float) : nan ∈ a → np_sum a = nan.
Proof.
  intros Ha. unfold np_sum.
  rewrite (SummationMore.pairwise_sum_absorbing (λ d, d = nan)).
  - apply add_nan_r.
  - intros x y ->. apply add_nan_l.
  - intros x y ->. apply add_nan_r.
  - apply Exists_exists. by exists nan.
Qed.

Lemma np_mean_nan (a : list float) : nan ∈ a → np_mean a = nan.
Proof. intros Ha. unfold np_mean. rewrite np_sum_nan by done. apply div_nan_l. Qed.

Lemma minimum_nan_l (y : float) : minimum nan y = nan.
Proof. unfold minimum. by rewrite orb_true_r. Qed.

Lemma minimum_nan_r (x : float) : minimum x nan = nan.
Proof.
  unfold minimum. destruct (nan_or_not x) as [-> | Hx]; [done|].
  rewrite Hx, orb_false_r.
  destruct (x <? nan)%float eqn:E; [|done].
  apply FloatFacts.ltb_key in E as (_ & E & _). done.
Qed.

Lemma fold_minimum_nan (rest : list float) (x : float) :
  x = nan ∨ nan ∈ rest → fold_left minimum rest x = nan.
Proof.
  revert x. induction rest as [|y rest IH]; intros x [Hx | Hin]; simpl.
  - done.
  - by apply not_elem_of_nil in Hin.
  - apply IH. left. subst x. apply minimum_nan_l.
  - apply elem_of_cons in Hin as [<- | Hin]; apply IH;
      [left; apply minimum_nan_r | by right].
Qed.

Lemma np_min_nan (a : list float) : nan ∈ a → np_min a = Some nan.
Proof.
  destruct a as [|x rest]; [by intros ?%not_elem_of_nil|].
  intros Hin. simpl. f_equal. apply fold_minimum_nan.
  apply elem_of_cons in Hin as [<- | Hin]; auto.
Qed.

Lemma row_distance_nan (ra rb : Sample) :
  x_position ra = nan ∨ y_position ra = nan ∨
  x_position rb = nan ∨ y_position rb = nan →
  row_distance ra rb = nan.
Proof.
  unfold row_distance, square, np_sqrt.
  intros [H0 | [H0 | [H0 | H0]]]; rewrite H0;
    rewrite ?sub_nan_l, ?sub_nan_r;
    rewrite (pow2_exact nan) by reflexivity;
    change (nan * nan)%float with nan;
    rewrite ?add_nan_l, ?add_nan_r; reflexivity.
Qed.

(** *** Exchanging the operands of a difference *)

Lemma binary_round_aux_abs (s s' : bool) m e l :
  SFabs (binary_round_aux prec emax s m e l) =
    SFabs (binary_round_aux prec emax s' m e l).
Proof.
  unfold binary_round_aux.
  destruct (shr_fexp prec emax m e l) as [mrs' e'].
  destruct (shr_fexp prec emax _ e' loc_Exact) as [mrs'' e''].
  destruct (shr_m mrs''); simpl; try done.
  by destruct (e'' <=? emax - prec).
Qed.

Lemma binary_normalize_opp_abs (n e : Z) :
  SFabs (binary_normalize prec emax (- n) e false) =
    SFabs (binary_normalize prec emax n e false).
Proof.
  destruct n as [|p|p]; simpl; try done; unfold binary_round;
    destruct (shl_align _ _ _); apply binary_round_aux_abs.
Qed.

Lemma SFsub_swap_abs (x y : spec_float) :
  SFabs (SFsub prec emax y x) = SFabs (SFsub prec emax x y).
Proof.
  destruct x as [sx|sx| |sx mx ex], y as [sy|sy| |sy my ey]; simpl; try done;
    try (by destruct sx, sy).
  rewrite (Z.min_comm ey ex).
  rewrite <- binary_normalize_opp_abs. f_equal. f_equal. lia.
Qed.

Lemma square_sub_swap (x y : float) : square (y - x) = square (x - y).
Proof.
  unfold square. apply pow2_even, Prim2SF_inj.
  rewrite !FloatAxioms.abs_spec, !FloatAxioms.sub_spec.
  apply SFsub_swap_abs.
Qed.

Lemma row_distance_swap (ra rb : Sample) : row_distance rb ra = row_distance ra rb.
Proof.
  unfold row_distance.
  by rewrite (square_sub_swap (x_position ra)), (square_sub_swap (y_position ra)).
Qed.

End WithLibm.

End FloatMore.

(** * The movement analysis, continued *)

Module AnalysisMore.

Section WithLibm.
Context `{Libm}.

(** The outcome and the stored summary are fixed by which series are
    empty and by the distances of the aligned pairs. *)
Lemma analyze_by_distances (self : TurtleBehaviorAnalyzer) (df df' : DataFrame) :
  (select_turtle "turtle_a" df' = [] ↔ select_turtle "turtle_a" df = []) →
  (select_turtle "turtle_b" df' = [] ↔ select_turtle "turtle_b" df = []) →
  aligned_distances df' = aligned_distances df →
  analysis_results (fst (analyze_movement_patterns (load df' self))) =
    analysis_results (fst (analyze_movement_patterns (load df self))) ∧
  snd (analyze_movement_patterns (load df' self)) =
    snd (analyze_movement_patterns (load df self)).
Proof.
  intros Ha Hb Hd.
  destruct (decide (select_turtle "turtle_a" df = [])) as [HA|HA].
  { rewrite (Analysis.analyze_noop (load df self) df) by auto.
    rewrite (Analysis.analyze_noop (load df' self) df'); [done..|].
    left. by apply Ha. }
  destruct (decide (select_turtle "turtle_b" df = [])) as [HB|HB].
  { rewrite (Analysis.analyze_noop (load df self) df) by auto.
    rewrite (Analysis.analyze_noop (load df' self) df'); [done..|].
    right. by apply Hb. }
  destruct (Analysis.analyze_populates (load df self) df eq_refl HA HB) as (m & Hm & ->).
  destruct (Analysis.analyze_populates (load df' self) df' eq_refl) as (m' & Hm' & ->).
  { by rewrite Ha. } { by rewrite Hb. }
  rewrite Hd in Hm' |- *. assert (m' = m) as -> by congruence. done.
Qed.

Lemma analyze_loaded_returns (self : TurtleBehaviorAnalyzer) (df : DataFrame) :
  tracking_data self = Some df → snd (analyze_movement_patterns self) = None.
Proof.
  intros Hdf.
  destruct (decide (select_turtle "turtle_a" df = [])) as [HA|HA].
  { by rewrite (Analysis.analyze_noop self df) by auto. }
  destruct (decide (select_turtle "turtle_b" df = [])) as [HB|HB].
  { by rewrite (Analysis.analyze_noop self df) by auto. }
  by destruct (Analysis.analyze_populates self df Hdf HA HB) as (m & Hm & ->).
Qed.

Lemma select_turtle_nil_has (id : string) (df : DataFrame) :
  select_turtle id df = [] ↔ ¬ has_turtle id df.
Proof.
  split.
  - intros Hnil (r & Hin & Hid).
    assert (r ∈ select_turtle id df) as Hr.
    { unfold select_turtle. apply list_elem_of_filter. done. }
    rewrite Hnil in Hr. by apply not_elem_of_nil in Hr.
  - intros Hno. destruct (select_turtle id df) as [|r l] eqn:E; [done|].
    exfalso. apply Hno. apply Analysis.has_turtle_select. by rewrite E.
Qed.

Lemma same_positions_select (id : string) (df df' : DataFrame) :
  same_positions df df' →
  same_positions (select_turtle id df) (select_turtle id df').
Proof.
  unfold same_positions, select_turtle.
  induction 1 as [|r r' df df' (Hid & Hx & Hy) _ IH]; [constructor|].
  rewrite !filter_cons. rewrite <- Hid.
  destruct (decide (turtle_id r = id)); [|done].
  by constructor.
Qed.

Lemma same_positions_distances (A A' B B' : DataFrame) :
  same_positions A A' → same_positions B B' →
  zip_with row_distance A B = zip_with row_distance A' B'.
Proof.
  intros HA. revert B B'.
  induction HA as [|ra ra' A A' (_ & Hx & Hy) _ IH]; intros B B' HB; [done|].
  destruct HB as [|rb rb' B B' (_ & Hx' & Hy') HB]; [done|]. simpl.
  f_equal; [|by apply IH].
  unfold row_distance. by rewrite Hx, Hy, Hx', Hy'.
Qed.

Lemma analyze_keeps_table (self : TurtleBehaviorAnalyzer) (df : DataFrame) :
  tracking_data self = Some df →
  tracking_data (fst (analyze_movement_patterns self)) = Some df.
Proof.
  intros Hdf.
  destruct (decide (select_turtle "turtle_a" df = [])) as [HA|HA].
  { by rewrite (Analysis.analyze_noop self df) by auto. }
  destruct (decide (select_turtle "turtle_b" df = [])) as [HB|HB].
  { by rewrite (Analysis.analyze_noop self df) by auto. }
  by destruct (Analysis.analyze_populates self df Hdf HA HB) as (m & Hm & ->).
Qed.

Lemma new_analyzer_populated_iff (sp du : string) (df : DataFrame) :
  analysis_results (fst (analyze_movement_patterns (load df (__init__ sp du)))) ≠ ∅ ↔
    has_turtle "turtle_a" df ∧ has_turtle "turtle_b" df.
Proof.
  destruct (decide (select_turtle "turtle_a" df = [])) as [HA|HA].
  { rewrite (Analysis.analyze_noop (load df (__init__ sp du)) df) by auto. simpl.
    split; [done|]. intros [Ha _]. by apply select_turtle_nil_has in HA. }
  destruct (decide (select_turtle "turtle_b" df = [])) as [HB|HB].
  { rewrite (Analysis.analyze_noop (load df (__init__ sp du)) df) by auto. simpl.
    split; [done|]. intros [_ Hb]. by apply select_turtle_nil_has in HB. }
  destruct (Analysis.analyze_populates (load df (__init__ sp du)) df eq_refl HA HB)
    as (m & Hm & ->). simpl fst.
  assert (Hdom : dom (analysis_results
                        (store_summary (load df (__init__ sp du)) (aligned_distances df) m))
                 = summary_keys) by (apply Analysis.dom_store_summary; by left).
  split.
  - intros _. split; by apply Analysis.has_turtle_select.
  - intros _ Hempty. rewrite Hempty, dom_empty_L in Hdom.
    unfold summary_keys in Hdom. set_solver.
Qed.

Lemma new_analyzer_whole_or_empty (sp du : string) (df : DataFrame) :
  let self := fst (analyze_movement_patterns (load df (__init__ sp du))) in
  analysis_results self = ∅ ∨ dom (analysis_results self) = summary_keys.
Proof.
  intros self. subst self.
  destruct (decide (select_turtle "turtle_a" df = [])) as [HA|HA].
  { rewrite (Analysis.analyze_noop (load df (__init__ sp du)) df) by auto. by left. }
  destruct (decide (select_turtle "turtle_b" df = [])) as [HB|HB].
  { rewrite (Analysis.analyze_noop (load df (__init__ sp du)) df) by auto. by left. }
  destruct (Analysis.analyze_populates (load df (__init__ sp du)) df eq_refl HA HB)
    as (m & Hm & ->). right. apply Analysis.dom_store_summary. by left.
Qed.

End WithLibm.

End AnalysisMore.

Module AnalysisFloat.

Section WithLibm.
Context `{Libm}.

Lemma select_swap_a (df : DataFrame) :
  select_turtle "turtle_a" (swap_label <$> df) = swap_label <$> select_turtle "turtle_b" df.
Proof.
  unfold select_turtle. induction df as [|r df IH]; [done|].
  rewrite fmap_cons, !filter_cons, IH. unfold swap_label at 1. simpl.
  repeat case_decide; simplify_eq; try done; congruence.
Qed.

Lemma select_swap_b (df : DataFrame) :
  select_turtle "turtle_b" (swap_label <$> df) = swap_label <$> select_turtle "turtle_a" df.
Proof.
  unfold select_turtle. induction df as [|r df IH]; [done|].
  rewrite fmap_cons, !filter_cons, IH. unfold swap_label at 1. simpl.
  repeat case_decide; simplify_eq; try done; congruence.
Qed.

Lemma aligned_distances_swap (df : DataFrame) :
  aligned_distances (swap_label <$> df) = aligned_distances df.
Proof.
  unfold aligned_distances. rewrite select_swap_a, select_swap_b.
  generalize (select_turtle "turtle_b" df).
  induction (select_turtle "turtle_a" df) as [|ra A IH]; intros [|rb B]; simpl; try done.
  f_equal; [|apply IH].
  rewrite FloatMore.row_distance_swap. reflexivity.
Qed.

(** A NaN distance is not below the threshold. *)
Lemma filter_proximity_not_nan (ds : list float) :
  List.filter proximity_event (List.filter (λ d, negb (isnan d)) ds) =
    List.filter proximity_event ds.
Proof.
  induction ds as [|d ds IH]; [done|]. simpl.
  destruct (FloatMore.nan_or_not d) as [-> | Hd].
  - change (isnan nan) with true. change (proximity_event nan) with false. done.
  - rewrite Hd. simpl. by rewrite IH.
Qed.

End WithLibm.

End AnalysisFloat.

Module ReachabilityMore.

Section WithLibm.
Context `{Libm}.

Lemma lookup_outside_summary (m : gmap string value) (key : string) :
  m = ∅ ∨ dom m = summary_keys → key ∉ summary_keys → m !! key = None.
Proof.
  intros [-> | Hdom] Hkey; [apply lookup_empty|].
  apply not_elem_of_dom. by rewrite Hdom.
Qed.

Lemma store_summary_over (self1 self2 : TurtleBehaviorAnalyzer) ds m :
  analysis_results self1 = ∅ ∨ dom (analysis_results self1) = summary_keys →
  analysis_results self2 = ∅ ∨ dom (analysis_results self2) = summary_keys →
  analysis_results (store_summary self1 ds m) = analysis_results (store_summary self2 ds m).
Proof.
  intros H1 H2. unfold store_summary, with_result. simpl.
  apply map_eq. intros key. rewrite !lookup_insert.
  repeat case_decide; try done.
  assert (key ∉ summary_keys).
  { unfold summary_keys. rewrite !elem_of_union, !elem_of_singleton.
    intros [[?|?]|?]; congruence. }
  by rewrite !lookup_outside_summary.
Qed.

End WithLibm.

End ReachabilityMore.

(** * Plots and the synthetic table, continued *)

Module Plots.












End Plots.

Module SyntheticMore.
Section WithRandomState.
Context {G : Type} `{RandomState G}.

Lemma generate_tracking_data (self : TurtleBehaviorAnalyzer) (g : G) :
  tracking_data (fst (_generate_synthetic_data self g)) = Some synthetic_table.
Proof. by rewrite Synthetic.generate_table. Qed.

Lemma generate_analysis_results (self : TurtleBehaviorAnalyzer) (g : G) :
  analysis_results (fst (_generate_synthetic_data self g)) = analysis_results self.
Proof. by rewrite Synthetic.generate_table. Qed.

Lemma choice_Forall (a : list string) (n : nat) (g : G) :
  a ≠ [] →
  (∀ m g', (0 < m)%nat → (fst (rk_below m g') < m)%nat) →
  Forall (λ s, s ∈ a) (fst (choice a n g)).
Proof.
  intros Ha Hbelow. unfold choice. apply Synthetic.draws_Forall. intros g'.
  assert (Hlen : (0 < length a)%nat) by (destruct a; [done | simpl; lia]).
  specialize (Hbelow (length a) g' Hlen).
  destruct (rk_below (length a) g') as [i g'']. simpl in *.
  rewrite nth_lookup.
  destruct (lookup_lt_is_Some_2 a i Hbelow) as [s Hs]. rewrite Hs. simpl.
  by apply list_elem_of_lookup_2 in Hs.
Qed.

End WithRandomState.
End SyntheticMore.

(** * Rounding: what a sum and a mean keep of the exact values *)

Module Rounding.

Lemma digits2_pos_bounds (m : positive) :
  2 ^ (Zpos (digits2_pos m) - 1) ≤ Zpos m < 2 ^ Zpos (digits2_pos m).
Proof.
  induction m as [m IH|m IH|]; simpl digits2_pos; [| |by compute].
  - rewrite Pos2Z.inj_succ. replace (Z.succ (Zpos (digits2_pos m)) - 1)
      with (Z.succ (Zpos (digits2_pos m) - 1)) by lia.
    rewrite !Z.pow_succ_r by lia. lia.
  - rewrite Pos2Z.inj_succ. replace (Z.succ (Zpos (digits2_pos m)) - 1)
      with (Z.succ (Zpos (digits2_pos m) - 1)) by lia.
    rewrite !Z.pow_succ_r by lia. lia.
Qed.

Lemma Zdigits2_bounds (m : Z) :
  0 < m → 2 ^ (Zdigits2 m - 1) ≤ m < 2 ^ Zdigits2 m.
Proof. destruct m as [|p|p]; try lia. intros _. apply digits2_pos_bounds. Qed.

Lemma Zdigits2_pos (m : Z) : 0 < m → 0 < Zdigits2 m.
Proof. destruct m; simpl; lia. Qed.

Lemma Zdigits2_unique (m d : Z) : 2 ^ (d - 1) ≤ m < 2 ^ d → 0 < m → Zdigits2 m = d.
Proof.
  intros [Hlo Hhi] Hm. pose proof (Zdigits2_bounds m Hm) as [Hlo' Hhi'].
  pose proof (Zdigits2_pos m Hm).
  assert (0 < d).
  { destruct (Z.ltb_spec 0 d); [done|]. exfalso.
    destruct (Z.eqb_spec d 0) as [->|]; [simpl in Hhi; lia|].
    rewrite Z.pow_neg_r in Hhi by lia. lia. }
  destruct (Z.lt_trichotomy (Zdigits2 m) d) as [Hlt | [Heq | Hgt]]; [|done|].
  - assert (2 ^ Zdigits2 m ≤ 2 ^ (d - 1)) by (apply Z.pow_le_mono_r; lia). lia.
  - assert (2 ^ d ≤ 2 ^ (Zdigits2 m - 1)) by (apply Z.pow_le_mono_r; lia). lia.
Qed.

Lemma Zdigits2_div_pow2 (m n : Z) :
  0 < m → 0 ≤ n < Zdigits2 m → Zdigits2 (m / 2 ^ n) = Zdigits2 m - n.
Proof.
  intros Hm Hn. pose proof (Zdigits2_bounds m Hm) as [Hlo Hhi].
  assert (Hp : 0 < 2 ^ n) by (apply Z.pow_pos_nonneg; lia).
  assert (Hlo' : 2 ^ (Zdigits2 m - n - 1) ≤ m / 2 ^ n).
  { apply Z.div_le_lower_bound; [done|].
    rewrite <- Z.pow_add_r by lia. by replace (n + (Zdigits2 m - n - 1)) with (Zdigits2 m - 1) by lia. }
  assert (Hhi' : m / 2 ^ n < 2 ^ (Zdigits2 m - n)).
  { apply Z.div_lt_upper_bound; [done|].
    rewrite <- Z.pow_add_r by lia. by replace (n + (Zdigits2 m - n)) with (Zdigits2 m) by lia. }
  apply Zdigits2_unique; [done|].
  assert (0 < 2 ^ (Zdigits2 m - n - 1)) by (apply Z.pow_pos_nonneg; lia). lia.
Qed.

Lemma Zdigits2_mono (a b : Z) : 0 < a ≤ b → Zdigits2 a ≤ Zdigits2 b.
Proof.
  intros [Ha Hab].
  pose proof (Zdigits2_bounds a Ha) as [Hlo _].
  pose proof (Zdigits2_bounds b ltac:(lia)) as [_ Hhi].
  pose proof (Zdigits2_pos a Ha). 
  destruct (Z.le_gt_cases (Zdigits2 a) (Zdigits2 b)) as [|Hgt]; [done|].
  assert (2 ^ Zdigits2 b ≤ 2 ^ (Zdigits2 a - 1)) by (apply Z.pow_le_mono_r; lia). lia.
Qed.

(** Adding one to a number adds a digit only when it gives a power of
    two. *)
Lemma Zdigits2_succ (t : Z) :
  0 < t → Zdigits2 (t + 1) = Zdigits2 t ∨
          (Zdigits2 (t + 1) = Zdigits2 t + 1 ∧ t + 1 = 2 ^ Zdigits2 t).
Proof.
  intros Ht. pose proof (Zdigits2_bounds t Ht) as [Hlo Hhi].
  pose proof (Zdigits2_pos t Ht).
  destruct (Z.eq_dec (t + 1) (2 ^ Zdigits2 t)) as [Heq|Hne].
  - right. split; [|done]. apply Zdigits2_unique; [|lia].
    replace (Zdigits2 t + 1 - 1) with (Zdigits2 t) by lia.
    rewrite Z.pow_add_r by lia. lia.
  - left. apply Zdigits2_unique; lia.
Qed.

Lemma shr_1_m (mrs : shr_record) : 0 ≤ shr_m mrs → shr_m (shr_1 mrs) = shr_m mrs / 2.
Proof.
  destruct mrs as [m r s]. cbn [shr_m]. intros Hm.
  destruct m as [|[p|p|]|p]; cbn [shr_1 shr_m]; try lia.
  - reflexivity.
  - apply Z.div_unique with 1; lia.
  - apply Z.div_unique with 0; lia.
  - reflexivity.
Qed.

Lemma shr_1_nonneg (mrs : shr_record) : 0 ≤ shr_m mrs → 0 ≤ shr_m (shr_1 mrs).
Proof. intros Hm. rewrite shr_1_m by done. apply Z.div_pos; lia. Qed.

Lemma pow2_xI (p : positive) : 2 ^ Zpos p~1 = 2 * (2 ^ Zpos p * 2 ^ Zpos p).
Proof.
  rewrite <- Z.pow_add_r by lia.
  rewrite <- (Z.pow_1_r 2) at 2. rewrite <- Z.pow_add_r by lia. f_equal. lia.
Qed.

Lemma pow2_xO (p : positive) : 2 ^ Zpos p~0 = 2 ^ Zpos p * 2 ^ Zpos p.
Proof. rewrite <- Z.pow_add_r by lia. f_equal. lia. Qed.

Lemma iter_shr_1_m (p : positive) (mrs : shr_record) :
  0 ≤ shr_m mrs →
  shr_m (@SpecFloat.iter_pos shr_record shr_1 p mrs) = shr_m mrs / 2 ^ Zpos p.
Proof.
  revert mrs. induction p as [p IH|p IH|]; intros mrs Hm; simpl SpecFloat.iter_pos.
  - assert (Hp : 0 < 2 ^ Zpos p) by (apply Z.pow_pos_nonneg; lia).
    assert (H1 : 0 ≤ shr_m (shr_1 mrs)) by by apply shr_1_nonneg.
    assert (H2 : 0 ≤ shr_m (@SpecFloat.iter_pos shr_record shr_1 p (shr_1 mrs))).
    { rewrite IH by done. by apply Z.div_pos. }
    rewrite IH, IH, shr_1_m by done.
    rewrite !Z.div_div by lia. by rewrite pow2_xI.
  - assert (Hp : 0 < 2 ^ Zpos p) by (apply Z.pow_pos_nonneg; lia).
    assert (H2 : 0 ≤ shr_m (@SpecFloat.iter_pos shr_record shr_1 p mrs)).
    { rewrite IH by done. by apply Z.div_pos. }
    rewrite IH, IH by done.
    rewrite !Z.div_div by lia. by rewrite pow2_xO.
  - rewrite shr_1_m by done. done.
Qed.

Lemma shr_m_spec (m : Z) (l : location) (e n : Z) :
  0 ≤ m →
  shr_m (fst (shr (shr_record_of_loc m l) e n)) = m / 2 ^ Z.max n 0 ∧
  snd (shr (shr_record_of_loc m l) e n) = e + Z.max n 0.
Proof.
  intros Hm.
  assert (Hrec : shr_m (shr_record_of_loc m l) = m) by (by destruct l as [|[]]).
  destruct n as [|p|p]; simpl.
  - rewrite Hrec, Z.div_1_r. split; [done | lia].
  - rewrite iter_shr_1_m by (by rewrite Hrec). by rewrite Hrec.
  - rewrite Hrec, Z.div_1_r. split; [done | lia].
Qed.

Lemma round_nearest_even_bounds (m : Z) (l : location) :
  m ≤ round_nearest_even m l ≤ m + 1.
Proof. destruct l as [|[]]; simpl; try lia. destruct (Z.even m); lia. Qed.

Lemma fexp_eq (e : Z) : fexp prec emax e = Z.max (e - 53) (-1074).
Proof. reflexivity. Qed.

(** The second shift of [binary_round_aux] loses nothing: it shifts by
    one place, and only a power of two. *)
Lemma second_shift_exact (m e t z m1 : Z) :
  0 < m →
  let n := Z.max (fexp prec emax (Zdigits2 m + e) - e) 0 in
  t = m / 2 ^ n → z = e + n → t ≤ m1 ≤ t + 1 →
  let n2 := Z.max (fexp prec emax (Zdigits2 m1 + z) - z) 0 in
  -1074 ≤ z ∧ m1 / 2 ^ n2 * 2 ^ n2 = m1.
Proof.
  intros Hm n Ht Hz Hm1 n2.
  assert (En : n = Z.max (Z.max (Zdigits2 m + e - 53) (-1074) - e) 0) by reflexivity.
  assert (En2 : n2 = Z.max (Z.max (Zdigits2 m1 + z - 53) (-1074) - z) 0) by reflexivity.
  clearbody n n2.
  assert (Hn : 0 ≤ n) by lia.
  assert (Hz' : -1074 ≤ z) by lia.
  split; [done|].
  assert (Hpn : 0 < 2 ^ n) by (by apply Z.pow_pos_nonneg).
  assert (Ht0 : 0 ≤ t) by (subst t; apply Z.div_pos; lia).
  assert (Hzero : n2 = 0 → m1 / 2 ^ n2 * 2 ^ n2 = m1).
  { intros ->. rewrite Z.div_1_r. simpl. lia. }
  destruct (Z.eq_dec t 0) as [Ht00|Htpos].
  { apply Hzero.
    assert (Zdigits2 m1 ≤ 1).
    { destruct (Z.eq_dec m1 0) as [->|]; [simpl; lia|].
      assert (m1 = 1) as -> by lia. simpl. lia. }
    lia. }
  assert (Hdm : n < Zdigits2 m).
  { destruct (Z.lt_ge_cases n (Zdigits2 m)) as [|Hge]; [done|]. exfalso.
    pose proof (Zdigits2_bounds m Hm) as [_ Hhi].
    assert (2 ^ Zdigits2 m ≤ 2 ^ n)
      by (apply Z.pow_le_mono_r; [lia|]; pose proof (Zdigits2_pos m Hm); lia).
    assert (m / 2 ^ n = 0) by (apply Z.div_small; lia). lia. }
  assert (Hdt : Zdigits2 t = Zdigits2 m - n).
  { subst t. apply Zdigits2_div_pow2; lia. }
  destruct (Z.eq_dec m1 t) as [->|Hne].
  { apply Hzero. lia. }
  assert (m1 = t + 1) as -> by lia.
  destruct (Zdigits2_succ t ltac:(lia)) as [Heq | [Heq Hpow]].
  { apply Hzero. lia. }
  assert (Hn2 : n2 = 0 ∨ n2 = 1) by lia.
  destruct Hn2 as [Hn2 | Hn2]; [by apply Hzero|].
  rewrite Hn2, Hpow.
  pose proof (Zdigits2_pos t ltac:(lia)) as Hdpos.
  assert (Hp : 2 ^ Zdigits2 t = 2 ^ (Zdigits2 t - 1) * 2).
  { rewrite Z.mul_comm, <- Z.pow_succ_r by lia. f_equal. lia. }
  rewrite Hp. change (2 ^ 1) with 2. by rewrite Z.div_mul by lia.
Qed.

(** The core of every operation: the rounded result is at least the
    exact value cut off at the exponent it is rounded at. *)
Lemma binary_round_aux_at_least (m e : Z) (l : location) :
  0 ≤ m →
  let n := Z.max (fexp prec emax (Zdigits2 m + e) - e) 0 in
  at_least (binary_round_aux prec emax false m e l) (m / 2 ^ n * 2 ^ (e + n + 1074)).
Proof.
  intros Hm n. unfold binary_round_aux, shr_fexp.
  destruct (shr_m_spec m l e (fexp prec emax (Zdigits2 m + e) - e) Hm) as [Hs1 He1].
  destruct (shr (shr_record_of_loc m l) e _) as [mrs' e'].
  simpl in Hs1, He1. fold n in Hs1, He1.
  set (m1 := round_nearest_even (shr_m mrs') (loc_of_shr_record mrs')).
  pose proof (round_nearest_even_bounds (shr_m mrs') (loc_of_shr_record mrs')) as Hm1.
  fold m1 in Hm1. rewrite Hs1 in Hm1.
  assert (Hn : 0 ≤ n) by (subst n; lia).
  assert (Hpn : 0 < 2 ^ n) by (by apply Z.pow_pos_nonneg).
  assert (Ht0 : 0 ≤ m / 2 ^ n) by (apply Z.div_pos; lia).
  assert (Hm10 : 0 ≤ m1) by lia.
  destruct (shr_m_spec m1 loc_Exact e' (fexp prec emax (Zdigits2 m1 + e') - e') Hm10)
    as [Hs2 He2].
  destruct (shr (shr_record_of_loc m1 loc_Exact) e' _) as [mrs'' e''].
  simpl in Hs2, He2.
  set (n2 := Z.max (fexp prec emax (Zdigits2 m1 + e') - e') 0) in *.
  assert (Hn2 : 0 ≤ n2) by (subst n2; lia).
  assert (Hpn2 : 0 < 2 ^ n2) by (by apply Z.pow_pos_nonneg).
  assert (Hex : -1074 ≤ e' ∧ m1 / 2 ^ n2 * 2 ^ n2 = m1).
  { destruct (Z.eq_dec m 0) as [->|Hne].
    - assert (Hm1' : m1 = 0 ∨ m1 = 1).
      { rewrite Z.div_0_l in Hm1 by lia. lia. }
      assert (Hz : -1074 ≤ e').
      { subst e' n. rewrite fexp_eq. simpl Zdigits2. lia. }
      split; [done|].
      assert (n2 = 0) as ->.
      { subst n2. rewrite fexp_eq. destruct Hm1' as [-> | ->]; simpl Zdigits2; lia. }
      rewrite Z.div_1_r. simpl. lia.
    - apply (second_shift_exact m e (m / 2 ^ n) e' m1); try done; lia. }
  destruct Hex as [Hz Hexact].
  rewrite Hs2.
  assert (Hq0 : 0 ≤ m1 / 2 ^ n2) by (apply Z.div_pos; lia).
  destruct (m1 / 2 ^ n2) as [|mf|mf] eqn:Hq; [| |lia].
  - simpl. simpl in Hexact. subst m1.
    assert (m / 2 ^ n = 0) as -> by lia. lia.
  - destruct (e'' <=? emax - prec); [|done]. simpl.
    rewrite He2. subst e'.
    replace (e + n + n2 + 1074) with (n2 + (e + n + 1074)) by lia.
    rewrite (Z.pow_add_r 2 n2 (e + n + 1074)) by lia.
    assert (0 ≤ 2 ^ (e + n + 1074)) by (apply Z.pow_nonneg; lia).
    nia.
Qed.

Lemma at_least_le (x : spec_float) (V V' : Z) : V' ≤ V → at_least x V → at_least x V'.
Proof. destruct x as [?|[]| |[] ? ?]; simpl; lia. Qed.

(** The cut-off value is canonical: it has 53 digits or lies in the
    lowest binade. *)
Lemma cut_off_canonical (m e : Z) :
  0 ≤ m → e ≤ -1074 ∨ 2 ^ 52 ≤ m →
  let n := Z.max (fexp prec emax (Zdigits2 m + e) - e) 0 in
  0 ≤ n ∧ 0 ≤ e + n + 1074 ∧ (e + n + 1074 = 0 ∨ 2 ^ 52 ≤ m / 2 ^ n).
Proof.
  intros Hm Hcan n.
  assert (En : n = Z.max (Z.max (Zdigits2 m + e - 53) (-1074) - e) 0) by reflexivity.
  clearbody n.
  split; [lia|]. split; [lia|].
  destruct (Z.eq_dec (e + n + 1074) 0) as [|Hne]; [by left | right].
  assert (Hm52 : 2 ^ 52 ≤ m).
  { destruct Hcan as [He|]; [|done].
    destruct (Z.eq_dec m 0) as [->|Hm0]; [simpl in En; lia|].
    pose proof (Zdigits2_bounds m ltac:(lia)) as [Hlo _].
    assert (53 ≤ Zdigits2 m) by lia.
    assert (2 ^ 52 ≤ 2 ^ (Zdigits2 m - 1)) by (apply Z.pow_le_mono_r; lia). lia. }
  assert (Hpos : 0 < m) by lia.
  pose proof (Zdigits2_bounds m Hpos) as [Hlo Hhi].
  assert (Hd : 53 ≤ Zdigits2 m).
  { destruct (Z.le_gt_cases 53 (Zdigits2 m)) as [|Hlt]; [done|]. exfalso.
    assert (2 ^ Zdigits2 m ≤ 2 ^ 52)
      by (apply Z.pow_le_mono_r; [lia|]; pose proof (Zdigits2_pos m Hpos); lia).
    lia. }
  assert (n = Zdigits2 m - 53) as -> by lia.
  apply Z.div_le_lower_bound; [apply Z.pow_pos_nonneg; lia|].
  rewrite <- Z.pow_add_r by lia.
  by replace (Zdigits2 m - 53 + 52) with (Zdigits2 m - 1) by lia.
Qed.

(** What a cut-off value dominates: every number of at most 53
    significant bits, and every number all but 2^-52 of the exact value
    [N0 / D0 * 2^u], that are not above the exact value. *)
Lemma cut_off_representable (N0 D0 u m j : Z) :
  0 ≤ N0 → 0 < D0 → 0 ≤ u → u = 0 ∨ 2 ^ 52 ≤ N0 / D0 →
  0 < m < 2 ^ 53 → 0 ≤ j →
  m * 2 ^ j * D0 ≤ N0 * 2 ^ u →
  m * 2 ^ j ≤ N0 / D0 * 2 ^ u.
Proof.
  intros HN HD Hu Hcan Hm Hj Hle.
  assert (Hpu : 0 < 2 ^ u) by (by apply Z.pow_pos_nonneg).
  assert (Hpj : 0 < 2 ^ j) by (by apply Z.pow_pos_nonneg).
  destruct (Z.le_gt_cases u j) as [Huj|Huj].
  - replace j with ((j - u) + u) in * by lia.
    rewrite Z.pow_add_r in * by lia.
    assert (Hpd : 0 < 2 ^ (j - u)) by (apply Z.pow_pos_nonneg; lia).
    assert (m * 2 ^ (j - u) ≤ N0 / D0).
    { apply Z.div_le_lower_bound; [done|]. nia. }
    nia.
  - destruct Hcan as [-> | H52]; [lia|].
    assert (2 ^ (53 + j) ≤ 2 ^ (52 + u)) by (apply Z.pow_le_mono_r; lia).
    rewrite !Z.pow_add_r in * by lia. nia.
Qed.

Lemma cut_off_relative (N0 D0 u : Z) :
  0 ≤ N0 → 0 < D0 → 0 ≤ u → u = 0 ∨ 2 ^ 52 ≤ N0 / D0 →
  N0 * 2 ^ u * (2 ^ 52 - 1) ≤ (N0 / D0 * 2 ^ u + 1) * 2 ^ 52 * D0.
Proof.
  intros HN HD Hu Hcan.
  assert (Hpu : 0 < 2 ^ u) by (by apply Z.pow_pos_nonneg).
  pose proof (Z.mul_succ_div_gt N0 D0 HD) as Hfl.
  pose proof (Z.div_pos N0 D0 HN HD) as Hq.
  set (T := N0 / D0) in *. set (U := 2 ^ u) in *.
  destruct Hcan as [-> | H52].
  - subst U. simpl. nia.
  - assert (N0 * U * (2 ^ 52 - 1) ≤ T * U * 2 ^ 52 * D0); [|nia].
    assert (N0 * (2 ^ 52 - 1) ≤ T * 2 ^ 52 * D0); [|nia].
    nia.
Qed.

Lemma cut_off_relative_normal (N0 D0 U : Z) :
  0 ≤ N0 → 0 < D0 → 0 < U → 2 ^ 52 ≤ N0 / D0 →
  N0 * U * (2 ^ 52 - 1) ≤ N0 / D0 * U * 2 ^ 52 * D0.
Proof.
  intros HN HD HU H52.
  pose proof (Z.mul_succ_div_gt N0 D0 HD) as Hfl.
  set (T := N0 / D0) in *.
  assert (N0 * (2 ^ 52 - 1) ≤ T * 2 ^ 52 * D0); nia.
Qed.

(** *** Valid numbers *)

Lemma bounded_spec (m : positive) (e : Z) :
  bounded prec emax m e = true →
  -1074 ≤ e ≤ 971 ∧ Zpos m < 2 ^ 53 ∧ (e = -1074 ∨ 2 ^ 52 ≤ Zpos m).
Proof.
  unfold bounded, canonical_mantissa. intros Hb.
  apply andb_prop in Hb as [Hc He]. apply Z.eqb_eq in Hc. apply Z.leb_le in He.
  rewrite fexp_eq in Hc. change (emax - prec) with 971 in He.
  pose proof (digits2_pos_bounds m) as [Hlo Hhi].
  set (d := Zpos (digits2_pos m)) in *.
  assert (0 < d) by (unfold d; lia).
  split; [lia|]. split.
  - assert (2 ^ d ≤ 2 ^ 53) by (apply Z.pow_le_mono_r; lia). lia.
  - destruct (Z.eq_dec e (-1074)) as [|Hne]; [by left | right].
    assert (d = 53) as Hd by lia. rewrite Hd in Hlo. exact Hlo.
Qed.

Lemma scaled_finite_pos (m : positive) (e : Z) :
  -1074 ≤ e → 0 < scaled (S754_finite false m e).
Proof.
  intros He. simpl.
  assert (0 < 2 ^ (e + 1074)) by (apply Z.pow_pos_nonneg; lia). lia.
Qed.

(** *** Addition *)

Lemma iter_xO (m d : positive) : Zpos (Pos.iter xO m d) = Zpos m * 2 ^ Zpos d.
Proof.
  induction d as [|d IH] using Pos.peano_ind.
  - simpl. lia.
  - rewrite Pos.iter_succ, Pos2Z.inj_xO, IH, Pos2Z.inj_succ, Z.pow_succ_r by lia. lia.
Qed.

Lemma shl_align_spec (mx : positive) (ex ex' : Z) :
  snd (shl_align mx ex ex') = Z.min ex ex' ∧
  Zpos (fst (shl_align mx ex ex')) = Zpos mx * 2 ^ (ex - Z.min ex ex').
Proof.
  unfold shl_align. destruct (ex' - ex) as [|d|d] eqn:E; simpl.
  - replace (Z.min ex ex') with ex by lia. rewrite Z.sub_diag. simpl. lia.
  - replace (Z.min ex ex') with ex by lia. rewrite Z.sub_diag. simpl. lia.
  - replace (Z.min ex ex') with ex' by lia.
    rewrite iter_xO. replace (ex - ex') with (Zpos d) by lia. done.
Qed.

(** Rounding a positive integer number of units of [2^e]. *)
Lemma binary_round_at_least (p : positive) (e : Z) :
  -1074 ≤ e →
  let W := Zpos p * 2 ^ (e + 1074) in
  ∃ V, at_least (binary_round prec emax false p e) V ∧
       (∀ m j, 0 < m < 2 ^ 53 → 0 ≤ j → m * 2 ^ j ≤ W → m * 2 ^ j ≤ V) ∧
       W * (2 ^ 52 - 1) ≤ V * 2 ^ 52.
Proof.
  intros He W. unfold binary_round.
  pose proof (shl_align_spec p e (fexp prec emax (Zpos (digits2_pos p) + e))) as [He1 Hmz].
  destruct (shl_align p e _) as [mz e1]. simpl in He1, Hmz.
  pose proof (digits2_pos_bounds p) as [Hlo Hhi].
  set (d := Zpos (digits2_pos p)) in *.
  assert (Hd : 0 < d) by (unfold d; lia).
  rewrite fexp_eq in He1, Hmz.
  assert (He1' : -1074 ≤ e1 ≤ e) by lia.
  assert (Hcan : e1 ≤ -1074 ∨ 2 ^ 52 ≤ Zpos mz).
  { destruct (Z.eq_dec e1 (-1074)) as [|Hne]; [left; lia | right].
    rewrite Hmz, <- He1.
    destruct (Z.le_gt_cases 53 d) as [Hle|Hgt].
    - (* no shift: the mantissa has at least 53 digits *)
      assert (e1 = e) as -> by lia. rewrite Z.sub_diag, Z.mul_1_r.
      assert (2 ^ 52 ≤ 2 ^ (d - 1)) by (apply Z.pow_le_mono_r; lia). lia.
    - assert (e1 = d + e - 53) as Heq by lia.
      assert (2 ^ 52 = 2 ^ (d - 1) * 2 ^ (e - e1)) as ->.
      { rewrite <- Z.pow_add_r by lia. f_equal. lia. }
      apply Z.mul_le_mono_nonneg_r; [apply Z.pow_nonneg; lia | done]. }
  pose proof (binary_round_aux_at_least (Zpos mz) e1 loc_Exact ltac:(lia)) as Hcore.
  pose proof (cut_off_canonical (Zpos mz) e1 ltac:(lia) Hcan) as (Hn & Hu & Hfull).
  cbv zeta in Hcore, Hn, Hu, Hfull.
  set (n := Z.max (fexp prec emax (Zdigits2 (Zpos mz) + e1) - e1) 0) in *.
  clearbody n.
  set (u := e1 + n + 1074) in *.
  exists (Zpos mz / 2 ^ n * 2 ^ u).
  split; [exact Hcore|].
  assert (Hpn : 0 < 2 ^ n) by (by apply Z.pow_pos_nonneg).
  assert (HW : W * 2 ^ n = Zpos mz * 2 ^ u).
  { subst W u. rewrite Hmz, <- He1.
    replace (e1 + n + 1074) with ((e1 + 1074) + n) by lia.
    replace (e + 1074) with ((e - e1) + (e1 + 1074)) by lia.
    rewrite (Z.pow_add_r 2 (e - e1) (e1 + 1074)), (Z.pow_add_r 2 (e1 + 1074) n) by lia.
    ring. }
  assert (Hfull' : u = 0 ∨ 2 ^ 52 ≤ Zpos mz / 2 ^ n) by (destruct Hfull; [left; lia | by right]).
  split.
  - intros m j Hm Hj Hle.
    apply (cut_off_representable (Zpos mz) (2 ^ n) u m j); try done; try lia.
    rewrite <- HW. nia.
  - destruct (Z.eq_dec n 0) as [Hn0|Hn0].
    + rewrite Hn0 in *. rewrite Z.div_1_r. simpl in HW. nia.
    + assert (H52 : 2 ^ 52 ≤ Zpos mz / 2 ^ n).
      { destruct Hfull as [Hu0 | ?]; [|done]. subst u. lia. }
      pose proof (cut_off_relative_normal (Zpos mz) (2 ^ n) (2 ^ u) ltac:(lia) Hpn
                    ltac:(apply Z.pow_pos_nonneg; lia) H52) as Hrel.
      rewrite <- HW in Hrel. nia.
Qed.

Lemma at_least_not_below_zero (x : spec_float) (V : Z) :
  at_least x V → not_below_zero x.
Proof. by destruct x as [?|[]| |[] ? ?]. Qed.

(** The sum of two numbers that are not negative: it is at least every
    number of at most 53 significant bits that the exact sum reaches, and
    at least all but 2^-52 of the exact sum. *)
Lemma SFadd_at_least (x y : spec_float) :
  valid_binary x = true → valid_binary y = true →
  not_below_zero x → not_below_zero y →
  ∃ V, at_least (SFadd prec emax x y) V ∧
       (∀ m j, 0 < m < 2 ^ 53 → 0 ≤ j → m * 2 ^ j ≤ scaled x + scaled y → m * 2 ^ j ≤ V) ∧
       (scaled x + scaled y) * (2 ^ 52 - 1) ≤ V * 2 ^ 52.
Proof.
  intros Hvx Hvy Hx Hy.
  assert (Htriv : ∀ r, at_least r (scaled x + scaled y) →
            ∃ V, at_least r V ∧
              (∀ m j, 0 < m < 2 ^ 53 → 0 ≤ j →
                      m * 2 ^ j ≤ scaled x + scaled y → m * 2 ^ j ≤ V) ∧
              (scaled x + scaled y) * (2 ^ 52 - 1) ≤ V * 2 ^ 52).
  { intros r Hr. exists (scaled x + scaled y). split; [done|]. split; [auto|].
    assert (0 ≤ scaled x + scaled y); [|lia].
    destruct x as [?|[]| |[] mx ex], y as [?|[]| |[] my ey]; simpl in *; try done; try lia.
    all: try (apply bounded_spec in Hvx as ([? ?] & _)).
    all: try (apply bounded_spec in Hvy as ([? ?] & _)).
    all: repeat match goal with
           | |- context [2 ^ (?e + 1074)] =>
               lazymatch goal with
               | _ : 0 ≤ 2 ^ (e + 1074) |- _ => fail
               | _ => assert (0 ≤ 2 ^ (e + 1074)) by (apply Z.pow_nonneg; lia)
               end
           end; try nia. }
  destruct x as [sx|[]| |[] mx ex]; try done;
    destruct y as [sy|[]| |[] my ey]; try done.
  1-8: (apply Htriv; try destruct sx; try destruct sy; cbn [SFadd at_least scaled]; lia).
  (* two numbers *)
  - simpl in Hvx, Hvy.
    apply bounded_spec in Hvx as ([Hex _] & _), Hvy as ([Hey _] & _).
    unfold SFadd, cond_Zopp.
    pose proof (shl_align_spec mx ex (Z.min ex ey)) as [_ H1].
    pose proof (shl_align_spec my ey (Z.min ex ey)) as [_ H2].
    replace (Z.min ex (Z.min ex ey)) with (Z.min ex ey) in H1 by lia.
    replace (Z.min ey (Z.min ex ey)) with (Z.min ex ey) in H2 by lia.
    set (ez := Z.min ex ey) in *.
    destruct (Zpos (fst (shl_align mx ex ez)) + Zpos (fst (shl_align my ey ez)))
      as [|p|p] eqn:Ep; try lia.
    unfold binary_normalize.
    destruct (binary_round_at_least p ez ltac:(lia)) as (V & HV & Hrep & Hrel).
    assert (HW : Zpos p * 2 ^ (ez + 1074) = scaled (S754_finite false mx ex) +
                                            scaled (S754_finite false my ey)).
    { simpl. rewrite <- Ep, H1, H2.
      replace (ex + 1074) with ((ex - ez) + (ez + 1074)) by lia.
      replace (ey + 1074) with ((ey - ez) + (ez + 1074)) by lia.
      rewrite (Z.pow_add_r 2 (ex - ez)), (Z.pow_add_r 2 (ey - ez)) by lia. ring. }
    cbv zeta in Hrep, Hrel. rewrite HW in Hrep, Hrel.
    exists V. done.
Qed.

(** *** Division *)

Lemma SFdiv_core_binary_spec (mx my : positive) (ex ey : Z) :
  let e' := Z.min (fexp prec emax (Zpos (digits2_pos mx) + ex - (Zpos (digits2_pos my) + ey)))
                  (ex - ey) in
  ∃ l, SFdiv_core_binary prec emax (Zpos mx) ex (Zpos my) ey =
         (Zpos mx * 2 ^ (ex - ey - e') / Zpos my, e', l).
Proof.
  intros e'. unfold SFdiv_core_binary.
  change (Zdigits2 (Zpos mx)) with (Zpos (digits2_pos mx)).
  change (Zdigits2 (Zpos my)) with (Zpos (digits2_pos my)).
  fold e'.
  assert (Hs : 0 ≤ ex - ey - e') by (subst e'; lia).
  assert (Hm : (match ex - ey - e' with
                | 0 => Zpos mx
                | Zpos _ => Z.shiftl (Zpos mx) (ex - ey - e')
                | Zneg _ => 0
                end) = Zpos mx * 2 ^ (ex - ey - e')).
  { destruct (ex - ey - e') as [|s|s] eqn:Es; [simpl; lia | | lia].
    by rewrite Z.shiftl_mul_pow2. }
  rewrite Hm. unfold Z.div.
  destruct (Z.div_eucl _ _) as [q r]. by eexists.
Qed.

(** The quotient of a number that is not negative by a positive one. *)
Lemma SFdiv_at_least (x : spec_float) (my : positive) (ey : Z) :
  valid_binary x = true → bounded prec emax my ey = true →
  not_below_zero x →
  let y := S754_finite false my ey in
  ∃ V, at_least (SFdiv prec emax x y) V ∧
       (∀ m j, 0 < m < 2 ^ 53 → 0 ≤ j →
               m * 2 ^ j * scaled y ≤ scaled x * 2 ^ 1074 → m * 2 ^ j ≤ V) ∧
       (x ≠ S754_infinity false →
        scaled x * 2 ^ 1074 * (2 ^ 52 - 1) ≤ (V + 1) * 2 ^ 52 * scaled y).
Proof.
  intros Hvx Hvy Hx y.
  pose proof (bounded_spec my ey Hvy) as ([Hey _] & Hmy & _).
  assert (Hsy : 0 < scaled y) by (by apply scaled_finite_pos).
  destruct x as [sx|[]| |[] mx ex]; try done.
  - (* zero *)
    exists 0. split; [done|]. split.
    + intros m j Hm Hj Hle. simpl scaled in Hle.
      assert (0 < 2 ^ j) by (by apply Z.pow_pos_nonneg). nia.
    + intros _. simpl scaled at 1. lia.
  - (* infinity *)
    exists (2 ^ 2098 * 2 ^ 1074). split; [done|]. split; [|done].
    intros m j Hm Hj Hle. simpl scaled in Hle.
    assert (0 < 2 ^ j) by (by apply Z.pow_pos_nonneg).
    assert (1 ≤ scaled y) by lia. change (scaled y) with (Zpos my * 2 ^ (ey + 1074)) in *.
    nia.
  - (* a positive number *)
    simpl in Hvx. pose proof (bounded_spec mx ex Hvx) as ([Hex _] & Hmx & _).
    unfold y, SFdiv.
    destruct (SFdiv_core_binary_spec mx my ex ey) as [l ->]. cbv zeta.
    pose proof (digits2_pos_bounds mx) as [Hlox Hhix].
    pose proof (digits2_pos_bounds my) as [Hloy Hhiy].
    set (dx := Zpos (digits2_pos mx)) in *. set (dy := Zpos (digits2_pos my)) in *.
    assert (Hdx : 0 < dx) by (unfold dx; lia).
    assert (Hdy : 0 < dy) by (unfold dy; lia).
    rewrite fexp_eq.
    set (e' := Z.min (Z.max (dx + ex - (dy + ey) - 53) (-1074)) (ex - ey)).
    assert (Ee' : e' = Z.min (Z.max (dx + ex - (dy + ey) - 53) (-1074)) (ex - ey))
      by reflexivity.
    clearbody e'.
    set (s := ex - ey - e').
    assert (Hs : 0 ≤ s) by (subst s; lia).
    assert (Hps : 0 < 2 ^ s) by (by apply Z.pow_pos_nonneg).
    set (q := Zpos mx * 2 ^ s / Zpos my).
    assert (Hq0 : 0 ≤ q) by (apply Z.div_pos; lia).
    assert (Hcan : e' ≤ -1074 ∨ 2 ^ 52 ≤ q).
    { destruct (Z.le_gt_cases e' (-1074)) as [|Hgt]; [by left | right].
      apply Z.div_le_lower_bound; [lia|].
      assert (Hs' : 53 - dx + dy ≤ s) by (subst s; lia).
      assert (2 ^ (52 + dy) ≤ 2 ^ (dx - 1) * 2 ^ s).
      { rewrite <- Z.pow_add_r by lia. apply Z.pow_le_mono_r; lia. }
      rewrite Z.pow_add_r in * by lia. nia. }
    pose proof (binary_round_aux_at_least q e' l Hq0) as Hcore.
    pose proof (cut_off_canonical q e' Hq0 Hcan) as (Hn & Hu & Hfull).
    cbv zeta in Hcore, Hn, Hu, Hfull.
    set (n := Z.max (fexp prec emax (Zdigits2 q + e') - e') 0) in *.
    clearbody n.
    set (u := e' + n + 1074) in *.
    assert (Hpn : 0 < 2 ^ n) by (by apply Z.pow_pos_nonneg).
    assert (Hpu : 0 < 2 ^ u) by (by apply Z.pow_pos_nonneg).
    assert (HT : q / 2 ^ n = Zpos mx * 2 ^ s / (Zpos my * 2 ^ n)).
    { unfold q. rewrite Z.div_div by lia. done. }
    assert (Hfull' : u = 0 ∨ 2 ^ 52 ≤ Zpos mx * 2 ^ s / (Zpos my * 2 ^ n)).
    { rewrite <- HT. destruct Hfull; [left; lia | by right]. }
    assert (Hpow : 2 ^ (ex + 1074) * 2 ^ 1074 * 2 ^ n = 2 ^ s * 2 ^ u * 2 ^ (ey + 1074)).
    { rewrite <- !Z.pow_add_r by lia. f_equal. subst s u. lia. }
    assert (Hpy : 0 < 2 ^ (ey + 1074)) by (apply Z.pow_pos_nonneg; lia).
    assert (Hpx : 0 < 2 ^ (ex + 1074)) by (apply Z.pow_pos_nonneg; lia).
    exists (q / 2 ^ n * 2 ^ u). split; [exact Hcore|].
    rewrite HT. simpl scaled.
    set (A := 2 ^ (ey + 1074)) in *. set (B := 2 ^ (ex + 1074)) in *.
    set (C := 2 ^ 1074) in *. set (S := 2 ^ s) in *. set (N := 2 ^ n) in *.
    set (U := 2 ^ u) in *.
    assert (HC : 0 < C) by (subst C; by apply Z.pow_pos_nonneg).
    split.
    + intros m j Hm Hj Hle.
      apply (cut_off_representable (Zpos mx * S) (Zpos my * N) u m j);
        try done; try lia.
      fold U.
      assert (m * 2 ^ j * (Zpos my * N) * A ≤ Zpos mx * S * U * A); [|nia].
      replace (Zpos mx * S * U * A) with (Zpos mx * (S * U * A)) by ring.
      rewrite <- Hpow. nia.
    + intros _.
      pose proof (cut_off_relative (Zpos mx * S) (Zpos my * N) u
                    ltac:(lia) ltac:(lia) Hu Hfull') as Hrel.
      fold U in Hrel.
      set (T := Zpos mx * S / (Zpos my * N)) in *.
      assert (Zpos mx * (B * C * N) * (2 ^ 52 - 1) ≤ (T * U + 1) * 2 ^ 52 * (Zpos my * A) * N);
        [|nia].
      rewrite Hpow. nia.
Qed.

(** *** Order and value *)

Lemma scaled_nonneg (x : spec_float) : valid_binary x = true → 0 ≤ scaled x.
Proof.
  destruct x as [?|[]| |[] m e]; simpl; lia.
Qed.

Lemma scaled_finite_lt (m : positive) (e : Z) :
  bounded prec emax m e = true → 0 < scaled (S754_finite false m e) < 2 ^ 2098.
Proof.
  intros Hv. pose proof (bounded_spec m e Hv) as ([He1 He2] & Hm & _).
  split; [by apply scaled_finite_pos|]. simpl.
  assert (2 ^ (e + 1074) ≤ 2 ^ 2045) by (apply Z.pow_le_mono_r; lia).
  assert (0 < 2 ^ (e + 1074)) by (apply Z.pow_pos_nonneg; lia).
  change (2 ^ 2098) with (2 ^ 53 * 2 ^ 2045). nia.
Qed.

(** On valid numbers that are not negative the order of the numbers is
    the order of their values. *)
Lemma scaled_le_key (x y : spec_float) :
  valid_binary x = true → valid_binary y = true →
  not_below_zero x → not_below_zero y →
  scaled x ≤ scaled y ↔ key_compare (key x) (key y) ≠ Gt.
Proof.
  intros Hvx Hvy Hx Hy.
  destruct x as [sx|[]| |[] mx ex]; try done; destruct y as [sy|[]| |[] my ey]; try done.
  all: try (pose proof (scaled_finite_lt mx ex Hvx)).
  all: try (pose proof (scaled_finite_lt my ey Hvy)).
  all: try solve [try destruct sx; try destruct sy; cbn [scaled key key_compare] in *;
                  simpl Z.compare; split; (done || lia)].
  (* two positive numbers *)
  pose proof (bounded_spec mx ex Hvx) as ([Hex _] & Hmx & Hcx).
    pose proof (bounded_spec my ey Hvy) as ([Hey _] & Hmy & Hcy).
  cbn [scaled key key_compare].
  assert (Hlt : ∀ (m m' : positive) (e e' : Z),
              -1074 ≤ e → e < e' → Zpos m < 2 ^ 53 → 2 ^ 52 ≤ Zpos m' →
              Zpos m * 2 ^ (e + 1074) < Zpos m' * 2 ^ (e' + 1074)).
    { intros m m' e e' He Hee Hm Hm'.
      replace (e' + 1074) with ((e' - e - 1) + 1 + (e + 1074)) by lia.
      rewrite (Z.pow_add_r 2 (e' - e - 1 + 1) (e + 1074)),
              (Z.pow_add_r 2 (e' - e - 1) 1) by lia.
      change (2 ^ 1) with 2.
      assert (0 < 2 ^ (e + 1074)) by (apply Z.pow_pos_nonneg; lia).
      assert (0 < 2 ^ (e' - e - 1)) by (apply Z.pow_pos_nonneg; lia).
      change (2 ^ 53) with (2 * 2 ^ 52) in Hm.
      set (P := 2 ^ 52) in *. set (X := 2 ^ (e + 1074)) in *.
      set (Y := 2 ^ (e' - e - 1)) in *.
      assert (G1 : Zpos m * X < 2 * P * X) by nia.
      assert (G2 : 2 * P * X ≤ 2 * Zpos m' * X) by nia.
      assert (G3 : 2 * Zpos m' * X * 1 ≤ 2 * Zpos m' * X * Y)
        by (apply Z.mul_le_mono_nonneg_l; lia).
      lia. }
    destruct (Z.compare_spec ex ey) as [-> | Hee | Hee].
    + assert (0 < 2 ^ (ey + 1074)) by (apply Z.pow_pos_nonneg; lia).
      destruct (Z.compare_spec (Zpos mx) (Zpos my)); split; try done; nia.
    + split; [done|]. intros _.
      pose proof (Hlt mx my ex ey Hex Hee Hmx ltac:(destruct Hcy; lia)). lia.
    + split; [|done]. intros Hle.
      pose proof (Hlt my mx ey ex Hey Hee Hmy ltac:(destruct Hcx; lia)). lia.
Qed.

Lemma sum_scaled_app (l1 l2 : list float) :
  sum_scaled (l1 ++ l2) = sum_scaled l1 + sum_scaled l2.
Proof. induction l1 as [|x l1 IH]; simpl; lia. Qed.

Lemma sum_scaled_perm (l l' : list float) : l ≡ₚ l' → sum_scaled l = sum_scaled l'.
Proof. induction 1; simpl; lia. Qed.

Lemma sum_scaled_nonneg (l : list float) : 0 ≤ sum_scaled l.
Proof.
  induction l as [|x l IH]; simpl; [lia|].
  pose proof (scaled_nonneg (Prim2SF x) (Prim2SF_valid x)). lia.
Qed.

Lemma add_at_least (x y : float) :
  not_below_zero (Prim2SF x) → not_below_zero (Prim2SF y) →
  ∃ V, at_least (Prim2SF (x + y)) V ∧
       (∀ m j, 0 < m < 2 ^ 53 → 0 ≤ j →
               m * 2 ^ j ≤ scaled (Prim2SF x) + scaled (Prim2SF y) → m * 2 ^ j ≤ V) ∧
       (scaled (Prim2SF x) + scaled (Prim2SF y)) * (2 ^ 52 - 1) ≤ V * 2 ^ 52.
Proof.
  intros Hx Hy. rewrite FloatAxioms.add_spec.
  apply SFadd_at_least; auto using Prim2SF_valid.
Qed.

Lemma at_least_scaled (x : spec_float) (V : Z) :
  at_least x V → x = S754_infinity false ∨ V ≤ scaled x.
Proof. destruct x as [?|[]| |[] m e]; simpl; intros; auto; done. Qed.

Lemma add_zero_l (x y : float) (b : bool) :
  Prim2SF x = S754_zero b → not_below_zero (Prim2SF y) →
  not_below_zero (Prim2SF (x + y)) ∧
  scaled (Prim2SF (x + y)) = scaled (Prim2SF y) ∧
  (Prim2SF (x + y) = S754_infinity false ↔ Prim2SF y = S754_infinity false) ∧
  (∀ b', Prim2SF y = S754_zero b' → ∃ b'', Prim2SF (x + y) = S754_zero b'').
Proof.
  intros Hx Hy. rewrite FloatAxioms.add_spec, Hx. unfold SF64add.
  destruct (Prim2SF y) as [sy|[]| |[] my ey]; try done.
  all: try (destruct b, sy; simpl; repeat split; try done; intros; by eexists).
  all: simpl; repeat split; try done.
Qed.

Lemma add_zero_r (x y : float) (b : bool) :
  Prim2SF y = S754_zero b → not_below_zero (Prim2SF x) →
  not_below_zero (Prim2SF (x + y)) ∧
  scaled (Prim2SF (x + y)) = scaled (Prim2SF x) ∧
  (Prim2SF (x + y) = S754_infinity false ↔ Prim2SF x = S754_infinity false) ∧
  (∀ b', Prim2SF x = S754_zero b' → ∃ b'', Prim2SF (x + y) = S754_zero b'').
Proof.
  intros Hy Hx. rewrite FloatAxioms.add_spec, Hy. unfold SF64add.
  destruct (Prim2SF x) as [sx|[]| |[] mx ex]; try done.
  all: try (destruct b, sx; simpl; repeat split; try done; intros; by eexists).
  all: simpl; repeat split; try done.
Qed.

Lemma add_infinity (x y : float) :
  not_below_zero (Prim2SF x) → not_below_zero (Prim2SF y) →
  Prim2SF x = S754_infinity false ∨ Prim2SF y = S754_infinity false →
  Prim2SF (x + y) = S754_infinity false.
Proof.
  intros Hx Hy Hinf. rewrite FloatAxioms.add_spec. unfold SF64add.
  destruct (Prim2SF x) as [sx|[]| |[] mx ex]; try done;
    destruct (Prim2SF y) as [sy|[]| |[] my ey]; try done;
    destruct Hinf; done.
Qed.

Lemma pow_step (n : nat) :
  (0 < n)%nat →
  (2 ^ 52 - 1) ^ Z.of_nat n * 2 ^ 52 ≤ (2 ^ 52) ^ Z.of_nat n * (2 ^ 52 - 1).
Proof.
  intros Hn. destruct n as [|n]; [lia|].
  rewrite Nat2Z.inj_succ, !Z.pow_succ_r by lia.
  assert ((2 ^ 52 - 1) ^ Z.of_nat n ≤ (2 ^ 52) ^ Z.of_nat n)
    by (apply Z.pow_le_mono_l; lia).
  assert (0 ≤ (2 ^ 52 - 1) ^ Z.of_nat n) by (apply Z.pow_nonneg; lia).
  set (a := (2 ^ 52 - 1) ^ Z.of_nat n) in *. set (A := (2 ^ 52) ^ Z.of_nat n) in *.
  set (P := 2 ^ 52) in *. assert (0 < P) by (subst P; lia). nia.
Qed.

Lemma combine_bounds (S1 S2 t1 t2 t a b A B P Q : Z) :
  0 ≤ S1 → 0 ≤ S2 → 0 ≤ t1 → 0 ≤ t2 → 0 ≤ a → 0 ≤ b → 0 ≤ A → 0 ≤ B →
  0 < P → 0 ≤ Q →
  S1 * a ≤ t1 * A → S2 * b ≤ t2 * B →
  a * P ≤ A * Q → b * P ≤ B * Q →
  (t1 + t2) * Q ≤ t * P →
  (S1 + S2) * (a * b) ≤ t * (A * B).
Proof.
  intros HS1 HS2 Ht1 Ht2 Ha Hb HA HB HP HQ H1 H2 Ha' Hb' Ht.
  assert (G1 : S1 * a * (b * P) ≤ t1 * A * (b * P))
    by (apply Z.mul_le_mono_nonneg_r; nia).
  assert (G2 : t1 * A * (b * P) ≤ t1 * A * (B * Q))
    by (apply Z.mul_le_mono_nonneg_l; nia).
  assert (G3 : S2 * b * (a * P) ≤ t2 * B * (a * P))
    by (apply Z.mul_le_mono_nonneg_r; nia).
  assert (G4 : t2 * B * (a * P) ≤ t2 * B * (A * Q))
    by (apply Z.mul_le_mono_nonneg_l; nia).
  assert (G5 : (t1 + t2) * Q * (A * B) ≤ t * P * (A * B))
    by (apply Z.mul_le_mono_nonneg_r; nia).
  assert (G6 : (S1 + S2) * (a * b) * P ≤ t * (A * B) * P) by nia.
  apply Z.mul_le_mono_pos_r in G6; done.
Qed.

Lemma float_sum_bound (l : list float) (s : float) :
  float_sum l s → Forall (λ x, not_below_zero (Prim2SF x)) l → sum_bound l s.
Proof.
  induction 1 as [| |x|l1 l2 s1 s2 H1 IH1 H2 IH2|l l' s Hperm H IH]; intros Hl.
  - repeat split; [by exists false | right; simpl; lia].
  - repeat split; [by exists true | right; simpl; lia].
  - apply Forall_cons in Hl as [Hx _]. split; [done|]. split; [done|].
    destruct (Prim2SF x) as [?|[]| |[] m e] eqn:Ex; try done; [right | by left | right];
      cbn [sum_scaled foldr length]; rewrite Ex; cbn [scaled];
      change (Z.of_nat 1) with 1; rewrite !Z.pow_1_r; lia.
  - apply Forall_app in Hl as [Hl1 Hl2].
    destruct (IH1 Hl1) as (Hs1 & Hz1 & Hb1). destruct (IH2 Hl2) as (Hs2 & Hz2 & Hb2).
    destruct l1 as [|x1 l1].
    { (* nothing on the left *)
      destruct (Hz1 eq_refl) as [b Eb].
      destruct (add_zero_l s1 s2 b Eb Hs2) as (Hs & Hv & Hinf & Hzero).
      cbn [app]. split; [done|]. split.
      - intros ->. destruct (Hz2 eq_refl) as [b' Eb']. eauto.
      - destruct Hb2 as [Hb2 | Hb2]; [left; by apply Hinf | right].
        by rewrite Hv. }
    destruct l2 as [|x2 l2].
    { destruct (Hz2 eq_refl) as [b Eb].
      destruct (add_zero_r s1 s2 b Eb Hs1) as (Hs & Hv & Hinf & Hzero).
      split; [done|]. split; [done|].
      rewrite app_nil_r. destruct Hb1 as [Hb1 | Hb1]; [left; by apply Hinf | right].
      by rewrite Hv. }
    destruct (add_at_least s1 s2 Hs1 Hs2) as (V & HV & _ & Hrel).
    split; [by apply at_least_not_below_zero in HV|]. split; [done|].
    destruct Hb1 as [Hb1 | Hb1]; [left; apply add_infinity; auto|].
    destruct Hb2 as [Hb2 | Hb2]; [left; apply add_infinity; auto|].
    destruct (at_least_scaled _ _ HV) as [|HVle]; [by left | right].
    rewrite sum_scaled_app, length_app, Nat2Z.inj_add, !Z.pow_add_r by lia.
    pose proof (sum_scaled_nonneg (x1 :: l1)). pose proof (sum_scaled_nonneg (x2 :: l2)).
    pose proof (scaled_nonneg _ (Prim2SF_valid s1)).
    pose proof (scaled_nonneg _ (Prim2SF_valid s2)).
    apply (combine_bounds _ _ (scaled (Prim2SF s1)) (scaled (Prim2SF s2)) _ _ _ _ _
             (2 ^ 52) (2 ^ 52 - 1)); try done; try lia;
      try (apply Z.pow_nonneg; lia); try (apply pow_step; simpl; lia).
  - assert (Hl' : Forall (λ x, not_below_zero (Prim2SF x)) l) by (by rewrite Hperm).
    destruct (IH Hl') as (Hs & Hz & Hb).
    split; [done|]. split.
    + intros ->. apply Hz. by apply Permutation_nil_r.
    + by rewrite <- (sum_scaled_perm _ _ Hperm), <- (Permutation_length Hperm).
Qed.

(** *** The divisor of the mean *)

Lemma binary_round_aux_canonical (m : positive) (e : Z) :
  bounded prec emax m e = true →
  binary_round_aux prec emax false (Zpos m) e loc_Exact = S754_finite false m e.
Proof.
  unfold bounded, canonical_mantissa. intros Hb.
  apply andb_prop in Hb as [Hc He]. apply Z.eqb_eq in Hc.
  assert (Hshift : shr_fexp prec emax (Zpos m) e loc_Exact =
                   (Build_shr_record (Zpos m) false false, e)).
  { unfold shr_fexp. change (Zdigits2 (Zpos m)) with (Zpos (digits2_pos m)).
    rewrite Hc, Z.sub_diag. reflexivity. }
  unfold binary_round_aux. rewrite Hshift. simpl shr_m. simpl loc_of_shr_record.
  unfold round_nearest_even. rewrite Hshift. simpl shr_m. by rewrite He.
Qed.

(** A count below 2^53 is a binary64 number. *)
Lemma float_of_nat_exact (k : nat) :
  (0 < k)%nat → Z.of_nat k < 2 ^ 53 →
  ∃ m e, Prim2SF (float_of_nat k) = S754_finite false m e ∧
         bounded prec emax m e = true ∧
         Zpos m * 2 ^ (e + 1074) = Z.of_nat k * 2 ^ 1074.
Proof.
  intros Hk0 Hk. unfold float_of_nat.
  rewrite FloatAxioms.of_uint63_spec, Uint63.of_Z_spec.
  rewrite Z.mod_small by (change Uint63.wB with (2 ^ 63); lia).
  destruct (Z.of_nat k) as [|p|p] eqn:Ep; try lia.
  unfold binary_normalize, binary_round.
  pose proof (shl_align_spec p 0 (fexp prec emax (Zpos (digits2_pos p) + 0))) as [He1 Hmz].
  destruct (shl_align p 0 _) as [mz e1]. simpl fst in *. simpl snd in *.
  rewrite fexp_eq in He1, Hmz.
  pose proof (digits2_pos_bounds p) as [Hlo Hhi].
  set (d := Zpos (digits2_pos p)) in *.
  assert (Hd : 0 < d) by (unfold d; lia).
  assert (Hd53 : d ≤ 53).
  { destruct (Z.le_gt_cases d 53) as [|Hgt]; [done|]. exfalso.
    assert (2 ^ 53 ≤ 2 ^ (d - 1)) by (apply Z.pow_le_mono_r; lia). lia. }
  assert (He1' : e1 = d - 53) by lia.
  rewrite <- He1 in Hmz.
  assert (Hmz' : Zpos mz = Zpos p * 2 ^ (53 - d)).
  { rewrite Hmz. f_equal. f_equal. lia. }
  assert (Hdig : Zdigits2 (Zpos mz) = 53).
  { apply Zdigits2_unique; [|lia]. rewrite Hmz'. split.
    - replace (53 - 1) with ((d - 1) + (53 - d)) by lia.
      rewrite (Z.pow_add_r 2 (d - 1) (53 - d)) by lia.
      apply Z.mul_le_mono_nonneg_r; [apply Z.pow_nonneg; lia | done].
    - replace 53 with (d + (53 - d)) at 2 by lia.
      rewrite (Z.pow_add_r 2 d (53 - d)) by lia.
      apply Z.mul_lt_mono_pos_r; [apply Z.pow_pos_nonneg; lia | done]. }
  assert (Hb : bounded prec emax mz e1 = true).
  { unfold bounded, canonical_mantissa. apply andb_true_intro. split.
    - apply Z.eqb_eq. rewrite fexp_eq.
      change (Zpos (digits2_pos mz)) with (Zdigits2 (Zpos mz)). rewrite Hdig. lia.
    - apply Z.leb_le. change (emax - prec) with 971. lia. }
  exists mz, e1. split; [by apply binary_round_aux_canonical|]. split; [done|].
  rewrite Hmz', He1'.
  replace 1074 with ((53 - d) + (d - 53 + 1074)) at 2 by lia.
  rewrite (Z.pow_add_r 2 (53 - d) (d - 53 + 1074)) by lia. ring.
Qed.

(** *** The mean and the minimum *)

Lemma sum_scaled_ge (l : list float) (v : Z) :
  Forall (λ d, v ≤ scaled (Prim2SF d)) l → Z.of_nat (length l) * v ≤ sum_scaled l.
Proof.
  induction 1 as [|d l Hd _ IH]; [simpl; lia|].
  cbn [sum_scaled foldr length]. fold (sum_scaled l). lia.
Qed.

Lemma leb_scaled (x y : float) :
  not_below_zero (Prim2SF x) → not_below_zero (Prim2SF y) →
  (x <=? y)%float = true → scaled (Prim2SF x) ≤ scaled (Prim2SF y).
Proof.
  intros Hx Hy Hle. apply FloatFacts.leb_key in Hle as (_ & _ & Hk).
  by apply scaled_le_key; auto using Prim2SF_valid.
Qed.

Lemma not_below_zero_not_nan (x : spec_float) : not_below_zero x → x ≠ S754_nan.
Proof. by destruct x. Qed.

Lemma at_least_leb (x y : float) :
  not_below_zero (Prim2SF x) → at_least (Prim2SF y) (scaled (Prim2SF x)) →
  (x <=? y)%float = true.
Proof.
  intros Hx Hy. pose proof (at_least_not_below_zero _ _ Hy) as Hy'.
  apply FloatFacts.leb_key.
  split; [by apply not_below_zero_not_nan|]. split; [by apply not_below_zero_not_nan|].
  destruct (at_least_scaled _ _ Hy) as [Hinf | Hle].
  - rewrite Hinf. destruct (Prim2SF x) as [?|[]| |[] m e]; done.
  - by apply scaled_le_key; auto using Prim2SF_valid.
Qed.

Lemma scaled_le_top (x : float) : scaled (Prim2SF x) ≤ 2 ^ 2098.
Proof.
  pose proof (Prim2SF_valid x) as Hv.
  destruct (Prim2SF x) as [?|[]| |[] m e]; simpl scaled; try lia.
  pose proof (scaled_finite_lt m e Hv). simpl scaled in *. lia.
Qed.

(** A positive valid number as a mantissa of at most 53 bits times a
    power of two. *)
Lemma scaled_representable (x : float) :
  0 < scaled (Prim2SF x) < 2 ^ 2098 →
  ∃ m j, 0 < m < 2 ^ 53 ∧ 0 ≤ j ∧ scaled (Prim2SF x) = m * 2 ^ j.
Proof.
  pose proof (Prim2SF_valid x) as Hv.
  destruct (Prim2SF x) as [?|[]| |[] m e]; simpl scaled; try lia.
  intros _. pose proof (bounded_spec m e Hv) as ([He _] & Hm & _).
  exists (Zpos m), (e + 1074). split; [lia|]. split; [lia | done].
Qed.

(** Dividing a sum by the count. *)
Lemma div_count_at_least (s : float) (k : nat) :
  (0 < k)%nat → Z.of_nat k < 2 ^ 53 →
  not_below_zero (Prim2SF s) →
  ∃ V, at_least (Prim2SF (s / float_of_nat k)) V ∧
       (∀ m j, 0 < m < 2 ^ 53 → 0 ≤ j →
               m * 2 ^ j * Z.of_nat k ≤ scaled (Prim2SF s) → m * 2 ^ j ≤ V) ∧
       (Prim2SF s ≠ S754_infinity false →
        scaled (Prim2SF s) * (2 ^ 52 - 1) ≤ (V + 1) * 2 ^ 52 * Z.of_nat k).
Proof.
  intros Hk0 Hk Hs.
  destruct (float_of_nat_exact k Hk0 Hk) as (mk & ek & Ek & Hbk & Hvk).
  rewrite FloatAxioms.div_spec, Ek. unfold SF64div.
  destruct (SFdiv_at_least (Prim2SF s) mk ek (Prim2SF_valid s) Hbk Hs)
    as (V & HV & Hrep & Hrel).
  cbv zeta in HV, Hrep, Hrel. cbn [scaled] in Hrep, Hrel. rewrite Hvk in Hrep, Hrel.
  exists V. split; [done|].
  assert (HC : 0 < 2 ^ 1074) by (by apply Z.pow_pos_nonneg).
  split.
  - intros m j Hm Hj Hle. apply Hrep; try done. nia.
  - intros Hinf. specialize (Hrel Hinf). nia.
Qed.

Lemma not_below_zero_at_least (x : spec_float) (V : Z) :
  valid_binary x = true → not_below_zero x → V ≤ 0 → at_least x V.
Proof.
  intros Hv Hx HV. pose proof (scaled_nonneg x Hv).
  destruct x as [?|[]| |[] m e]; simpl in *; try done; lia.
Qed.

Lemma infinity_dec (x : spec_float) :
  {x = S754_infinity false} + {x ≠ S754_infinity false}.
Proof. destruct x as [?|[]| |? ? ?]; (by left) || (by right). Qed.

Lemma div_count_infinity (s : float) (k : nat) :
  (0 < k)%nat → Z.of_nat k < 2 ^ 53 →
  Prim2SF s = S754_infinity false →
  Prim2SF (s / float_of_nat k) = S754_infinity false.
Proof.
  intros Hk0 Hk Hs.
  destruct (float_of_nat_exact k Hk0 Hk) as (mk & ek & Ek & _ & _).
  by rewrite FloatAxioms.div_spec, Ek, Hs.
Qed.

(** A sum that reaches the count times a number gives a mean that
    reaches the number. *)
Lemma mean_at_least (s mn : float) (k : nat) :
  (0 < k)%nat → Z.of_nat k < 2 ^ 53 →
  not_below_zero (Prim2SF s) → not_below_zero (Prim2SF mn) →
  Prim2SF s = S754_infinity false ∨
    Z.of_nat k * scaled (Prim2SF mn) ≤ scaled (Prim2SF s) →
  (mn <=? s / float_of_nat k)%float = true.
Proof.
  intros Hk0 Hk Hs Hmn Hsum. apply at_least_leb; [done|].
  destruct (infinity_dec (Prim2SF s)) as [Hinf | Hfin].
  { by rewrite (div_count_infinity s k Hk0 Hk Hinf). }
  destruct Hsum as [|Hsum]; [done|].
  destruct (div_count_at_least s k Hk0 Hk Hs) as (V & HV & Hrep & _).
  pose proof (scaled_nonneg _ (Prim2SF_valid mn)) as Hmn0.
  destruct (Z.eq_dec (scaled (Prim2SF mn)) 0) as [Hz | Hnz].
  { rewrite Hz. apply not_below_zero_at_least; [apply Prim2SF_valid | | lia].
    by apply at_least_not_below_zero in HV. }
  assert (Hs2 : scaled (Prim2SF s) < 2 ^ 2098).
  { pose proof (Prim2SF_valid s) as Hv.
    destruct (Prim2SF s) as [?|[]| |[] m e]; simpl scaled; try done; try lia.
    pose proof (scaled_finite_lt m e Hv). simpl scaled in *. lia. }
  destruct (scaled_representable mn) as (m & j & Hm & Hj & Em); [nia|].
  apply (at_least_le _ V); [|done].
  rewrite Em. apply Hrep; try done. rewrite <- Em. lia.
Qed.

(** The mean of at most two numbers is not below their minimum; the
    mean of any number of them is not below it by more than rounding. *)
Lemma mean_bounds (ds : list float) (mn : float) :
  ds ≠ [] →
  Forall (λ d, not_below_zero (Prim2SF d)) ds →
  mn ∈ ds → Forall (λ d, (mn <=? d)%float = true) ds →
  ((length ds ≤ 2)%nat → (mn <=? np_mean ds)%float = true) ∧
  (Z.of_nat (length ds) < 2 ^ 53 →
   scaled (Prim2SF mn) * (2 ^ 52 - 1) ^ (Z.of_nat (length ds) + 1) ≤
     (scaled (Prim2SF (np_mean ds)) + 1) * (2 ^ 52) ^ (Z.of_nat (length ds) + 1)).
Proof.
  intros Hne Hds Hin Hmin.
  assert (Hmn : not_below_zero (Prim2SF mn)) by (by apply (proj1 (Forall_forall _ _) Hds)).
  assert (Hle : Forall (λ d, scaled (Prim2SF mn) ≤ scaled (Prim2SF d)) ds).
  { apply Forall_forall. intros d Hd. apply leb_scaled; [done | |].
    - by apply (proj1 (Forall_forall _ _) Hds).
    - by apply (proj1 (Forall_forall _ _) Hmin). }
  assert (Hk0 : (0 < length ds)%nat) by (destruct ds; [done | simpl; lia]).
  split.
  - (* at most two numbers *)
    intros Hk. unfold np_mean.
    apply mean_at_least; try done; [lia | |].
    + destruct (float_sum_bound ds (np_sum ds)
                  (SummationMore.np_sum_float_sum ds) Hds) as (? & _); done.
    + rewrite Summation.np_sum_short by lia.
      destruct ds as [|d0 [|d1 [|? ?]]]; try done; [| |simpl in Hk; lia];
        cbn [fold_left length]; rewrite FloatFacts.neg_zero_add.
      * (* one number *)
        apply Forall_cons in Hds as [Hd0 _]. apply Forall_cons in Hle as [Hle0 _].
        destruct (add_zero_l 0 d0 false eq_refl Hd0) as (_ & Hv & Hinf & _).
        destruct (infinity_dec (Prim2SF d0)) as [|]; [left; by apply Hinf | right].
        rewrite Hv. lia.
      * (* two numbers *)
        apply Forall_cons in Hds as [Hd0 Hds]. apply Forall_cons in Hds as [Hd1 _].
        apply Forall_cons in Hle as [Hle0 Hle]. apply Forall_cons in Hle as [Hle1 _].
        destruct (add_at_least d0 d1 Hd0 Hd1) as (V & HV & Hrep & _).
        pose proof (at_least_not_below_zero _ _ HV) as Hgood.
        destruct (add_zero_l 0 (d0 + d1) false eq_refl Hgood) as (_ & Hv & Hinf & _).
        destruct (infinity_dec (Prim2SF d0)) as [Hi0 | Hf0].
        { left. apply Hinf, add_infinity; auto. }
        destruct (at_least_scaled _ _ HV) as [Hi | HVle]; [left; by apply Hinf | right].
        rewrite Hv. change (Z.of_nat 2) with 2.
        pose proof (scaled_nonneg _ (Prim2SF_valid mn)) as Hmn0.
        destruct (Z.eq_dec (scaled (Prim2SF mn)) 0) as [Hz | Hnz].
        { rewrite Hz. pose proof (scaled_nonneg _ (Prim2SF_valid (d0 + d1))). lia. }
        assert (Hlt : scaled (Prim2SF mn) < 2 ^ 2098).
        { pose proof (Prim2SF_valid d0) as Hv0.
          destruct (Prim2SF d0) as [?|[]| |[] m e]; simpl scaled in *; try done; try lia.
          pose proof (scaled_finite_lt m e Hv0). simpl scaled in *. lia. }
        destruct (scaled_representable mn) as (m & j & Hm & Hj & Em); [lia|].
        assert (m * 2 ^ (j + 1) ≤ V).
        { apply Hrep; try done; [lia|].
          rewrite Z.pow_add_r by lia. change (2 ^ 1) with 2. lia. }
        rewrite Z.pow_add_r in * by lia. change (2 ^ 1) with 2 in *. lia.
  - (* any number of them *)
    intros Hk. unfold np_mean.
    set (k := length ds) in *. set (s := np_sum ds).
    destruct (float_sum_bound ds s (SummationMore.np_sum_float_sum ds) Hds)
      as (Hs & _ & Hb).
    pose proof (sum_scaled_ge ds _ Hle) as Hsum. fold k in Hsum, Hb.
    pose proof (scaled_nonneg _ (Prim2SF_valid mn)) as Hmn0.
    pose proof (scaled_le_top mn) as Hmtop.
    assert (Hgoal : ∀ w,
              (Prim2SF s ≠ S754_infinity false ∧
               sum_scaled ds * (2 ^ 52 - 1) ^ Z.of_nat k ≤
                 scaled (Prim2SF s) * (2 ^ 52) ^ Z.of_nat k ∧
               scaled (Prim2SF s) * (2 ^ 52 - 1) ≤ (w + 1) * 2 ^ 52 * Z.of_nat k) ∨
              w = 2 ^ 2098 →
              scaled (Prim2SF mn) * (2 ^ 52 - 1) ^ (Z.of_nat k + 1) ≤
                (w + 1) * (2 ^ 52) ^ (Z.of_nat k + 1)).
    { intros w Hw.
      set (Q := 2 ^ 52 - 1) in *.
      assert (HQ : 0 < Q) by (subst Q; lia).
      assert (HQ' : Q + 1 = 2 ^ 52) by (subst Q; lia).
      rewrite <- HQ' in *. clearbody Q.
      set (P := Q + 1) in *.
      assert (HQk : 0 ≤ Q ^ Z.of_nat k) by (apply Z.pow_nonneg; lia).
      assert (HPk : 0 < P ^ Z.of_nat k) by (apply Z.pow_pos_nonneg; lia).
      assert (HQP : Q ^ (Z.of_nat k + 1) ≤ P ^ (Z.of_nat k + 1))
        by (apply Z.pow_le_mono_l; lia).
      assert (HQk1 : 0 ≤ Q ^ (Z.of_nat k + 1)) by (apply Z.pow_nonneg; lia).
      destruct Hw as [(Hfin & Hb' & Hrel) | ->].
      - rewrite !Z.pow_add_r, !Z.pow_1_r by lia.
        set (a := Q ^ Z.of_nat k) in *. set (A := P ^ Z.of_nat k) in *.
        set (t := scaled (Prim2SF s)) in *. set (v := scaled (Prim2SF mn)) in *.
        set (K := Z.of_nat k) in *.
        assert (HK : 0 < K) by (subst K; lia).
        assert (Ht : 0 ≤ t) by (subst t; apply scaled_nonneg, Prim2SF_valid).
        assert (G0 : K * v * a ≤ sum_scaled ds * a) by (apply Z.mul_le_mono_nonneg_r; lia).
        assert (G1 : K * v * a ≤ t * A) by lia.
        assert (G2 : K * v * a * Q ≤ t * A * Q) by (apply Z.mul_le_mono_nonneg_r; lia).
        assert (G3 : t * Q * A ≤ (w + 1) * P * K * A)
          by (apply Z.mul_le_mono_nonneg_r; lia).
        assert (G5 : (v * (a * Q)) * K ≤ ((w + 1) * (A * P)) * K) by lia.
        apply Z.mul_le_mono_pos_r in G5; done.
      - assert (scaled (Prim2SF mn) * Q ^ (Z.of_nat k + 1) ≤
                2 ^ 2098 * P ^ (Z.of_nat k + 1)); [|lia].
        apply Z.mul_le_mono_nonneg; lia. }
    assert (Hinfcase : Prim2SF (s / float_of_nat k) = S754_infinity false →
              scaled (Prim2SF mn) * (2 ^ 52 - 1) ^ (Z.of_nat k + 1) ≤
                (scaled (Prim2SF (s / float_of_nat k)) + 1) * (2 ^ 52) ^ (Z.of_nat k + 1)).
    { intros E. apply Hgoal. right. by rewrite E. }
    destruct (infinity_dec (Prim2SF s)) as [Hinf | Hfin].
    { apply Hinfcase. by apply div_count_infinity. }
    destruct Hb as [Hinf | Hb]; [done|].
    destruct (div_count_at_least s k Hk0 Hk Hs) as (V & HV & _ & Hrel).
    specialize (Hrel Hfin).
    destruct (at_least_scaled _ _ HV) as [Hinf | HVle]; [by apply Hinfcase|].
    apply Hgoal. left. split; [done|]. split; [done|].
    etransitivity; [exact Hrel|].
    apply Z.mul_le_mono_nonneg_r; [lia|].
    apply Z.mul_le_mono_nonneg_r; lia.
Qed.

End Rounding.

(** * Properties of the analysis *)

(** C1: when both turtles have samples, the analysis computes the
    Euclidean distance of the i-th sample of each turtle for every
    position below the shorter length, the samples of a turtle taken in
    table order, with the squares taken by the C library; it stores the
    mean of these distances, a binary64 sum of them (each added once; for
    fewer than eight distances the sum from left to right) divided by
    their number, and the number of distances below 10.0. *)
Theorem C1_distances_mean_and_count `{Libm}
    (self : TurtleBehaviorAnalyzer) (df : DataFrame) :
  tracking_data self = Some df →
  select_turtle "turtle_a" df ≠ [] →
  select_turtle "turtle_b" df ≠ [] →
  let A := select_turtle "turtle_a" df in
  let B := select_turtle "turtle_b" df in
  let k := min (length A) (length B) in
  A `sublist_of` df ∧ B `sublist_of` df ∧
  ∃ (distances : list float) (total : float) (self' : TurtleBehaviorAnalyzer),
    analyze_movement_patterns self = (self', None) ∧
    length distances = k ∧
    (∀ i, (i < k)%nat →
       ∃ ra rb, A !! i = Some ra ∧ B !! i = Some rb ∧
         distances !! i =
           Some (PrimFloat.sqrt (pow2 (x_position ra - x_position rb) +
                                 pow2 (y_position ra - y_position rb)))%float) ∧
    float_sum distances total ∧
    ((k < 8)%nat → total = (0 + fold_left PrimFloat.add distances (-0))%float) ∧
    analysis_results self' !! "avg_distance" =
      Some (VFloat (total / PrimFloat.of_uint63 (Uint63.of_Z (Z.of_nat k)))%float) ∧
    analysis_results self' !! "interaction_frequency" =
      Some (VInt (Z.of_nat (length (List.filter (λ d, d <? 10)%float distances)))).
Proof.
  intros Hdf HA HB A B k.
  split; [apply sublist_filter|]. split; [apply sublist_filter|].
  destruct (Analysis.analyze_populates self df Hdf HA HB) as (m & Hm & Han).
  exists (aligned_distances df), (np_sum (aligned_distances df)),
         (store_summary self (aligned_distances df) m).
  split; [done|].
  split; [apply Analysis.length_aligned_distances|].
  split.
  { intros i Hi. apply Analysis.lookup_aligned_distances.
    by rewrite Analysis.length_aligned_distances. }
  split; [apply SummationMore.np_sum_float_sum|].
  split.
  { intros Hk. apply Summation.np_sum_short.
    by rewrite Analysis.length_aligned_distances. }
  split.
  - rewrite Analysis.store_summary_avg. unfold np_mean, float_of_nat.
    by rewrite Analysis.length_aligned_distances.
  - by rewrite Analysis.store_summary_freq.
Qed.

(** The scenario with turtle A at (0,0) and turtle B at (3,4): the
    stored mean is 5.0 and one distance is below 10.0. *)
Lemma C1_witness :
  ∃ self' : TurtleBehaviorAnalyzer,
    analyze_movement_patterns (load scenario_3_4 fresh) = (self', None) ∧
    analysis_results self' !! "avg_distance" = Some (VFloat 5) ∧
    analysis_results self' !! "interaction_frequency" = Some (VInt 1).
Proof.
  destruct (C1_distances_mean_and_count (load scenario_3_4 fresh) scenario_3_4
              eq_refl ltac:(vm_compute; discriminate) ltac:(vm_compute; discriminate))
    as (_ & _ & ds & total & self' & Hrun & Hlen & Hds & _ & Htotal & Havg & Hfreq).
  exists self'. split; [exact Hrun|].
  destruct ds as [|d [|? ?]]; try discriminate Hlen.
  destruct (Hds 0%nat ltac:(vm_compute; lia)) as (ra & rb & [= <-] & [= <-] & [= ->]).
  rewrite (Htotal ltac:(vm_compute; lia)) in Havg.
  split; [exact Havg | exact Hfreq].
Defined.

(** C3: when one of the two series is empty (so no aligned pair exists),
    the analysis returns without an exception and leaves the analyzer,
    its summary included, as it was. *)
Theorem C3_no_pairs_is_silent_noop `{Libm} (self : TurtleBehaviorAnalyzer) (df : DataFrame) :
  tracking_data self = Some df →
  min (length (select_turtle "turtle_a" df)) (length (select_turtle "turtle_b" df)) = 0%nat →
  analyze_movement_patterns self = (self, None).
Proof.
  intros Hdf Hk. apply (Analysis.analyze_noop self df Hdf).
  destruct (select_turtle "turtle_a" df), (select_turtle "turtle_b" df);
    simpl in Hk; auto; lia.
Qed.

(** A table with one turtle only, and the empty table. *)
Lemma C3_witness :
  analyze_movement_patterns (load only_a fresh) = (load only_a fresh, None) ∧
  analyze_movement_patterns (load [] fresh) = (load [] fresh, None).
Proof.
  split.
  - apply (C3_no_pairs_is_silent_noop (load only_a fresh) only_a); reflexivity.
  - apply (C3_no_pairs_is_silent_noop (load [] fresh) []); reflexivity.
Defined.

(** C8: a second call of the analysis right after the first ends the same
    way and leaves the analyzer, stored samples and summary, exactly as
    the first call left it. *)
Theorem C8_analyze_twice `{Libm} (self : TurtleBehaviorAnalyzer) :
  analyze_movement_patterns (fst (analyze_movement_patterns self)) =
    analyze_movement_patterns self.
Proof.
  destruct (tracking_data self) as [df|] eqn:Hdf.
  - destruct (select_turtle "turtle_a" df) as [|ra A] eqn:HA.
    { rewrite (Analysis.analyze_noop self df) by auto. simpl.
      by rewrite (Analysis.analyze_noop self df) by auto. }
    destruct (select_turtle "turtle_b" df) as [|rb B] eqn:HB.
    { rewrite (Analysis.analyze_noop self df) by auto. simpl.
      by rewrite (Analysis.analyze_noop self df) by auto. }
    destruct (Analysis.analyze_populates self df) as (m & Hm & ->);
      [by rewrite ?HA, ?HB..|]. simpl.
    destruct (Analysis.analyze_populates
                (store_summary self (aligned_distances df) m) df)
      as (m' & Hm' & ->); [by rewrite ?HA, ?HB..|].
    assert (m' = m) as -> by congruence.
    by rewrite Analysis.store_summary_twice.
  - rewrite (Analysis.analyze_unloaded self Hdf). simpl.
    by rewrite (Analysis.analyze_unloaded self Hdf).
Qed.

(** C10: the two series are the rows with the literal ids [turtle_a] and
    [turtle_b]; rows of any other id change neither the outcome nor the
    stored summary, and a table holding only other ids, two distinct
    subjects or more, leaves the analyzer as it was: a new analyzer keeps
    an empty summary. *)
Theorem C10_only_the_two_literal_ids `{Libm} (self : TurtleBehaviorAnalyzer) (df : DataFrame) :
  (analysis_results (fst (analyze_movement_patterns (load (filter tracked df) self))) =
     analysis_results (fst (analyze_movement_patterns (load df self))) ∧
   snd (analyze_movement_patterns (load (filter tracked df) self)) =
     snd (analyze_movement_patterns (load df self))) ∧
  (Forall (λ r, ¬ tracked r) df →
   analyze_movement_patterns (load df self) = (load df self, None) ∧
   analysis_results (fst (analyze_movement_patterns (load df (__init__ (species self) (duration self))))) = ∅).
Proof.
  split.
  - apply Analysis.analyze_by_series; apply Analysis.select_turtle_tracked; auto.
  - intros Hdf.
    assert (Hsel : select_turtle "turtle_a" df = [] ∨ select_turtle "turtle_b" df = []).
    { left. apply Analysis.select_turtle_untracked; auto. }
    split.
    + by apply (Analysis.analyze_noop (load df self) df).
    + by rewrite (Analysis.analyze_noop (load df (__init__ _ _)) df).
Qed.

(** Two subjects named [turtle_c] and [turtle_d]. *)
Lemma C10_witness :
  two_subjects other_ids ∧
  analyze_movement_patterns (load other_ids fresh) = (load other_ids fresh, None) ∧
  analysis_results (fst (analyze_movement_patterns (load other_ids fresh))) = ∅.
Proof.
  split.
  - exists (pt "turtle_c" 0 0), (pt "turtle_d" 3 4).
    split; [left|]. split; [right; left | discriminate].
  - apply (proj2 (C10_only_the_two_literal_ids fresh other_ids)).
    repeat constructor; unfold tracked; simpl; intros [?|?]; discriminate.
Defined.

(** C2, as stated, fails: after a table with both turtles was analysed,
    loading a table with one turtle only and analysing again leaves the
    earlier summary in place, though one subject has zero samples. *)
Lemma C2_stale_summary_counterexample :
  let self := run [OpLoad scenario_3_4; OpAnalyze; OpLoad only_a; OpAnalyze] fresh in
  ¬ (analysis_results self ≠ ∅ →
     ∃ df, tracking_data self = Some df ∧ two_subjects df).
Proof.
  intros self Hclaim.
  destruct Hclaim as (df & Hdf & r1 & r2 & H1 & H2 & Hne).
  - intros Hempty.
    assert (Hlook : analysis_results self !! "avg_distance" = Some (VFloat 5))
      by (vm_compute; reflexivity).
    rewrite Hempty in Hlook. discriminate.
  - assert (Hd : tracking_data self = Some only_a) by reflexivity.
    rewrite Hd in Hdf. injection Hdf as <-.
    apply list_elem_of_singleton in H1, H2. congruence.
Qed.

(** C2, amended: in every state reached from a new analyzer by loads and
    analyses, the summary is empty or holds exactly its three fields, and
    a filled summary comes from a loaded table, the stored one or an
    earlier one, in which both [turtle_a] and [turtle_b] have a sample (so
    two distinct subject ids); an analysis of a table in which one of the
    two has no sample changes nothing and raises nothing, so the summary
    stays empty if it was. *)
Theorem C2_summary_whole_or_empty `{Libm} (sp du : string) (ops : list op) :
  let self := run ops (__init__ sp du) in
  (analysis_results self = ∅ ∨ dom (analysis_results self) = summary_keys) ∧
  (analysis_results self ≠ ∅ →
   ∃ df, OpLoad df ∈ ops ∧ has_turtle "turtle_a" df ∧ has_turtle "turtle_b" df ∧
         two_subjects df) ∧
  (∀ df, select_turtle "turtle_a" df = [] ∨ select_turtle "turtle_b" df = [] →
         analyze_movement_patterns (load df self) = (load df self, None)).
Proof.
  intros self. destruct (Reachability.invariant_run sp du ops) as (Hwhole & Hfrom & _).
  split; [exact Hwhole|]. split.
  - intros Hne. destruct (Hfrom Hne) as (df & Hin & Ha & Hb).
    exists df. eauto using Reachability.two_subjects_of_both.
  - intros df Hsel. by apply (Analysis.analyze_noop (load df self) df).
Qed.

(** After one table with both turtles was analysed the summary holds its
    three fields, and an analysis of a one-turtle table on a new analyzer
    changes nothing. *)
Lemma C2_witness :
  dom (analysis_results (run [OpLoad scenario_3_4; OpAnalyze] fresh)) = summary_keys ∧
  analyze_movement_patterns (load only_a fresh) = (load only_a fresh, None).
Proof.
  split.
  - destruct (C2_summary_whole_or_empty "chelonia" "24h" [OpLoad scenario_3_4; OpAnalyze])
      as ([Hempty | Hdom] & _ & _); [|exact Hdom].
    assert (Hlook : analysis_results (run [OpLoad scenario_3_4; OpAnalyze] fresh)
                      !! "avg_distance" = Some (VFloat 5)) by (vm_compute; reflexivity).
    exfalso. fold fresh in Hempty. rewrite Hempty in Hlook. discriminate.
  - apply (proj2 (proj2 (C2_summary_whole_or_empty "chelonia" "24h" []))).
    right. reflexivity.
Defined.

(** C5, as stated, fails: with three aligned pairs, each 1.5 + 6 * 2^-52
    apart, the stored minimum is that distance and the stored mean, the
    rounded sum divided by 3, is the binary64 number just below it. *)
Lemma C5_mean_below_min_counterexample :
  let self := fst (analyze_movement_patterns (load three_equal fresh)) in
  length (select_turtle "turtle_a" three_equal) = 3%nat ∧
  length (select_turtle "turtle_b" three_equal) = 3%nat ∧
  analysis_results self !! "min_distance" = Some (VFloat 0x1.8000000000006p+0) ∧
  analysis_results self !! "avg_distance" = Some (VFloat 0x1.8000000000005p+0) ∧
  (0x1.8000000000006p+0 <=? 0x1.8000000000005p+0)%float = false.
Proof. vm_compute. repeat split; reflexivity. Qed.

(** A NaN coordinate makes both the minimum and the mean NaN, which
    compare as unordered. *)
Lemma nan_min_and_mean_unordered :
  let self := fst (analyze_movement_patterns (load with_nan fresh)) in
  analysis_results self !! "min_distance" = Some (VFloat nan) ∧
  analysis_results self !! "avg_distance" = Some (VFloat nan) ∧
  (nan <=? nan)%float = false.
Proof. vm_compute. repeat split; reflexivity. Qed.

(** C5, amended: for two non-empty series of equal length k, the stored
    proximity count is at most k.  When no distance is NaN, the stored
    minimum is one of the k distances and is less than or equal to each
    of them, and the stored mean is not below it by more than rounding:
    for k = 1 and k = 2 the minimum is less than or equal to the mean,
    and for every k below 2^53 the mean plus 2^-1074 is at least the
    minimum times (1 - 2^-52)^(k+1).  When a distance is NaN, the stored
    minimum and mean are both NaN.  The distances are the roots of the
    sums of the C library's squares; values are counted in units of
    2^-1074. *)
Theorem C5_count_and_minimum_bounds `{Libm} (self : TurtleBehaviorAnalyzer) (df : DataFrame) :
  tracking_data self = Some df →
  select_turtle "turtle_a" df ≠ [] →
  length (select_turtle "turtle_a" df) = length (select_turtle "turtle_b" df) →
  let k := length (select_turtle "turtle_a" df) in
  let distances :=
    zip_with (λ ra rb,
                PrimFloat.sqrt (pow2 (x_position ra - x_position rb) +
                                pow2 (y_position ra - y_position rb)))%float
             (select_turtle "turtle_a" df) (select_turtle "turtle_b" df) in
  ∃ (self' : TurtleBehaviorAnalyzer) (mn av : float) (count : nat),
    analyze_movement_patterns self = (self', None) ∧
    analysis_results self' !! "min_distance" = Some (VFloat mn) ∧
    analysis_results self' !! "avg_distance" = Some (VFloat av) ∧
    analysis_results self' !! "interaction_frequency" = Some (VInt (Z.of_nat count)) ∧
    length distances = k ∧
    (count ≤ k)%nat ∧
    (Forall (λ d, isnan d = false) distances →
     mn ∈ distances ∧
     Forall (λ d, (mn <=? d)%float = true) distances ∧
     ((k ≤ 2)%nat → (mn <=? av)%float = true) ∧
     (Z.of_nat k < 2 ^ 53 →
      scaled (Prim2SF mn) * (2 ^ 52 - 1) ^ (Z.of_nat k + 1) ≤
        (scaled (Prim2SF av) + 1) * (2 ^ 52) ^ (Z.of_nat k + 1))) ∧
    (Exists (λ d, isnan d = true) distances → mn = nan ∧ av = nan).
Proof.
  intros Hdf HA Hlen k distances.
  change distances with (aligned_distances df). clear distances.
  assert (HB : select_turtle "turtle_b" df ≠ []).
  { intros HB. rewrite HB in Hlen. by destruct (select_turtle "turtle_a" df). }
  destruct (Analysis.analyze_populates self df Hdf HA HB) as (m & Hm & Han).
  assert (Hk : length (aligned_distances df) = k).
  { rewrite Analysis.length_aligned_distances. unfold k. lia. }
  exists (store_summary self (aligned_distances df) m), m,
         (np_mean (aligned_distances df)), (interaction_count (aligned_distances df)).
  split; [done|].
  split; [apply Analysis.store_summary_min|].
  split; [apply Analysis.store_summary_avg|].
  split; [apply Analysis.store_summary_freq|].
  split; [done|].
  split; [|split].
  - unfold interaction_count.
    etransitivity; [apply List.filter_length_le|]. by rewrite Hk.
  - intros Hnan.
    destruct (FloatFacts.np_min_spec _ _ Hnan Hm) as [Hin Hmin].
    split; [done|]. split; [done|].
    assert (Hgood : Forall (λ d, not_below_zero (Prim2SF d)) (aligned_distances df)).
    { pose proof (FloatMore.aligned_distances_nonneg df) as Hpos.
      apply Forall_forall. intros d Hd.
      pose proof (proj1 (Forall_forall _ _) Hpos d Hd) as Hs.
      pose proof (proj1 (Forall_forall _ _) Hnan d Hd) as Hn.
      apply FloatFacts.isnan_false in Hn. cbv beta in Hs. revert Hs Hn.
      destruct (Prim2SF d) as [?|[]| |[] ? ?]; simpl; done. }
    destruct (Rounding.mean_bounds (aligned_distances df) m) as [Hsmall Hany]; try done.
    { intros E. rewrite E in Hin. by apply not_elem_of_nil in Hin. }
    rewrite Hk in Hsmall, Hany. done.
  - intros Hex. apply Exists_exists in Hex as (d & Hd & Hn).
    apply FloatMore.isnan_true in Hn. subst d.
    rewrite (FloatMore.np_min_nan _ Hd) in Hm. injection Hm as <-.
    split; [done|]. by apply FloatMore.np_mean_nan.
Qed.

(** The bounds on the table of the counterexample, three pairs: the
    minimum is the distance of each pair and the mean, one binary64
    number below it, is within the rounding bound; and on a table of two
    pairs, each 10.0 apart: the minimum is at most the mean. *)
Lemma C5_witness :
  (∃ (self' : TurtleBehaviorAnalyzer) (count : nat),
     analyze_movement_patterns (load three_equal fresh) = (self', None) ∧
     analysis_results self' !! "min_distance" = Some (VFloat 0x1.8000000000006p+0) ∧
     analysis_results self' !! "avg_distance" = Some (VFloat 0x1.8000000000005p+0) ∧
     analysis_results self' !! "interaction_frequency" = Some (VInt (Z.of_nat count)) ∧
     (count ≤ 3)%nat ∧
     scaled (Prim2SF 0x1.8000000000006p+0) * (2 ^ 52 - 1) ^ 4 ≤
       (scaled (Prim2SF 0x1.8000000000005p+0) + 1) * (2 ^ 52) ^ 4) ∧
  (∃ (self' : TurtleBehaviorAnalyzer) (mn av : float),
     analyze_movement_patterns (load ten_apart fresh) = (self', None) ∧
     analysis_results self' !! "min_distance" = Some (VFloat mn) ∧
     analysis_results self' !! "avg_distance" = Some (VFloat av) ∧
     (mn <=? av)%float = true).
Proof.
  split.
  - destruct (C5_count_and_minimum_bounds (load three_equal fresh) three_equal
                eq_refl ltac:(vm_compute; discriminate) eq_refl)
      as (self' & mn & av & count & Hrun & Hmin & Havg & Hfreq & _ & Hle & Hnum & _).
    assert (Hvals : analysis_results
                      (fst (analyze_movement_patterns (load three_equal fresh)))
                      !! "min_distance" = Some (VFloat 0x1.8000000000006p+0) ∧
                    analysis_results
                      (fst (analyze_movement_patterns (load three_equal fresh)))
                      !! "avg_distance" = Some (VFloat 0x1.8000000000005p+0))
      by (vm_compute; split; reflexivity).
    rewrite Hrun in Hvals. simpl fst in Hvals. destruct Hvals as [Hmin' Havg'].
    assert (mn = 0x1.8000000000006p+0%float) as -> by congruence.
    assert (av = 0x1.8000000000005p+0%float) as -> by congruence.
    exists self', count. split; [exact Hrun|]. split; [exact Hmin|].
    split; [exact Havg|]. split; [exact Hfreq|]. split; [exact Hle|].
    apply Hnum; [vm_compute; repeat constructor | vm_compute; reflexivity].
  - destruct (C5_count_and_minimum_bounds (load ten_apart fresh) ten_apart
                eq_refl ltac:(vm_compute; discriminate) eq_refl)
      as (self' & mn & av & count & Hrun & Hmin & Havg & _ & _ & _ & Hnum & _).
    exists self', mn, av. split; [exact Hrun|]. split; [exact Hmin|].
    split; [exact Havg|].
    apply Hnum; [vm_compute; repeat constructor | vm_compute; lia].
Defined.

(** C6: with turtle A at (0,0) and turtle B at (3,4), one sample each, the
    stored mean and minimum are 5.0 and the proximity count is 1, whatever
    the C library; and whenever there is exactly one aligned pair, the
    stored mean and the stored minimum both equal the distance of that
    pair, the root of the sum of the library's two squares. *)
Theorem C6_single_pair `{Libm} :
  (let self := fst (analyze_movement_patterns (load scenario_3_4 fresh)) in
   snd (analyze_movement_patterns (load scenario_3_4 fresh)) = None ∧
   analysis_results self !! "avg_distance" = Some (VFloat 5) ∧
   analysis_results self !! "min_distance" = Some (VFloat 5) ∧
   analysis_results self !! "interaction_frequency" = Some (VInt 1)) ∧
  (∀ (self : TurtleBehaviorAnalyzer) (df : DataFrame),
     tracking_data self = Some df →
     min (length (select_turtle "turtle_a" df))
         (length (select_turtle "turtle_b" df)) = 1%nat →
     ∃ ra rb self',
       head (select_turtle "turtle_a" df) = Some ra ∧
       head (select_turtle "turtle_b" df) = Some rb ∧
       analyze_movement_patterns self = (self', None) ∧
       let distance :=
         (PrimFloat.sqrt (pow2 (x_position ra - x_position rb) +
                          pow2 (y_position ra - y_position rb)))%float in
       analysis_results self' !! "avg_distance" = Some (VFloat distance) ∧
       analysis_results self' !! "min_distance" = Some (VFloat distance)).
Proof.
  assert (Hgen : ∀ (self : TurtleBehaviorAnalyzer) (df : DataFrame),
     tracking_data self = Some df →
     min (length (select_turtle "turtle_a" df))
         (length (select_turtle "turtle_b" df)) = 1%nat →
     ∃ ra rb,
       head (select_turtle "turtle_a" df) = Some ra ∧
       head (select_turtle "turtle_b" df) = Some rb ∧
       analyze_movement_patterns self =
         (store_summary self [row_distance ra rb] (row_distance ra rb), None)).
  { intros self df Hdf Hk.
    destruct (Analysis.aligned_distances_single df Hk) as (ra & rb & Hra & Hrb & Hds).
    destruct (Analysis.analyze_populates self df Hdf) as (m & Hm & Han).
    { intros E. by rewrite E in Hra. }
    { intros E. by rewrite E in Hrb. }
    rewrite Hds in Hm, Han. simpl in Hm. injection Hm as <-.
    by exists ra, rb. }
  split.
  - destruct (Hgen (load scenario_3_4 fresh) scenario_3_4 eq_refl eq_refl)
      as (ra & rb & [= <-] & [= <-] & ->).
    rewrite FloatFacts.row_distance_exact by reflexivity.
    vm_compute. repeat split; reflexivity.
  - intros self df Hdf Hk.
    destruct (Hgen self df Hdf Hk) as (ra & rb & Hra & Hrb & ->).
    exists ra, rb, (store_summary self [row_distance ra rb] (row_distance ra rb)).
    split; [done|]. split; [done|]. split; [done|].
    split.
    + by rewrite Analysis.store_summary_avg, FloatFacts.np_mean_singleton.
    + apply Analysis.store_summary_min.
Qed.

(** The general part at the scenario, with the correctly rounded
    squares 9.0 and 16.0. *)
Lemma C6_witness :
  ∃ self',
    analyze_movement_patterns (load scenario_3_4 fresh) = (self', None) ∧
    analysis_results self' !! "avg_distance" = Some (VFloat 5) ∧
    analysis_results self' !! "min_distance" = Some (VFloat 5).
Proof.
  destruct (proj2 C6_single_pair (load scenario_3_4 fresh) scenario_3_4
              eq_refl eq_refl)
    as (ra & rb & self' & [= <-] & [= <-] & Hrun & Havg & Hmin).
  exists self'. split; [exact Hrun|]. split; [exact Havg | exact Hmin].
Defined.

(** C7: the threshold is strict.  The stored proximity count is the
    number of aligned pairs whose distance is below 10.0 among the pairs
    whose distance is not 10.0: a pair whose distance is 10.0 is not
    counted, and when every aligned pair is 10.0 apart the count is 0.
    The pairs (0,0)-(10,0) and (1,1)-(7,9) are each 10.0 apart whatever
    the C library, and their count is 0. *)
Theorem C7_threshold_is_strict `{Libm} :
  (∀ (self : TurtleBehaviorAnalyzer) (df : DataFrame),
     tracking_data self = Some df →
     select_turtle "turtle_a" df ≠ [] →
     select_turtle "turtle_b" df ≠ [] →
     let distances :=
       zip_with (λ ra rb,
                   PrimFloat.sqrt (pow2 (x_position ra - x_position rb) +
                                   pow2 (y_position ra - y_position rb)))%float
                (select_turtle "turtle_a" df) (select_turtle "turtle_b" df) in
     ∃ self',
       analyze_movement_patterns self = (self', None) ∧
       analysis_results self' !! "interaction_frequency" =
         Some (VInt (Z.of_nat (length
           (List.filter (λ d, d <? 10)%float
              (List.filter (λ d, negb (d =? 10)%float) distances))))) ∧
       (Forall (λ d, d = 10%float) distances →
        analysis_results self' !! "interaction_frequency" = Some (VInt 0))) ∧
  (zip_with (λ ra rb,
               PrimFloat.sqrt (pow2 (x_position ra - x_position rb) +
                               pow2 (y_position ra - y_position rb)))%float
            (select_turtle "turtle_a" ten_apart) (select_turtle "turtle_b" ten_apart)
     = [10; 10]%float ∧
   ∃ self',
     analyze_movement_patterns (load ten_apart fresh) = (self', None) ∧
     analysis_results self' !! "interaction_frequency" = Some (VInt 0)).
Proof.
  assert (Hgen : ∀ (self : TurtleBehaviorAnalyzer) (df : DataFrame),
     tracking_data self = Some df →
     select_turtle "turtle_a" df ≠ [] →
     select_turtle "turtle_b" df ≠ [] →
     ∃ self',
       analyze_movement_patterns self = (self', None) ∧
       analysis_results self' !! "interaction_frequency" =
         Some (VInt (Z.of_nat (length
           (List.filter (λ d, d <? 10)%float
              (List.filter (λ d, negb (d =? 10)%float) (aligned_distances df)))))) ∧
       (Forall (λ d, d = 10%float) (aligned_distances df) →
        analysis_results self' !! "interaction_frequency" = Some (VInt 0))).
  { intros self df Hdf HA HB.
    destruct (Analysis.analyze_populates self df Hdf HA HB) as (m & Hm & Han).
    exists (store_summary self (aligned_distances df) m).
    split; [done|]. rewrite Analysis.store_summary_freq. unfold interaction_count.
    split.
    - change (λ d : float, (d <? 10)%float) with proximity_event.
      by rewrite FloatFacts.filter_proximity_not_ten.
    - intros Hten. do 2 f_equal. clear Hm Han.
      induction Hten as [|d ds -> _ IH]; [done|]. simpl. exact IH. }
  assert (Hten : aligned_distances ten_apart = [10; 10]%float).
  { change (aligned_distances ten_apart)
      with [row_distance (pt "turtle_a" 0 0) (pt "turtle_b" 10 0);
            row_distance (pt "turtle_a" 1 1) (pt "turtle_b" 7 9)].
    by rewrite !FloatFacts.row_distance_exact by reflexivity. }
  split; [exact Hgen|].
  split; [exact Hten|].
  destruct (Hgen (load ten_apart fresh) ten_apart
              eq_refl ltac:(vm_compute; discriminate) ltac:(vm_compute; discriminate))
    as (self' & Hrun & _ & Hzero).
  exists self'. split; [exact Hrun|].
  apply Hzero. rewrite Hten. repeat constructor.
Qed.

(** The general part at the pairs (0,0)-(10,0) and (1,1)-(7,9), with
    the correctly rounded squares. *)
Lemma C7_witness :
  ∃ self',
    analyze_movement_patterns (load ten_apart fresh) = (self', None) ∧
    analysis_results self' !! "interaction_frequency" = Some (VInt 0).
Proof.
  destruct (proj1 C7_threshold_is_strict (load ten_apart fresh) ten_apart
              eq_refl ltac:(vm_compute; discriminate) ltac:(vm_compute; discriminate))
    as (self' & Hrun & _ & Hzero).
  exists self'. split; [exact Hrun|].
  apply Hzero. repeat constructor.
Defined.

(** * Properties of the generator *)

Section GeneratorProperties.
Context `{Libm} {G : Type} `{RandomState G}.

(** C4: the generator reseeds the global random state with 42 before its
    first draw, so two runs, whatever the random state and the analyzer
    each starts from, build the same table of samples, and the analyses of
    the two tables on new analyzers store the same summary and end the
    same way. *)
Theorem C4_generator_is_deterministic
    (self1 self2 : TurtleBehaviorAnalyzer) (g1 g2 : G) (sp1 du1 sp2 du2 : string) :
  tracking_data (fst (_generate_synthetic_data self1 g1)) =
    tracking_data (fst (_generate_synthetic_data self2 g2)) ∧
  snd (_generate_synthetic_data self1 g1) = snd (_generate_synthetic_data self2 g2) ∧
  analysis_results
    (fst (analyze_movement_patterns (fst (_generate_synthetic_data (__init__ sp1 du1) g1)))) =
  analysis_results
    (fst (analyze_movement_patterns (fst (_generate_synthetic_data (__init__ sp2 du2) g2)))) ∧
  snd (analyze_movement_patterns (fst (_generate_synthetic_data (__init__ sp1 du1) g1))) =
  snd (analyze_movement_patterns (fst (_generate_synthetic_data (__init__ sp2 du2) g2))).
Proof.
  split; [by rewrite !Synthetic.generate_table|].
  split.
  - destruct (Synthetic.generate_columns self1 g1)
      as (zx & gx & zy & gy & ids & gi & vel & gv & its & gt & E1 & E2 & E3 & E4 & E5 & ->).
    destruct (Synthetic.generate_columns self2 g2)
      as (zx' & gx' & zy' & gy' & ids' & gi' & vel' & gv' & its' & gt' &
          F1 & F2 & F3 & F4 & F5 & ->).
    simpl. congruence.
  - rewrite !Synthetic.generate_table. by apply Analysis.analyze_congruence.
Qed.

End GeneratorProperties.

(** Two runs over the stand-in random state, from different states and
    analyzers, build one table. *)
Lemma C4_witness :
  tracking_data (fst (_generate_synthetic_data fresh (0 : Z))) =
    tracking_data (fst (_generate_synthetic_data (load only_a fresh) (12345 : Z))).
Proof.
  apply (proj1 (C4_generator_is_deterministic fresh (load only_a fresh)
                  (0 : Z) (12345 : Z) "" "" "" "")).
Defined.

(** * Further properties of the analysis *)

(** X1: once a table is stored, whatever its rows, the analysis ends
    without [AttributeError], [IndexError] or [ValueError]: the table is
    there, the index loop stays inside both series and the minimum is
    never taken of an empty list; the stored table is kept. *)
Theorem X1_analysis_after_load_never_raises `{Libm} (self : TurtleBehaviorAnalyzer) (df : DataFrame) :
  tracking_data self = Some df →
  snd (analyze_movement_patterns self) = None ∧
  tracking_data (fst (analyze_movement_patterns self)) = Some df.
Proof.
  intros Hdf. split.
  - by apply (AnalysisMore.analyze_loaded_returns self df).
  - by apply AnalysisMore.analyze_keeps_table.
Qed.

(** The table of three equal pairs. *)
Lemma X1_witness :
  snd (analyze_movement_patterns (load three_equal fresh)) = None ∧
  tracking_data (fst (analyze_movement_patterns (load three_equal fresh))) = Some three_equal.
Proof.
  apply (X1_analysis_after_load_never_raises (load three_equal fresh) three_equal).
  reflexivity.
Defined.

(** X2: on an analyzer that never loaded or generated data the analysis
    raises [AttributeError], [tracking_data] being unset by the
    constructor, and changes nothing, however often it is called. *)
Theorem X2_analysis_before_load_raises `{Libm} (sp du : string) (n : nat) :
  let self := run (replicate n OpAnalyze) (__init__ sp du) in
  self = __init__ sp du ∧
  analyze_movement_patterns self = (__init__ sp du, Some AttributeError).
Proof.
  assert (Hrun : run (replicate n OpAnalyze) (__init__ sp du) = __init__ sp du).
  { induction n as [|n IH]; [done|].
    rewrite replicate_S_end, Reachability.run_snoc, IH. done. }
  simpl. rewrite Hrun. done.
Qed.

(** X3: a stored minimum and a stored mean are never negative: each is
    NaN or at least 0; and the stored count is at most the number of
    aligned pairs. *)
Theorem X3_summary_is_never_negative `{Libm} (self : TurtleBehaviorAnalyzer) (df : DataFrame) :
  tracking_data self = Some df →
  select_turtle "turtle_a" df ≠ [] →
  select_turtle "turtle_b" df ≠ [] →
  ∃ (self' : TurtleBehaviorAnalyzer) (mn av : float) (count : nat),
    analyze_movement_patterns self = (self', None) ∧
    analysis_results self' !! "min_distance" = Some (VFloat mn) ∧
    analysis_results self' !! "avg_distance" = Some (VFloat av) ∧
    analysis_results self' !! "interaction_frequency" = Some (VInt (Z.of_nat count)) ∧
    (mn = nan ∨ (0 <=? mn)%float = true) ∧
    (av = nan ∨ (0 <=? av)%float = true) ∧
    (count ≤ min (length (select_turtle "turtle_a" df))
                 (length (select_turtle "turtle_b" df)))%nat.
Proof.
  intros Hdf HA HB.
  destruct (Analysis.analyze_populates self df Hdf HA HB) as (m & Hm & Han).
  exists (store_summary self (aligned_distances df) m), m,
         (np_mean (aligned_distances df)), (interaction_count (aligned_distances df)).
  pose proof (FloatMore.aligned_distances_nonneg df) as Hpos.
  split; [done|].
  split; [apply Analysis.store_summary_min|].
  split; [apply Analysis.store_summary_avg|].
  split; [apply Analysis.store_summary_freq|].
  split; [|split].
  - destruct (FloatMore.nan_or_not m) as [|Hn]; [by left | right].
    apply FloatMore.nonneg_leb; [|done].
    apply FloatMore.np_min_elem in Hm.
    by apply (proj1 (Forall_forall _ _) Hpos).
  - destruct (FloatMore.nan_or_not (np_mean (aligned_distances df))) as [|Hn];
      [by left | right].
    apply FloatMore.nonneg_leb; [|done]. by apply FloatMore.np_mean_nonneg.
  - unfold interaction_count.
    etransitivity; [apply List.filter_length_le|].
    by rewrite Analysis.length_aligned_distances.
Qed.

(** The table of two pairs 10.0 apart. *)
Lemma X3_witness :
  ∃ (self' : TurtleBehaviorAnalyzer) (mn av : float),
    analyze_movement_patterns (load ten_apart fresh) = (self', None) ∧
    analysis_results self' !! "min_distance" = Some (VFloat mn) ∧
    analysis_results self' !! "avg_distance" = Some (VFloat av) ∧
    (mn = nan ∨ (0 <=? mn)%float = true) ∧
    (av = nan ∨ (0 <=? av)%float = true).
Proof.
  destruct (X3_summary_is_never_negative (load ten_apart fresh) ten_apart
              eq_refl ltac:(vm_compute; discriminate) ltac:(vm_compute; discriminate))
    as (self' & mn & av & count & Hrun & Hmin & Havg & _ & Hmn & Hav & _).
  exists self', mn, av. repeat split; assumption.
Defined.

(** X4: only the first k rows of each series are read, k the length of
    the shorter one: two tables whose series agree on these rows, and
    have the same k, give the same summary and outcome, whatever rows the
    longer series has beyond. *)
Theorem X4_surplus_rows_are_ignored `{Libm} (self : TurtleBehaviorAnalyzer) (df df' : DataFrame) :
  let k := min (length (select_turtle "turtle_a" df)) (length (select_turtle "turtle_b" df)) in
  min (length (select_turtle "turtle_a" df')) (length (select_turtle "turtle_b" df')) = k →
  take k (select_turtle "turtle_a" df') = take k (select_turtle "turtle_a" df) →
  take k (select_turtle "turtle_b" df') = take k (select_turtle "turtle_b" df) →
  analysis_results (fst (analyze_movement_patterns (load df' self))) =
    analysis_results (fst (analyze_movement_patterns (load df self))) ∧
  snd (analyze_movement_patterns (load df' self)) =
    snd (analyze_movement_patterns (load df self)).
Proof.
  intros k Hk HA HB.
  assert (Hd : aligned_distances df' = aligned_distances df).
  { unfold aligned_distances.
    rewrite <- (zip_with_take_both' row_distance k k (select_turtle "turtle_a" df'))
      by (rewrite Hk; lia).
    rewrite <- (zip_with_take_both' row_distance k k (select_turtle "turtle_a" df))
      by (unfold k; lia).
    by rewrite HA, HB. }
  destruct (decide (k = 0%nat)) as [Hz|Hnz].
  - rewrite Hz in Hk. unfold k in Hz.
    rewrite (Analysis.analyze_noop (load df self) df),
            (Analysis.analyze_noop (load df' self) df'); try done.
    + destruct (select_turtle "turtle_a" df'), (select_turtle "turtle_b" df');
        simpl in Hk; auto; lia.
    + destruct (select_turtle "turtle_a" df), (select_turtle "turtle_b" df);
        simpl in Hz; auto; lia.
  - apply AnalysisMore.analyze_by_distances; [| |done].
    + unfold k in *. destruct (select_turtle "turtle_a" df'), (select_turtle "turtle_a" df);
        simpl in *; try done; lia.
    + unfold k in *.
      destruct (select_turtle "turtle_a" df'), (select_turtle "turtle_a" df),
               (select_turtle "turtle_b" df'), (select_turtle "turtle_b" df);
        simpl in *; try done; lia.
Qed.

(** Two more samples of turtle A after the scenario. *)
Lemma X4_witness :
  analysis_results (fst (analyze_movement_patterns (load longer_a fresh))) =
    analysis_results (fst (analyze_movement_patterns (load scenario_3_4 fresh))) ∧
  snd (analyze_movement_patterns (load longer_a fresh)) =
    snd (analyze_movement_patterns (load scenario_3_4 fresh)).
Proof.
  apply (X4_surplus_rows_are_ignored fresh scenario_3_4 longer_a); reflexivity.
Defined.

(** X5: the analysis reads the turtle id and the position of a row and
    nothing else: tables that agree row by row on these give the same
    summary and outcome, whatever their timestamps, velocities and
    interaction types. *)
Theorem X5_only_id_and_position_are_read `{Libm} (self : TurtleBehaviorAnalyzer) (df df' : DataFrame) :
  same_positions df df' →
  analysis_results (fst (analyze_movement_patterns (load df' self))) =
    analysis_results (fst (analyze_movement_patterns (load df self))) ∧
  snd (analyze_movement_patterns (load df' self)) =
    snd (analyze_movement_patterns (load df self)).
Proof.
  intros Hsame.
  pose proof (AnalysisMore.same_positions_select "turtle_a" df df' Hsame) as HA.
  pose proof (AnalysisMore.same_positions_select "turtle_b" df df' Hsame) as HB.
  apply AnalysisMore.analyze_by_distances.
  - apply Forall2_length in HA.
    destruct (select_turtle "turtle_a" df), (select_turtle "turtle_a" df'); done.
  - apply Forall2_length in HB.
    destruct (select_turtle "turtle_b" df), (select_turtle "turtle_b" df'); done.
  - symmetry. by apply AnalysisMore.same_positions_distances.
Qed.

(** The scenario with the other fields changed. *)
Lemma X5_witness :
  analysis_results (fst (analyze_movement_patterns (load relabelled fresh))) =
    analysis_results (fst (analyze_movement_patterns (load scenario_3_4 fresh))) ∧
  snd (analyze_movement_patterns (load relabelled fresh)) =
    snd (analyze_movement_patterns (load scenario_3_4 fresh)).
Proof.
  apply (X5_only_id_and_position_are_read fresh scenario_3_4 relabelled).
  repeat constructor.
Defined.

(** X6: when both turtles have a sample, the analysis replaces the whole
    summary: in any state reached from a new analyzer by loads and
    analyses, analysing a table stores exactly what a new analyzer would
    store for it; nothing of an earlier summary is left. *)
Theorem X6_summary_is_replaced_whole `{Libm} (sp du : string) (ops : list op) (df : DataFrame) :
  select_turtle "turtle_a" df ≠ [] →
  select_turtle "turtle_b" df ≠ [] →
  analysis_results (fst (analyze_movement_patterns (load df (run ops (__init__ sp du))))) =
    analysis_results (fst (analyze_movement_patterns (load df (__init__ sp du)))).
Proof.
  intros HA HB.
  destruct (Reachability.invariant_run sp du ops) as (Hwhole & _ & _).
  destruct (Analysis.analyze_populates (load df (run ops (__init__ sp du))) df eq_refl HA HB)
    as (m & Hm & ->).
  destruct (Analysis.analyze_populates (load df (__init__ sp du)) df eq_refl HA HB)
    as (m' & Hm' & ->).
  assert (m' = m) as -> by congruence. simpl fst.
  apply ReachabilityMore.store_summary_over; [done | by left].
Qed.

(** After an earlier analysis and a one-turtle load. *)
Lemma X6_witness :
  analysis_results
    (fst (analyze_movement_patterns
            (load ten_apart (run [OpLoad scenario_3_4; OpAnalyze; OpLoad only_a] fresh)))) =
  analysis_results (fst (analyze_movement_patterns (load ten_apart fresh))).
Proof.
  apply (X6_summary_is_replaced_whole "chelonia" "24h"
           [OpLoad scenario_3_4; OpAnalyze; OpLoad only_a] ten_apart);
    vm_compute; discriminate.
Defined.

(** X7: exchanging the labels [turtle_a] and [turtle_b] throughout the
    table changes neither the summary nor the outcome: the distance of a
    pair does not depend on which of the two is subtracted from which. *)
Theorem X7_exchanging_the_turtles `{Libm} (self : TurtleBehaviorAnalyzer) (df : DataFrame) :
  analysis_results (fst (analyze_movement_patterns (load (swap_label <$> df) self))) =
    analysis_results (fst (analyze_movement_patterns (load df self))) ∧
  snd (analyze_movement_patterns (load (swap_label <$> df) self)) =
    snd (analyze_movement_patterns (load df self)).
Proof.
  destruct (decide (select_turtle "turtle_a" df = [])) as [HA|HA].
  { rewrite (Analysis.analyze_noop (load df self) df) by auto.
    rewrite (Analysis.analyze_noop (load (swap_label <$> df) self) (swap_label <$> df));
      [done..|].
    right. by rewrite AnalysisFloat.select_swap_b, HA. }
  destruct (decide (select_turtle "turtle_b" df = [])) as [HB|HB].
  { rewrite (Analysis.analyze_noop (load df self) df) by auto.
    rewrite (Analysis.analyze_noop (load (swap_label <$> df) self) (swap_label <$> df));
      [done..|].
    left. by rewrite AnalysisFloat.select_swap_a, HB. }
  destruct (Analysis.analyze_populates (load df self) df eq_refl HA HB) as (m & Hm & ->).
  destruct (Analysis.analyze_populates (load (swap_label <$> df) self) (swap_label <$> df)
              eq_refl) as (m' & Hm' & ->).
  { rewrite AnalysisFloat.select_swap_a. by destruct (select_turtle "turtle_b" df). }
  { rewrite AnalysisFloat.select_swap_b. by destruct (select_turtle "turtle_a" df). }
  rewrite AnalysisFloat.aligned_distances_swap in Hm' |- *.
  assert (m' = m) as -> by congruence. done.
Qed.

(** X8: on a new analyzer, the analysis of a loaded table fills the
    summary if and only if the table has a sample of [turtle_a] and one of
    [turtle_b]; the summary is then complete, otherwise empty. *)
Theorem X8_new_analyzer_populated_iff_both `{Libm} (sp du : string) (df : DataFrame) :
  let self := fst (analyze_movement_patterns (load df (__init__ sp du))) in
  (analysis_results self ≠ ∅ ↔ has_turtle "turtle_a" df ∧ has_turtle "turtle_b" df) ∧
  (analysis_results self = ∅ ∨ dom (analysis_results self) = summary_keys).
Proof.
  intros self. split.
  - apply AnalysisMore.new_analyzer_populated_iff.
  - apply AnalysisMore.new_analyzer_whole_or_empty.
Qed.

(** X9: a NaN coordinate in any aligned pair makes both the stored mean
    and the stored minimum NaN, and the stored count is the number of
    distances below 10.0 among those that are not NaN, the distances
    being the roots of the sums of the C library's squares. *)
Theorem X9_nan_coordinate_poisons_mean_and_minimum `{Libm}
    (self : TurtleBehaviorAnalyzer) (df : DataFrame) (i : nat) (ra rb : Sample) :
  tracking_data self = Some df →
  select_turtle "turtle_a" df !! i = Some ra →
  select_turtle "turtle_b" df !! i = Some rb →
  x_position ra = nan ∨ y_position ra = nan ∨
  x_position rb = nan ∨ y_position rb = nan →
  let distances :=
    zip_with (λ ra rb,
                PrimFloat.sqrt (pow2 (x_position ra - x_position rb) +
                                pow2 (y_position ra - y_position rb)))%float
             (select_turtle "turtle_a" df) (select_turtle "turtle_b" df) in
  ∃ self',
    analyze_movement_patterns self = (self', None) ∧
    analysis_results self' !! "avg_distance" = Some (VFloat nan) ∧
    analysis_results self' !! "min_distance" = Some (VFloat nan) ∧
    analysis_results self' !! "interaction_frequency" =
      Some (VInt (Z.of_nat (length
        (List.filter (λ d, d <? 10)%float
           (List.filter (λ d, negb (isnan d)) distances))))).
Proof.
  intros Hdf Hra Hrb Hnan distances.
  change distances with (aligned_distances df). clear distances.
  assert (Hin : nan ∈ aligned_distances df).
  { apply list_elem_of_lookup. exists i. unfold aligned_distances.
    rewrite lookup_zip_with, Hra, Hrb. simpl. f_equal.
    by apply FloatMore.row_distance_nan. }
  destruct (Analysis.analyze_populates self df Hdf) as (m & Hm & Han).
  { intros E. by rewrite E in Hra. }
  { intros E. by rewrite E in Hrb. }
  rewrite (FloatMore.np_min_nan _ Hin) in Hm. injection Hm as <-.
  exists (store_summary self (aligned_distances df) nan).
  split; [done|].
  split; [by rewrite Analysis.store_summary_avg, FloatMore.np_mean_nan|].
  split; [apply Analysis.store_summary_min|].
  rewrite Analysis.store_summary_freq. unfold interaction_count.
  change (λ d : float, (d <? 10)%float) with proximity_event.
  by rewrite AnalysisFloat.filter_proximity_not_nan.
Qed.

(** The second of two pairs has a NaN coordinate. *)
Lemma X9_witness :
  ∃ self',
    analyze_movement_patterns (load nan_pair fresh) = (self', None) ∧
    analysis_results self' !! "avg_distance" = Some (VFloat nan) ∧
    analysis_results self' !! "min_distance" = Some (VFloat nan).
Proof.
  destruct (X9_nan_coordinate_poisons_mean_and_minimum (load nan_pair fresh) nan_pair 1
              (pt "turtle_a" 1 nan) (pt "turtle_b" 2 2) eq_refl eq_refl eq_refl
              ltac:(right; left; reflexivity))
    as (self' & Hrun & Havg & Hmin & _).
  exists self'. repeat split; assumption.
Defined.


(** * Further properties of loading, generating and plotting *)

Section MoreGeneratorProperties.
Context `{Libm} {G : Type} `{RandomState G}.

(** X10: [load_data] stores the table read from the file, or the
    synthetic table when the file is not found, and leaves the summary as
    it was; the analysis called next then finds a table and ends without
    [AttributeError], [IndexError] or [ValueError].  Any other failure of
    [pd.read_csv] leaves [load_data] as an exception, the analyzer being
    as before: no table is stored by the call. *)
Theorem X10_load_data_then_analysis (csv : read_csv_result)
    (self : TurtleBehaviorAnalyzer) (g : G) :
  let self' := fst (fst (load_data csv self g)) in
  let raised := snd (load_data csv self g) in
  analysis_results self' = analysis_results self ∧
  match csv with
  | CsvTable df =>
      raised = None ∧ tracking_data self' = Some df ∧
      snd (analyze_movement_patterns self') = None
  | CsvFileNotFound =>
      raised = None ∧ tracking_data self' = Some synthetic_table ∧
      snd (analyze_movement_patterns self') = None
  | CsvError => raised = Some ReadCsvError ∧ self' = self
  end.
Proof.
  intros self' raised. subst self' raised.
  destruct csv as [df| |]; simpl.
  - split; [done|]. split; [done|]. split; [done|].
    by apply (AnalysisMore.analyze_loaded_returns _ df).
  - split; [apply SyntheticMore.generate_analysis_results|].
    split; [done|].
    pose proof (SyntheticMore.generate_tracking_data self g) as Hdata.
    split; [done|].
    by apply (AnalysisMore.analyze_loaded_returns _ synthetic_table).
  - done.
Qed.

(** X11: the command-line run works on a new analyzer.  Either reading
    the file named by a non-empty data path fails with something other
    than a missing file, and the run ends there, nothing stored; or one
    table is analysed without [AttributeError], [IndexError] or
    [ValueError]: the summary is filled if and only if the table has both
    turtles, the table is the one read when the file is read, and the
    synthetic one without a data path, with an empty one (no file being
    read) or with a file that is not found. *)
Theorem X11_command_line_analysis (args : Args) (read_csv : string → read_csv_result) (g : G) :
  let result := main_analysis args read_csv g in
  (snd result = Some ReadCsvError ∧
   fst result = __init__ (arg_species args) (arg_duration args) ∧
   ∃ path, arg_data_path args = Some path ∧ path ≠ "" ∧ read_csv path = CsvError) ∨
  (snd result = None ∧
   ∃ table,
     tracking_data (fst result) = Some table ∧
     (analysis_results (fst result) ≠ ∅ ↔
        has_turtle "turtle_a" table ∧ has_turtle "turtle_b" table) ∧
     (arg_data_path args = None ∨ arg_data_path args = Some "" ∨
      (∃ path, arg_data_path args = Some path ∧ read_csv path = CsvFileNotFound) →
      table = synthetic_table) ∧
     (∀ path df, arg_data_path args = Some path → path ≠ "" →
                 read_csv path = CsvTable df → table = df)).
Proof.
  intros result. subst result. unfold main_analysis.
  set (analyzer := __init__ (arg_species args) (arg_duration args)).
  assert (Hkey : ∀ table (self : TurtleBehaviorAnalyzer),
            self = load table analyzer →
            snd (analyze_movement_patterns self) = None ∧
            tracking_data (fst (analyze_movement_patterns self)) = Some table ∧
            (analysis_results (fst (analyze_movement_patterns self)) ≠ ∅ ↔
               has_turtle "turtle_a" table ∧ has_turtle "turtle_b" table)).
  { intros table self ->.
    split; [by apply (AnalysisMore.analyze_loaded_returns _ table)|].
    split; [by apply AnalysisMore.analyze_keeps_table|].
    apply AnalysisMore.new_analyzer_populated_iff. }
  assert (Hgen : ∀ g', fst (_generate_synthetic_data analyzer g') = load synthetic_table analyzer)
    by (intros g'; apply Synthetic.generate_table).
  assert (Hsyn : ∀ g',
    let result := (let '(analyzer0, _, raised) := (_generate_synthetic_data analyzer g', None) in
                   match raised with
                   | Some e => (analyzer0, Some e)
                   | None => analyze_movement_patterns analyzer0
                   end) in
    snd result = None ∧
    tracking_data (fst result) = Some synthetic_table ∧
    (analysis_results (fst result) ≠ ∅ ↔
       has_turtle "turtle_a" synthetic_table ∧ has_turtle "turtle_b" synthetic_table)).
  { intros g'. pose proof (Hgen g') as Hself.
    destruct (_generate_synthetic_data analyzer g') as [self g''].
    simpl in Hself. simpl. by apply Hkey. }
  destruct (arg_data_path args) as [path|] eqn:Hpath.
  - destruct (decide (path = "")) as [-> | Hne].
    + right. destruct (Hsyn g) as (? & ? & ?).
      split; [done|]. exists synthetic_table.
      split; [done|]. split; [done|]. split; [done|].
      intros path df [= <-] Hne. done.
    + destruct (read_csv path) as [df| |] eqn:Hcsv; unfold load_data.
      * right. destruct (Hkey df (load df analyzer) eq_refl) as (? & ? & ?).
        split; [done|]. exists df.
        split; [done|]. split; [done|]. split.
        -- intros [? | [[= ->] | (path' & [= <-] & Hnf)]]; [done | done | congruence].
        -- intros path' df' [= <-] _ Hread. congruence.
      * right. destruct (Hsyn g) as (? & ? & ?).
        split; [done|]. exists synthetic_table.
        split; [done|]. split; [done|]. split; [done|].
        intros path' df' [= <-] _ Hread. congruence.
      * left. split; [done|]. split; [done|]. by exists path.
  - right. destruct (Hsyn g) as (? & ? & ?).
    split; [done|]. exists synthetic_table.
    split; [done|]. split; [done|]. split; [done|].
    intros path df [=].
Qed.

(** X12: when the integer sampler stays below its bound, every
    generated row carries one of the two analysed turtle ids and one of
    the three interaction types, so the analysis skips no generated row
    for its id. *)
Theorem X12_generated_labels (self : TurtleBehaviorAnalyzer) (g : G) :
  (∀ m g', (0 < m)%nat → (fst (rk_below m g') < m)%nat) →
  ∃ df,
    tracking_data (fst (_generate_synthetic_data self g)) = Some df ∧
    Forall (λ r, tracked r ∧
                 interaction_type r ∈ ["approach"; "avoid"; "neutral"]) df ∧
    filter tracked df = df.
Proof.
  intros Hbelow.
  destruct (Synthetic.generate_columns self g)
    as (zx & gx & zy & gy & ids & gi & vel & gv & its & gt & E1 & E2 & E3 & E4 & E5 & ->).
  pose proof (Synthetic.draws_length rk_gauss n_points (rk_seed 42)) as Lx.
  pose proof (Synthetic.draws_length rk_gauss n_points gx) as Ly.
  pose proof (Synthetic.draws_length
                (λ g, let '(i, g) := rk_below (length ["turtle_a"; "turtle_b"]) g in
                      (nth i ["turtle_a"; "turtle_b"] "", g)) n_points gy) as Li.
  pose proof (Synthetic.draws_length (rk_gamma 2 0.5) n_points gi) as Lv.
  pose proof (Synthetic.draws_length
                (λ g, let '(i, g) := rk_below (length ["approach"; "avoid"; "neutral"]) g in
                      (nth i ["approach"; "avoid"; "neutral"] "", g)) n_points gv) as Lt.
  fold (randn n_points (rk_seed 42)) in Lx. fold (randn n_points gx) in Ly.
  fold (choice ["turtle_a"; "turtle_b"] n_points gy) in Li.
  fold (gamma 2 0.5 n_points gi) in Lv.
  fold (choice ["approach"; "avoid"; "neutral"] n_points gv) in Lt.
  rewrite E1 in Lx. rewrite E2 in Ly. rewrite E3 in Li. rewrite E4 in Lv.
  rewrite E5 in Lt. simpl in Lx, Ly, Li, Lv, Lt.
  set (ts := date_range START_2024_01_01 n_points FREQ_1MIN).
  assert (Hts : length ts = n_points) by apply Synthetic.date_range_length.
  destruct (Synthetic.DataFrame_of_columns_spec ts ids (walk zx) (walk zy) vel its)
    as (_ & Di & _ & _ & _ & Dt);
    rewrite ?Synthetic.walk_length; try congruence.
  set (df := DataFrame_of_columns ts ids (walk zx) (walk zy) vel its) in *.
  exists df. simpl. split; [done|].
  assert (Hids : Forall (λ s, s ∈ ["turtle_a"; "turtle_b"]) (turtle_id <$> df)).
  { rewrite Di.
    pose proof (SyntheticMore.choice_Forall ["turtle_a"; "turtle_b"] n_points gy
                  ltac:(done) Hbelow) as Hc. by rewrite E3 in Hc. }
  assert (Hits : Forall (λ s, s ∈ ["approach"; "avoid"; "neutral"]) (interaction_type <$> df)).
  { rewrite Dt.
    pose proof (SyntheticMore.choice_Forall ["approach"; "avoid"; "neutral"] n_points gv
                  ltac:(done) Hbelow) as Hc. by rewrite E5 in Hc. }
  apply Forall_fmap in Hids, Hits.
  assert (Htracked : Forall tracked df).
  { eapply Forall_impl; [exact Hids|]. intros r Hr. simpl in Hr. unfold tracked.
    rewrite !elem_of_cons, elem_of_nil in Hr. tauto. }
  split.
  - apply Forall_forall. intros r Hr. split.
    + by apply (proj1 (Forall_forall _ _) Htracked).
    + by apply (proj1 (Forall_forall _ _) Hits).
  - clear -Htracked. induction Htracked as [|r df Hr _ IH]; [done|].
    by rewrite filter_cons_True, IH.
Qed.

(** X14: the generator builds exactly 1000 rows; the i-th timestamp is
    2024-01-01 00:00 plus i minutes; after the random state is seeded with
    42, 1000 standard normal deviates are drawn for x and 1000 more for
    y, and each coordinate column is 100.0 plus the running sums, over
    the row index, of its deviates times 0.5; then the 1000 turtle ids
    are drawn, each a uniform index into the two ids, whatever the
    coordinates; then the velocities, which are 1000 deviates of the Gamma
    sampler with shape 2 and scale 0.5; then the interaction types. *)
Theorem X14_synthetic_table_shape (self : TurtleBehaviorAnalyzer) (g : G) :
  ∃ (df : DataFrame) (zx zy : list float) (gx gy gi gv gt : G),
    tracking_data (fst (_generate_synthetic_data self g)) = Some df ∧
    snd (_generate_synthetic_data self g) = gt ∧
    length df = 1000%nat ∧
    (∀ i, (i < 1000)%nat →
       timestamp <$> df !! i = Some (1704067200000000000 + Z.of_nat i * 60000000000)) ∧
    drawn rk_gauss 1000 (rk_seed 42) zx gx ∧
    drawn rk_gauss 1000 gx zy gy ∧
    (∃ wx, running_sum ((λ z, z * 0.5)%float <$> zx) wx ∧
           x_position <$> df = (λ c, c + 100)%float <$> wx) ∧
    (∃ wy, running_sum ((λ z, z * 0.5)%float <$> zy) wy ∧
           y_position <$> df = (λ c, c + 100)%float <$> wy) ∧
    drawn (λ g, let '(i, g') := rk_below 2 g in (nth i ["turtle_a"; "turtle_b"] "", g'))
          1000 gy (turtle_id <$> df) gi ∧
    drawn (rk_gamma 2 0.5) 1000 gi (velocity <$> df) gv ∧
    drawn (λ g, let '(i, g') := rk_below 3 g in
                (nth i ["approach"; "avoid"; "neutral"] "", g'))
          1000 gv (interaction_type <$> df) gt.
Proof.
  destruct (Synthetic.generate_columns self g)
    as (zx & gx & zy & gy & ids & gi & vel & gv & its & gt & E1 & E2 & E3 & E4 & E5 & ->).
  pose proof (Synthetic.draws_length rk_gauss n_points (rk_seed 42)) as Lx.
  pose proof (Synthetic.draws_length rk_gauss n_points gx) as Ly.
  pose proof (Synthetic.draws_length
                (λ g, let '(i, g) := rk_below (length ["turtle_a"; "turtle_b"]) g in
                      (nth i ["turtle_a"; "turtle_b"] "", g)) n_points gy) as Li.
  pose proof (Synthetic.draws_length (rk_gamma 2 0.5) n_points gi) as Lv.
  pose proof (Synthetic.draws_length
                (λ g, let '(i, g) := rk_below (length ["approach"; "avoid"; "neutral"]) g in
                      (nth i ["approach"; "avoid"; "neutral"] "", g)) n_points gv) as Lt.
  fold (randn n_points (rk_seed 42)) in Lx. fold (randn n_points gx) in Ly.
  fold (choice ["turtle_a"; "turtle_b"] n_points gy) in Li.
  fold (gamma 2 0.5 n_points gi) in Lv.
  fold (choice ["approach"; "avoid"; "neutral"] n_points gv) in Lt.
  rewrite E1 in Lx. rewrite E2 in Ly. rewrite E3 in Li. rewrite E4 in Lv.
  rewrite E5 in Lt. simpl in Lx, Ly, Li, Lv, Lt.
  set (ts := date_range START_2024_01_01 n_points FREQ_1MIN).
  assert (Hts : length ts = n_points) by apply Synthetic.date_range_length.
  destruct (Synthetic.DataFrame_of_columns_spec ts ids (walk zx) (walk zy) vel its)
    as (Dt & Di & Dx & Dy & Dv & Dty);
    rewrite ?Synthetic.walk_length; try congruence.
  set (df := DataFrame_of_columns ts ids (walk zx) (walk zy) vel its) in *.
  exists df, zx, zy, gx, gy, gi, gv, gt. simpl.
  split; [done|]. split; [done|].
  split. { rewrite <- (length_fmap timestamp df), Dt. exact Hts. }
  split. { intros i Hi. rewrite <- list_lookup_fmap, Dt.
           by apply Synthetic.date_range_lookup. }
  split; [by apply Synthetic.draws_drawn|].
  split; [by apply Synthetic.draws_drawn|].
  split. { eexists. split; [apply Synthetic.np_cumsum_running_sum | exact Dx]. }
  split. { eexists. split; [apply Synthetic.np_cumsum_running_sum | exact Dy]. }
  split. { rewrite Di. by apply Synthetic.draws_drawn. }
  split. { rewrite Dv. by apply Synthetic.draws_drawn. }
  rewrite Dty. by apply Synthetic.draws_drawn.
Qed.

End MoreGeneratorProperties.

(** An empty data path, with a file system that would answer any path. *)
Lemma X11_witness :
  ∃ table,
    tracking_data (fst (main_analysis (mkArgs "chelonia" "24h" (Some ""))
                          (λ _, CsvTable only_a) (0 : Z))) = Some table ∧
    table = synthetic_table.
Proof.
  destruct (X11_command_line_analysis (mkArgs "chelonia" "24h" (Some ""))
              (λ _, CsvTable only_a) (0 : Z))
    as [(_ & _ & path & [= <-] & Hne & _) | (_ & table & Hdata & _ & Hsyn & _)].
  - exfalso. by apply Hne.
  - exists table. split; [exact Hdata|]. apply Hsyn. right. left. reflexivity.
Defined.

(** The generator run over the stand-in random state. *)
Lemma X12_witness :
  ∃ df,
    tracking_data (fst (_generate_synthetic_data fresh (0 : Z))) = Some df ∧
    filter tracked df = df.
Proof.
  assert (Hbelow : ∀ (m : nat) (g' : Z), (0 < m)%nat → (fst (rk_below m g') < m)%nat).
  { intros m g' Hm. simpl.
    pose proof (Z.mod_pos_bound (g' / 65536) (Z.of_nat m) ltac:(lia)). lia. }
  destruct (X12_generated_labels fresh (0 : Z) Hbelow) as (df & Hdf & _ & Hfilter).
  exists df. split; [exact Hdf | exact Hfilter].
Defined.

